(** * Pixel Arcade (src/app.js): the store and the three game engines

    A shallow embedding of the application logic of [src/app.js]: the
    [store] wrapper around [localStorage], and the engines BYTE RUNNER,
    NEON CLICKER and GLITCH REACT, each with its frame loop.

    Conventions of the embedding.
    - JavaScript numbers are modelled as exact rationals [Q]; values the
      code keeps integral (levels, streaks, bests, costs) are [Z].  The
      rounding of binary floating point is modelled where a claim is about
      it: in [Binary64], for the cost of an upgrade ([Clicker.calcCost64]).
    - Every closure variable of an engine ([let running], [let speed], ...)
      is a field of that engine's [state] record; a function of the source
      that assigns them is a function [state -> state].
    - Calls that leave the engine (painting the canvas, writing the DOM,
      [store.set], [requestAnimationFrame]) are recorded in the field [out],
      newest first.
    - [Math.random()] is an argument: the caller supplies the values the
      calls of one step return, in call order.
    - Exceptions are the [Throw] case of [completion]. *)

From Stdlib Require Import ZArith QArith Qround Qminmax Qpower Lia Lqa List String Bool.
From Stdlib Require Import DecimalString DecimalZ.
From Stdlib Require Import Qabs Qreduction.
From stdpp Require Import base option strings gmap.
Import ListNotations.

Local Open Scope Q_scope.

(** Closes a conjunction of equations that hold by computation or are among
    the hypotheses. *)
Ltac solve_fields := repeat apply conj; first [reflexivity | assumption].

(** ** Numbers: the helpers of the "Utilities" block *)

Module Js.

(** [Math.max] and [Math.min] are [Qmax] and [Qmin]; [Math.floor] is
    [Qfloor]. *)

(** [const clamp = (v, a, b) => Math.max(a, Math.min(b, v));] *)
Definition clamp (v a b : Q) : Q := Qmax a (Qmin b v).

(** [clamp] where all three arguments are integers. *)
Definition clampZ (v a b : Z) : Z := Z.max a (Z.min b v).

(** [x < y] and [x >= y] on numbers. *)
Definition ltb (x y : Q) : bool := negb (Qle_bool y x).
Definition geb (x y : Q) : bool := Qle_bool y x.

(** [!x] on a number: only zero is falsy. *)
Definition falsy (x : Q) : bool := Qeq_bool x 0.

Lemma ltb_lt (x y : Q) : ltb x y = true <-> x < y.
Proof.
  unfold ltb. rewrite negb_true_iff, <- not_true_iff_false, Qle_bool_iff.
  split; [apply Qnot_le_lt | apply Qlt_not_le].
Qed.

Lemma ltb_ge (x y : Q) : ltb x y = false <-> y <= x.
Proof. unfold ltb. rewrite negb_false_iff. apply Qle_bool_iff. Qed.

Lemma geb_le (x y : Q) : geb x y = true <-> y <= x.
Proof. apply Qle_bool_iff. Qed.

Lemma falsy_eq (x : Q) : falsy x = true <-> x == 0.
Proof. apply Qeq_bool_iff. Qed.

(** [Qmax] and [Qmin] return one of their arguments, so results can be
    stated up to Leibniz equality. *)
Lemma max_left (a b : Q) : b <= a -> Qmax a b = a.
Proof.
  intros Hle. unfold Qmax, GenericMinMax.gmax.
  destruct (a ?= b) eqn:E; try reflexivity.
  assert (a < b) by now apply Qlt_alt. lra.
Qed.

Lemma max_right (a b : Q) : a < b -> Qmax a b = b.
Proof.
  intros Hlt. unfold Qmax, GenericMinMax.gmax.
  assert (E : (a ?= b) = Lt) by now apply Qlt_alt.
  now rewrite E.
Qed.

Lemma min_left (a b : Q) : a <= b -> Qmin a b = a.
Proof.
  intros Hle. unfold Qmin, GenericMinMax.gmin.
  destruct (a ?= b) eqn:E; try reflexivity.
  assert (b < a) by now apply Qgt_alt. lra.
Qed.

Lemma min_right (a b : Q) : b < a -> Qmin a b = b.
Proof.
  intros Hlt. unfold Qmin, GenericMinMax.gmin.
  assert (E : (a ?= b) = Gt) by now apply Qgt_alt.
  now rewrite E.
Qed.

Lemma clamp_bounds (v a b : Q) : a <= b -> a <= clamp v a b /\ clamp v a b <= b.
Proof.
  intros Hab. unfold clamp. split.
  - apply Q.le_max_l.
  - apply Q.max_lub; [assumption | apply Q.le_min_l].
Qed.

Lemma clamp_low (v a b : Q) : a <= b -> v <= a -> clamp v a b = a.
Proof.
  intros Hab Hva. unfold clamp.
  destruct (Qlt_le_dec v b) as [Hlt | Hge].
  - rewrite (min_right b v) by assumption. now apply max_left.
  - assert (Hb : b <= a) by lra.
    rewrite (min_left b v) by assumption. now apply max_left.
Qed.

Lemma inject_Z_le (x y : Z) : (x <= y)%Z -> inject_Z x <= inject_Z y.
Proof. intros Hle. now rewrite <- Zle_Qle. Qed.

End Js.

(** ** Binary64: the arithmetic of [calcCost]

    Where a claim is about the number an expression evaluates to, the
    expression is modelled as JavaScript evaluates it, in IEEE 754 binary64:
    every operation rounds its exact result to the nearest double. *)

Module Binary64.

(** A JavaScript number as the IEEE 754 binary64 value it is: a finite
    double by its exact value, written as a reduced fraction, one of the two
    infinities, or NaN. *)
Inductive number : Type :=
| Double (q : Q)
| PosInfinity
| NegInfinity
| NaN.

(** For [x > 0]: the exponent [e] of the binade of [x], [2^e <= x < 2^(e+1)]. *)
Definition ilog2 (x : Q) : Z :=
  let e0 := (Z.log2 (Qnum x) - Z.log2 (Zpos (Qden x)))%Z in
  if Qle_bool (2 ^ e0) x then e0 else (e0 - 1)%Z.

(** The spacing of the doubles around [x > 0]: 53 significant bits in the
    normal range, and [2^-1074] below [2^-1022]. *)
Definition quantum (x : Q) : Q := 2 ^ (Z.max (ilog2 x) (-1022) - 52).

(** The nearest integer, ties to even. *)
Definition nearestInt (y : Q) : Z :=
  let f := Qfloor y in
  match Qcompare (y - inject_Z f) (1 # 2) with
  | Lt => f
  | Gt => (f + 1)%Z
  | Eq => if Z.even f then f else (f + 1)%Z
  end.

(** [x > 0] rounded to 53 bits, with the exponent unbounded above. *)
Definition roundDown (x : Q) : Q := inject_Z (Qfloor (x / quantum x)) * quantum x.
Definition roundUp (x : Q) : Q := inject_Z (Qceiling (x / quantum x)) * quantum x.
Definition roundNearest (x : Q) : Q := inject_Z (nearestInt (x / quantum x)) * quantum x.

Definition huge : Q := 2 ^ 1024.
Definition maxDouble : Q := huge - 2 ^ 971.

(** The double nearest to the real [x] (round to nearest, ties to even:
    the rounding of every arithmetic operation and of a decimal literal). *)
Definition nearest64 (x : Q) : number :=
  match Qcompare x 0 with
  | Eq => Double 0
  | Gt => if Qle_bool huge (roundNearest x) then PosInfinity
          else Double (Qred (roundNearest x))
  | Lt => if Qle_bool huge (roundNearest (- x)) then NegInfinity
          else Double (Qred (- roundNearest (- x)))
  end.

(** For [x > 0]: the doubles next to [x], below and above. *)
Definition down64 (x : Q) : number :=
  if Qle_bool huge (roundDown x) then Double (Qred maxDouble)
  else Double (Qred (roundDown x)).
Definition up64 (x : Q) : number :=
  if Qle_bool huge (roundUp x) then PosInfinity else Double (Qred (roundUp x)).

(** [a * b] *)
Definition mul64 (a b : number) : number :=
  match a, b with
  | NaN, _ | _, NaN => NaN
  | Double x, Double y => nearest64 (x * y)
  | Double x, PosInfinity | PosInfinity, Double x =>
      match Qcompare x 0 with Eq => NaN | Gt => PosInfinity | Lt => NegInfinity end
  | Double x, NegInfinity | NegInfinity, Double x =>
      match Qcompare x 0 with Eq => NaN | Gt => NegInfinity | Lt => PosInfinity end
  | PosInfinity, PosInfinity | NegInfinity, NegInfinity => PosInfinity
  | PosInfinity, NegInfinity | NegInfinity, PosInfinity => NegInfinity
  end.

(** [Math.floor(x)] *)
Definition floor64 (x : number) : number :=
  match x with
  | Double q => Double (inject_Z (Qfloor q))
  | other => other
  end.

(** Whether two numbers are the same double (NaN is no double). *)
Definition number_eqb (a b : number) : bool :=
  match a, b with
  | Double x, Double y => (Qnum x =? Qnum y)%Z && (Qden x =? Qden y)%positive
  | PosInfinity, PosInfinity | NegInfinity, NegInfinity => true
  | _, _ => false
  end.

(** [y] cut to 128 binary places, downwards and upwards: used to enclose
    an exact power between two short fractions. *)
Definition places : positive := 340282366920938463463374607431768211456.
Definition chopDown (y : Q) : Q := Qfloor (y * inject_Z (Zpos places)) # places.
Definition chopUp (y : Q) : Q := Qceiling (y * inject_Z (Zpos places)) # places.


(** The relative spacing of the doubles in the normal range, [2^-52]. *)
Definition epsilon : Q := 1 # 4503599627370496.

(** Order on numbers, NaN apart. *)
Definition leN (a b : number) : Prop :=
  match a, b with
  | Double x, Double y => x <= y
  | Double _, PosInfinity | PosInfinity, PosInfinity => True
  | NegInfinity, (Double _ | PosInfinity | NegInfinity) => True
  | _, _ => False
  end.

Lemma pow2_pos (k : Z) : 0 < 2 ^ k.
Proof. apply Qpower_0_lt. reflexivity. Qed.

Lemma pow2_succ (k : Z) : 2 ^ (k + 1) == 2 * 2 ^ k.
Proof. rewrite Qpower_plus by discriminate. change (2 ^ 1) with 2. ring. Qed.

Lemma pow2_inject (k : Z) : (0 <= k)%Z -> inject_Z (2 ^ k) == 2 ^ k.
Proof. intros Hk. now rewrite Zpower_Qpower. Qed.

Lemma ilog2_spec (x : Q) :
  0 < x -> 2 ^ ilog2 x <= x /\ x < 2 ^ (ilog2 x + 1).
Proof.
  intros Hx. destruct x as [n d].
  assert (Hn : (0 < n)%Z) by (unfold Qlt in Hx; cbn in Hx; lia).
  unfold ilog2. cbn [Qnum Qden].
  set (a := Z.log2 n). set (b := Z.log2 (Zpos d)).
  assert (Ha : (0 <= a)%Z) by apply Z.log2_nonneg.
  assert (Hb : (0 <= b)%Z) by apply Z.log2_nonneg.
  destruct (Z.log2_spec n Hn) as [Ha1 Ha2]. fold a in Ha1, Ha2.
  destruct (Z.log2_spec (Zpos d) eq_refl) as [Hb1 Hb2]. fold b in Hb1, Hb2.
  rewrite <- Z.add_1_r in Ha2, Hb2.
  assert (Qa1 : 2 ^ a <= inject_Z n)
    by (rewrite <- pow2_inject by exact Ha; now rewrite <- Zle_Qle).
  assert (Qa2 : inject_Z n < 2 * 2 ^ a)
    by (rewrite <- pow2_succ, <- pow2_inject by lia; now rewrite <- Zlt_Qlt).
  assert (Qb1 : 2 ^ b <= inject_Z (Zpos d))
    by (rewrite <- pow2_inject by exact Hb; now rewrite <- Zle_Qle).
  assert (Qb2 : inject_Z (Zpos d) < 2 * 2 ^ b)
    by (rewrite <- pow2_succ, <- pow2_inject by lia; now rewrite <- Zlt_Qlt).
  pose proof (pow2_pos a) as Pa. pose proof (pow2_pos b) as Pb.
  assert (Hd : 0 < inject_Z (Zpos d)) by reflexivity.
  assert (Ex : n # d == inject_Z n / inject_Z (Zpos d)) by apply Qmake_Qdiv.
  assert (E0 : 2 ^ (a - b) == 2 ^ a / 2 ^ b) by (apply Qpower_minus; discriminate).
  destruct (Qle_bool (2 ^ (a - b)) (n # d)) eqn:Hc.
  - apply Qle_bool_iff in Hc. split; [exact Hc|].
    rewrite pow2_succ, E0, Ex.
    apply Qlt_shift_div_r; [exact Hd|].
    setoid_replace (2 * (2 ^ a / 2 ^ b) * inject_Z (Z.pos d))
      with ((2 * 2 ^ a) * (inject_Z (Z.pos d) / 2 ^ b)) using relation Qeq
      by (field; lra).
    assert (1 <= inject_Z (Z.pos d) / 2 ^ b)
      by (apply Qle_shift_div_l; [exact Pb | lra]).
    nra.
  - assert (Hlt : n # d < 2 ^ (a - b)).
    { apply Qnot_le_lt. intros Hle. apply Qle_bool_iff in Hle. congruence. }
    replace (a - b - 1 + 1)%Z with (a - b)%Z by lia. split; [|exact Hlt].
    assert (E1 : 2 ^ (a - b) == 2 * 2 ^ (a - b - 1))
      by (rewrite <- pow2_succ; now replace (a - b - 1 + 1)%Z with (a - b)%Z by lia).
    rewrite Ex. apply Qle_shift_div_l; [exact Hd|].
    assert (E2 : 2 ^ (a - b - 1) == 2 ^ a / (2 * 2 ^ b)).
    { apply (Qmult_inj_l _ _ 2); [discriminate|]. rewrite <- E1, E0. field. lra. }
    rewrite E2.
    setoid_replace (2 ^ a / (2 * 2 ^ b) * inject_Z (Z.pos d))
      with (2 ^ a * (inject_Z (Z.pos d) / (2 * 2 ^ b))) using relation Qeq
      by (field; lra).
    assert (inject_Z (Z.pos d) / (2 * 2 ^ b) <= 1)
      by (apply Qle_shift_div_r; lra).
    nra.
Qed.

Lemma quantum_normal (x : Q) :
  1 <= x -> 0 < quantum x /\ quantum x <= x * epsilon.
Proof.
  intros Hx. split; [apply pow2_pos|].
  destruct (ilog2_spec x) as [Hlo Hhi]; [lra|].
  assert (He : (0 <= ilog2 x)%Z).
  { assert (H0 : 2 ^ 0 < 2 ^ (ilog2 x + 1)) by (change (2 ^ 0) with 1; lra).
    apply (Qpower_lt_compat_l_inv 2 0 (ilog2 x + 1)) in H0; [lia | reflexivity]. }
  unfold quantum. rewrite Z.max_l by lia.
  unfold Zminus. rewrite Qpower_plus by discriminate.
  change (2 ^ (-52)) with epsilon.
  apply Qmult_le_compat_r; [exact Hlo | discriminate].
Qed.

Lemma nearestInt_near (y : Q) :
  y - 1 <= inject_Z (nearestInt y) /\ inject_Z (nearestInt y) <= y + 1.
Proof.
  pose proof (Qfloor_le y) as Hlo. pose proof (Qlt_floor y) as Hhi.
  rewrite inject_Z_plus in Hhi. change (inject_Z 1) with 1 in Hhi.
  unfold nearestInt.
  destruct (Qcompare _ _); [destruct (Z.even _)| |];
    rewrite ?inject_Z_plus; change (inject_Z 1) with 1; split; lra.
Qed.

Lemma scaled_within (k y q x lo hi : Q) :
  0 < q -> q <= x * epsilon -> 0 <= lo -> lo <= 1 -> 0 <= hi -> hi <= 1 ->
  y - lo <= k -> k <= y + hi ->
  x - lo * (x * epsilon) <= (k - y) * q + x /\
  (k - y) * q + x <= x + hi * (x * epsilon).
Proof.
  intros Hq Hqe Hlo0 Hlo1 Hhi0 Hhi1 Hk1 Hk2.
  assert (H1 : 0 <= (k - y + lo) * q) by (apply Qmult_le_0_compat; lra).
  assert (H2 : 0 <= (y + hi - k) * q) by (apply Qmult_le_0_compat; lra).
  assert (H3 : 0 <= lo * (x * epsilon - q)) by (apply Qmult_le_0_compat; lra).
  assert (H4 : 0 <= hi * (x * epsilon - q)) by (apply Qmult_le_0_compat; lra).
  split; lra.
Qed.

Section Around.
Variable x : Q.
Hypothesis x_normal : 1 <= x.

Lemma scaled_back (k : Q) :
  k * quantum x == (k - x / quantum x) * quantum x + x.
Proof. destruct (quantum_normal x x_normal). field. lra. Qed.

Lemma roundDown_bounds : x * (1 - epsilon) <= roundDown x /\ roundDown x <= x.
Proof.
  destruct (quantum_normal x x_normal) as [Hq Hqe]. unfold roundDown.
  rewrite scaled_back.
  pose proof (Qfloor_le (x / quantum x)) as Hlo.
  pose proof (Qlt_floor (x / quantum x)) as Hhi.
  rewrite inject_Z_plus in Hhi. change (inject_Z 1) with 1 in Hhi.
  destruct (scaled_within (inject_Z (Qfloor (x / quantum x))) (x / quantum x)
              (quantum x) x 1 0 Hq Hqe); unfold epsilon in *; lra.
Qed.

Lemma roundUp_bounds : x <= roundUp x /\ roundUp x <= x * (1 + epsilon).
Proof.
  destruct (quantum_normal x x_normal) as [Hq Hqe]. unfold roundUp.
  rewrite scaled_back.
  pose proof (Qle_ceiling (x / quantum x)) as Hlo.
  pose proof (Qceiling_lt (x / quantum x)) as Hhi.
  unfold Zminus in Hhi. rewrite inject_Z_plus in Hhi.
  change (inject_Z (- (1))) with (- (1)) in Hhi.
  destruct (scaled_within (inject_Z (Qceiling (x / quantum x))) (x / quantum x)
              (quantum x) x 0 1 Hq Hqe); unfold epsilon in *; lra.
Qed.

Lemma roundNearest_bounds :
  x * (1 - epsilon) <= roundNearest x /\ roundNearest x <= x * (1 + epsilon).
Proof.
  destruct (quantum_normal x x_normal) as [Hq Hqe]. unfold roundNearest.
  rewrite scaled_back.
  destruct (nearestInt_near (x / quantum x)) as [Hlo Hhi].
  destruct (scaled_within (inject_Z (nearestInt (x / quantum x))) (x / quantum x)
              (quantum x) x 1 1 Hq Hqe); unfold epsilon in *; lra.
Qed.

End Around.

Lemma number_eqb_eq (a b : number) : number_eqb a b = true -> a = b.
Proof.
  unfold number_eqb. destruct a as [[n d]| | |], b as [[n' d']| | |];
    try discriminate; try reflexivity.
  cbn [Qnum Qden]. rewrite andb_true_iff, Z.eqb_eq, Pos.eqb_eq.
  now intros [-> ->].
Qed.

Lemma chop_encloses (y : Q) : chopDown y <= y /\ y <= chopUp y.
Proof.
  unfold chopDown, chopUp. rewrite !Qmake_Qdiv.
  assert (Hc : 0 < inject_Z (Zpos places)) by reflexivity.
  split.
  - apply Qle_shift_div_r; [exact Hc | apply Qfloor_le].
  - apply Qle_shift_div_l; [exact Hc | apply Qle_ceiling].
Qed.

Lemma ilog2_mono (x y : Q) : 0 < x -> x <= y -> (ilog2 x <= ilog2 y)%Z.
Proof.
  intros Hx Hxy.
  destruct (ilog2_spec x Hx) as [X1 _].
  destruct (ilog2_spec y) as [_ Y2]; [lra|].
  assert (H : 2 ^ ilog2 x < 2 ^ (ilog2 y + 1)) by lra.
  apply (Qpower_lt_compat_l_inv 2) in H; [lia | reflexivity].
Qed.

(** Within the binade of [x], scaled by the quantum: [2^52 <= x/q < 2^53]
    in the normal range, and [x/q < 2^52] below it. *)
Lemma binade_top (x : Q) :
  0 < x -> x < 2 ^ (Z.max (ilog2 x) (-1022) + 1).
Proof.
  intros Hx. destruct (ilog2_spec x Hx) as [_ H2].
  eapply Qlt_le_trans; [exact H2|].
  apply Qpower_le_compat_l; [lia | discriminate].
Qed.

Lemma quantum_scale (x : Q) (k : Z) :
  2 ^ (Z.max (ilog2 x) (-1022) + k) == 2 ^ (52 + k) * quantum x.
Proof.
  unfold quantum. rewrite <- Qpower_plus by discriminate.
  now replace (52 + k + (Z.max (ilog2 x) (-1022) - 52))%Z
    with (Z.max (ilog2 x) (-1022) + k)%Z by lia.
Qed.

Lemma roundDown_le (x : Q) : roundDown x <= x.
Proof.
  unfold roundDown. pose proof (pow2_pos (Z.max (ilog2 x) (-1022) - 52)) as Hq.
  fold (quantum x) in Hq.
  pose proof (Qfloor_le (x / quantum x)) as H.
  apply (Qmult_le_compat_r _ _ (quantum x)) in H; [|lra].
  assert (E : x / quantum x * quantum x == x) by (field; lra).
  now rewrite E in H.
Qed.

Lemma roundUp_ge (x : Q) : x <= roundUp x.
Proof.
  unfold roundUp. pose proof (pow2_pos (Z.max (ilog2 x) (-1022) - 52)) as Hq.
  fold (quantum x) in Hq.
  pose proof (Qle_ceiling (x / quantum x)) as H.
  apply (Qmult_le_compat_r _ _ (quantum x)) in H; [|lra].
  assert (E : x / quantum x * quantum x == x) by (field; lra).
  now rewrite E in H.
Qed.

Lemma quantum_mono (x y : Q) :
  0 < x -> x <= y ->
  quantum x = quantum y \/
  (Z.max (ilog2 x) (-1022) + 1 <= Z.max (ilog2 y) (-1022))%Z /\
  Z.max (ilog2 y) (-1022) = ilog2 y.
Proof.
  intros Hx Hxy. pose proof (ilog2_mono x y Hx Hxy) as Hm. unfold quantum.
  destruct (Z.eq_dec (Z.max (ilog2 x) (-1022)) (Z.max (ilog2 y) (-1022))) as [-> | Hne];
    [now left | right; lia].
Qed.

Lemma roundDown_mono (x y : Q) :
  0 < x -> x <= y -> roundDown x <= roundDown y.
Proof.
  intros Hx Hxy. pose proof (pow2_pos (Z.max (ilog2 y) (-1022) - 52)) as Hqy.
  fold (quantum y) in Hqy.
  destruct (quantum_mono x y Hx Hxy) as [E | [Hlt Hey]].
  - unfold roundDown. rewrite E.
    apply Qmult_le_compat_r; [|lra].
    rewrite <- Zle_Qle. apply Qfloor_resp_le.
    apply Qmult_le_compat_r; [exact Hxy | apply Qlt_le_weak, Qinv_lt_0_compat, Hqy].
  - (* [x] lies below the binade of [y], whose lower end is a double *)
    apply Qle_trans with (2 ^ Z.max (ilog2 y) (-1022)).
    + apply Qle_trans with x; [apply roundDown_le|].
      apply Qlt_le_weak. eapply Qlt_le_trans; [now apply binade_top|].
      apply Qpower_le_compat_l; [exact Hlt | discriminate].
    + destruct (ilog2_spec y) as [Y1 _]; [lra|]. rewrite Hey in *.
      pose proof (quantum_scale y 0) as Hs. rewrite Hey, Z.add_0_r in Hs.
      unfold roundDown. rewrite Hs.
      apply Qmult_le_compat_r; [|lra].
      change (2 ^ (52 + 0)) with (inject_Z 4503599627370496).
      rewrite <- Zle_Qle. change 4503599627370496%Z with (Qfloor (inject_Z 4503599627370496)).
      apply Qfloor_resp_le. apply Qle_shift_div_l; [exact Hqy|].
      change (inject_Z 4503599627370496) with (2 ^ (52 + 0)). rewrite <- Hs. exact Y1.
Qed.

Lemma roundUp_mono (x y : Q) :
  0 < x -> x <= y -> roundUp x <= roundUp y.
Proof.
  intros Hx Hxy. pose proof (pow2_pos (Z.max (ilog2 x) (-1022) - 52)) as Hqx.
  fold (quantum x) in Hqx.
  destruct (quantum_mono x y Hx Hxy) as [E | [Hlt Hey]].
  - unfold roundUp. rewrite <- E.
    apply Qmult_le_compat_r; [|lra].
    rewrite <- Zle_Qle. apply Qceiling_resp_le.
    apply Qmult_le_compat_r; [exact Hxy | apply Qlt_le_weak, Qinv_lt_0_compat, Hqx].
  - (* the upper end of the binade of [x] is a double not above [y] *)
    apply Qle_trans with (2 ^ (Z.max (ilog2 x) (-1022) + 1)).
    + pose proof (quantum_scale x 1) as Hs.
      unfold roundUp. rewrite Hs.
      apply Qmult_le_compat_r; [|lra].
      change (2 ^ (52 + 1)) with (inject_Z 9007199254740992).
      rewrite <- Zle_Qle. change 9007199254740992%Z with (Qceiling (inject_Z 9007199254740992)).
      apply Qceiling_resp_le. apply Qle_shift_div_r; [exact Hqx|].
      change (inject_Z 9007199254740992) with (2 ^ (52 + 1)). rewrite <- Hs.
      apply Qlt_le_weak. now apply binade_top.
    + apply Qle_trans with y; [|apply roundUp_ge].
      destruct (ilog2_spec y) as [Y1 _]; [lra|]. rewrite Hey in Hlt.
      eapply Qle_trans; [|exact Y1].
      apply Qpower_le_compat_l; [exact Hlt | discriminate].
Qed.

(** A real between two reals that round to the same double rounds to it
    too. *)
Lemma down64_between (lo x hi : Q) :
  0 < lo -> lo <= x -> x <= hi -> roundUp hi < huge ->
  down64 lo = down64 hi -> down64 x = down64 lo.
Proof.
  intros Hlo H1 H2 Hfin. unfold down64.
  assert (Hx : 0 < x) by lra. assert (Hhi : 0 < hi) by lra.
  pose proof (roundDown_mono lo x Hlo H1) as M1.
  pose proof (roundDown_mono x hi Hx H2) as M2.
  pose proof (roundDown_le hi) as D. pose proof (roundUp_ge hi) as U.
  assert (F : forall y, roundDown y <= roundDown hi -> Qle_bool huge (roundDown y) = false).
  { intros y Hy. apply not_true_is_false. rewrite Qle_bool_iff. lra. }
  rewrite (F lo), (F x), (F hi) by lra.
  intros [= E]. f_equal. apply Qred_complete.
  assert (E' : roundDown lo == roundDown hi)
    by (rewrite <- (Qred_correct (roundDown lo)), E; apply Qred_correct).
  lra.
Qed.

Lemma up64_between (lo x hi : Q) :
  0 < lo -> lo <= x -> x <= hi -> roundUp hi < huge ->
  up64 lo = up64 hi -> up64 x = up64 lo.
Proof.
  intros Hlo H1 H2 Hfin. unfold up64.
  assert (Hx : 0 < x) by lra.
  pose proof (roundUp_mono lo x Hlo H1) as M1.
  pose proof (roundUp_mono x hi Hx H2) as M2.
  assert (F : forall y, roundUp y <= roundUp hi -> Qle_bool huge (roundUp y) = false).
  { intros y Hy. apply not_true_is_false. rewrite Qle_bool_iff. lra. }
  rewrite (F lo), (F x), (F hi) by lra.
  intros [= E]. f_equal. apply Qred_complete.
  assert (E' : roundUp lo == roundUp hi)
    by (rewrite <- (Qred_correct (roundUp lo)), E; apply Qred_correct).
  lra.
Qed.


(** *** [Math.pow]

    ECMAScript leaves the accuracy of [Math.pow] to the implementation.
    What is assumed of it here is that on a positive base and an exponent
    that is a natural number it errs by less than one unit in the last
    place: it returns one of the two doubles next to the exact power (the
    power itself when that is a double). *)
Definition faithful (pow : number -> Z -> number) : Prop :=
  forall (m : Q) (l : Z), 0 < m -> (0 <= l)%Z ->
    pow (Double m) l = down64 (m ^ l) \/ pow (Double m) l = up64 (m ^ l).

(** A [Math.pow] that rounds the exact power to the nearest double. *)
Definition roundedPow (m : number) (l : Z) : number :=
  match m with
  | Double q => nearest64 (q ^ l)
  | other => other
  end.

Lemma nearestInt_cases (y : Q) :
  nearestInt y = Qfloor y \/ nearestInt y = Qceiling y.
Proof.
  assert (Hup : inject_Z (Qfloor y) < y -> (Qfloor y + 1)%Z = Qceiling y).
  { intros Hlt. pose proof (Qle_ceiling y) as H1. pose proof (Qceiling_lt y) as H2.
    pose proof (Qlt_floor y) as H3.
    assert (Qfloor y < Qceiling y)%Z by (rewrite Zlt_Qlt; lra).
    assert (Qceiling y - 1 < Qfloor y + 1)%Z by (rewrite Zlt_Qlt; lra).
    lia. }
  unfold nearestInt. destruct (Qcompare _ _) eqn:E.
  - destruct (Z.even _); [now left|]. right. apply Hup.
    apply Qeq_alt in E. lra.
  - now left.
  - right. apply Hup. apply Qgt_alt in E. lra.
Qed.

Lemma roundedPow_faithful : faithful roundedPow.
Proof.
  intros m l Hm Hl. cbn [roundedPow]. unfold nearest64, down64, up64.
  assert (Hx : 0 < m ^ l) by now apply Qpower_0_lt.
  apply Qgt_alt in Hx. rewrite Hx.
  assert (Hq : 0 <= quantum (m ^ l)) by (apply Qlt_le_weak, pow2_pos).
  assert (Hle : roundDown (m ^ l) <= roundUp (m ^ l)).
  { unfold roundDown, roundUp. apply Qmult_le_compat_r; [|exact Hq].
    apply Qle_floor_ceiling. }
  unfold roundNearest.
  destruct (nearestInt_cases (m ^ l / quantum (m ^ l))) as [-> | ->].
  - fold (roundDown (m ^ l)).
    destruct (Qle_bool huge (roundDown (m ^ l))) eqn:E; [|now left].
    right. fold (roundUp (m ^ l)).
    apply Qle_bool_iff in E.
    assert (E' : Qle_bool huge (roundUp (m ^ l)) = true)
      by (apply Qle_bool_iff; lra).
    now rewrite E'.
  - fold (roundUp (m ^ l)). now right.
Qed.

Lemma huge_pos : 0 < huge.
Proof. apply pow2_pos. Qed.

Lemma huge_doubled : huge <= 2 * maxDouble * (1 - epsilon).
Proof. unfold Qle. vm_compute. discriminate. Qed.

(** What a faithful [pow] returns on a base of at least 1. *)
Lemma faithful_at (pow : number -> Z -> number) (m : Q) (l : Z) :
  faithful pow -> 1 <= m -> (0 <= l)%Z ->
  (pow (Double m) l = PosInfinity /\ huge <= m ^ l * (1 + epsilon)) \/
  (exists p, pow (Double m) l = Double p /\
     ((m ^ l * (1 - epsilon) <= p /\ p <= m ^ l * (1 + epsilon)) \/
      (huge <= m ^ l /\ p == maxDouble))).
Proof.
  intros Hpow Hm Hl.
  assert (Hx : 1 <= m ^ l) by now apply Qpower_1_le.
  destruct (roundDown_bounds _ Hx) as [D1 D2].
  destruct (roundUp_bounds _ Hx) as [U1 U2].
  assert (He : 0 < epsilon) by reflexivity.
  destruct (Hpow m l) as [-> | ->]; [lra | exact Hl | |].
  - right. unfold down64. destruct (Qle_bool huge _) eqn:E.
    + apply Qle_bool_iff in E. eexists. split; [reflexivity|]. right.
      split; [lra | apply Qred_correct].
    + eexists. split; [reflexivity|]. left. rewrite Qred_correct.
      split; [exact D1 | nra].
  - unfold up64. destruct (Qle_bool huge _) eqn:E.
    + apply Qle_bool_iff in E. left. split; [reflexivity | lra].
    + right. eexists. split; [reflexivity|]. left. rewrite Qred_correct.
      split; [nra | exact U2].
Qed.

(** The product of two finite doubles whose exact product is at least 1. *)
Lemma mul64_at (b p : Q) :
  1 <= b * p ->
  (mul64 (Double b) (Double p) = PosInfinity /\ huge <= b * p * (1 + epsilon)) \/
  (exists v, mul64 (Double b) (Double p) = Double v /\ v < huge /\
     b * p * (1 - epsilon) <= v /\ v <= b * p * (1 + epsilon)).
Proof.
  intros Hx. cbn [mul64]. unfold nearest64.
  assert (Hgt : 0 < b * p) by lra. apply Qgt_alt in Hgt. rewrite Hgt.
  destruct (roundNearest_bounds _ Hx) as [N1 N2].
  destruct (Qle_bool huge _) eqn:E.
  - apply Qle_bool_iff in E. left. split; [reflexivity | lra].
  - right. eexists. split; [reflexivity|]. rewrite Qred_correct.
    split; [|split; assumption].
    apply Qnot_le_lt. intros Hle. apply Qle_bool_iff in Hle. congruence.
Qed.


Lemma growth_beats_rounding :
  (1 + epsilon) * (1 + epsilon) <= (114 # 100) * ((1 - epsilon) * (1 - epsilon)).
Proof. unfold Qle. vm_compute. discriminate. Qed.

Lemma maxDouble_large : 1 <= maxDouble.
Proof. unfold Qle. vm_compute. discriminate. Qed.

(** [b * pow(m, l)] for a faithful [pow], [b >= 2] and [m >= 1]: it is
    [Infinity], or finite, below [2^1024] and within two roundings of the
    exact product. *)
Lemma scaled_power_at (pow : number -> Z -> number) (b m : Q) (l : Z) :
  faithful pow -> 2 <= b -> 1 <= m -> (0 <= l)%Z ->
  (mul64 (Double b) (pow (Double m) l) = PosInfinity /\
   huge <= b * m ^ l * ((1 + epsilon) * (1 + epsilon))) \/
  (exists v, mul64 (Double b) (pow (Double m) l) = Double v /\ v < huge /\
     b * m ^ l * ((1 - epsilon) * (1 - epsilon)) <= v /\
     v <= b * m ^ l * ((1 + epsilon) * (1 + epsilon))).
Proof.
  intros Hpow Hb Hm Hl.
  assert (Hx : 1 <= m ^ l) by now apply Qpower_1_le.
  pose proof huge_pos as Hh. pose proof huge_doubled as Hd.
  pose proof maxDouble_large as Hmax.
  assert (He : 0 < epsilon /\ epsilon <= 1 # 2) by (split; [reflexivity | discriminate]).
  set (x := m ^ l) in *. set (e := epsilon) in *.
  assert (Hbx : 2 <= b * x) by nra.
  destruct (faithful_at pow m l Hpow Hm Hl) as [[-> Hinf] | (p & -> & Hp)];
    fold x e in Hinf || fold x e in Hp.
  - left. cbn [mul64]. assert (Hbp : 0 < b) by lra.
    apply Qgt_alt in Hbp. rewrite Hbp. split; [reflexivity|].
    assert (huge * 2 <= b * (x * (1 + e))) by nra.
    assert (0 <= b * x * (1 + e) * e) by (repeat apply Qmult_le_0_compat; lra).
    lra.
  - destruct Hp as [[P1 P2] | [P1 P2]].
    + assert (Hbp1 : b * (x * (1 - e)) <= b * p) by nra.
      assert (Hbp2 : b * p <= b * (x * (1 + e))) by nra.
      assert (Hone : 1 <= b * p) by nra.
      destruct (mul64_at b p Hone) as [[-> Hinf] | (v & -> & Hv & V1 & V2)];
        fold e in Hinf || fold e in V1, V2.
      * left. split; [reflexivity|]. nra.
      * right. exists v. split; [reflexivity|]. split; [exact Hv|]. split; nra.
    + assert (Hone : 1 <= b * p) by (rewrite P2; nra).
      destruct (mul64_at b p Hone) as [[-> Hinf] | (v & -> & Hv & V1 & V2)];
        fold e in Hinf || fold e in V1, V2.
      * left. split; [reflexivity|].
        assert (0 <= b * x * (2 * e + e * e)) by (repeat apply Qmult_le_0_compat; nra).
        nra.
      * exfalso. rewrite P2 in V1.
        assert (2 * maxDouble * (1 - e) <= b * maxDouble * (1 - e)) by nra.
        lra.
Qed.

(** [floor(b * pow(m, L))] does not decrease with [L], for every faithful
    [pow], when [b] is at least 2 and [m] at least 1.14: the growth of the
    power outweighs the rounding of [pow] and of the product, and a cost
    that has overflowed to [Infinity] stays there. *)
Lemma scaled_power_mono (pow : number -> Z -> number) (b m : Q) (L : Z) :
  faithful pow -> 2 <= b -> (114 # 100) <= m -> (0 <= L)%Z ->
  leN (floor64 (mul64 (Double b) (pow (Double m) L)))
      (floor64 (mul64 (Double b) (pow (Double m) (L + 1)%Z))).
Proof.
  intros Hpow Hb Hm HL.
  assert (Hm1 : 1 <= m) by lra.
  assert (Hx : 1 <= m ^ L) by now apply Qpower_1_le.
  assert (Hs : m ^ (L + 1) == m ^ L * m)
    by (rewrite Qpower_plus by lra; now rewrite Qpower_1_r).
  pose proof huge_pos as Hh.
  pose proof growth_beats_rounding as Hg.
  destruct (scaled_power_at pow b m L Hpow Hb Hm1 HL)
    as [[-> Hinf] | (v & -> & Hv & V1 & V2)];
    destruct (scaled_power_at pow b m (L + 1) Hpow Hb Hm1 ltac:(lia))
      as [[-> Hinf'] | (v' & -> & Hv' & V1' & V2')]; cbn [floor64 leN]; try exact I.
  all: rewrite Hs in *.
  all: set (x := m ^ L) in *; set (e := epsilon) in *.
  all: assert (Hbx : 0 <= b * x) by nra.
  all: assert (Hsq : 0 <= (1 - e) * (1 - e)) by nra.
  all: assert (Hgrow : b * x * ((1 + e) * (1 + e)) <=
                       b * (x * m) * ((1 - e) * (1 - e))).
  all: try (assert (A1 : b * x * ((1 + e) * (1 + e)) <=
                    b * x * ((114 # 100) * ((1 - e) * (1 - e)))) by nra;
            assert (A2 : b * x * (114 # 100) <= b * x * m) by nra;
            assert (A3 : b * x * (114 # 100) * ((1 - e) * (1 - e)) <=
                         b * x * m * ((1 - e) * (1 - e)))
              by (apply Qmult_le_compat_r; assumption);
            lra).
  (* Infinity at L and a finite product at L+1 are excluded by [Hgrow];
     what is left are two finite products *)
  rewrite <- Zle_Qle. apply Qfloor_resp_le. lra.
Qed.

Lemma leN_trans (a b c : number) : leN a b -> leN b c -> leN a c.
Proof.
  destruct a, b, c; cbn; try tauto. apply Qle_trans.
Qed.

Lemma leN_refl_at (pow : number -> Z -> number) (b m : Q) (l : Z) :
  faithful pow -> 2 <= b -> 1 <= m -> (0 <= l)%Z ->
  leN (floor64 (mul64 (Double b) (pow (Double m) l)))
      (floor64 (mul64 (Double b) (pow (Double m) l))).
Proof.
  intros Hpow Hb Hm Hl.
  destruct (scaled_power_at pow b m l Hpow Hb Hm Hl) as [[-> _] | (v & -> & _)];
    cbn; [exact I | apply Qle_refl].
Qed.

Lemma scaled_power_mono_le (pow : number -> Z -> number) (b m : Q) (L L' : Z) :
  faithful pow -> 2 <= b -> (114 # 100) <= m -> (0 <= L <= L')%Z ->
  leN (floor64 (mul64 (Double b) (pow (Double m) L)))
      (floor64 (mul64 (Double b) (pow (Double m) L'))).
Proof.
  intros Hpow Hb Hm [HL HLL].
  replace L' with (L + Z.of_nat (Z.to_nat (L' - L)))%Z by lia.
  induction (Z.to_nat (L' - L)) as [|n IH].
  - rewrite Z.add_0_r. apply leN_refl_at; [assumption | assumption | lra | assumption].
  - eapply leN_trans; [exact IH|].
    replace (L + Z.of_nat (S n))%Z with (L + Z.of_nat n + 1)%Z by lia.
    apply scaled_power_mono; [assumption | assumption | assumption | lia].
Qed.

End Binary64.

(** ** The persistent store: [const store = { get, set }] (lines 19-31) *)

Module Store.

(** How a JavaScript expression completes: with a value, or by throwing. *)
Inductive completion (A : Type) : Type :=
| Normal (a : A)
| Throw.
Arguments Normal {A} a.
Arguments Throw {A}.

(** Sequencing: a throwing step ends the sequence. *)
#[global] Instance completion_bind : MBind completion :=
  fun A B (k : A -> completion B) (c : completion A) =>
    match c with
    | Normal a => k a
    | Throw => Throw
    end.

(** [try { body } catch { handler }] *)
Definition try_catch {A : Type} (body handler : completion A) : completion A :=
  match body with
  | Normal a => Normal a
  | Throw => handler
  end.

(** [localStorage], as far as the two calls of [store] can tell: whether
    the page may use it at all ([enabled]: reading the [localStorage]
    property throws otherwise), how many characters it holds at most
    ([quota]), and the key/text pairs. *)
Record localStorage : Type := mkStorage {
  enabled : bool;
  quota : nat;
  items : gmap string string
}.

Definition used (m : gmap string string) : nat :=
  map_fold (fun k v n => (String.length k + String.length v + n)%nat) 0%nat m.

(** [localStorage.getItem(key)]: the text, or [null] ([None]). *)
Definition getItem (ls : localStorage) (key : string) : completion (option string) :=
  if enabled ls then Normal (items ls !! key) else Throw.

(** [localStorage.setItem(key, text)]: throws when the storage is disabled
    or the quota would be exceeded, and then stores nothing. *)
Definition setItem (ls : localStorage) (key text : string) : completion localStorage :=
  if enabled ls then
    let m := <[key := text]> (items ls) in
    if (used m <=? quota ls)%nat
    then Normal (mkStorage (enabled ls) (quota ls) m)
    else Throw
  else Throw.

(** [JSON.stringify] and [JSON.parse] on a type [V] of serializable
    values.  They belong to the platform; the store relies on them reading
    back what they wrote, and on the empty text being no JSON text. *)
Class JsonCodec (V : Type) : Type := {
  stringify : V -> string;
  parse : string -> completion V;
  parse_stringify : forall v : V, parse (stringify v) = Normal v;
  parse_empty : parse EmptyString = Throw
}.

(** A string is truthy unless it is empty (the test [raw ? ... : ...]). *)
Definition truthy (raw : option string) : bool :=
  match raw with
  | Some (String _ _) => true
  | Some EmptyString | None => false
  end.

Section Wrapper.
Context {V : Type} `{JsonCodec V}.

(** [[
    get(key, fallback) {
      try {
        const raw = localStorage.getItem(key);
        return raw ? JSON.parse(raw) : fallback;
      } catch { return fallback; }
    }
    ]] *)
Definition get (ls : localStorage) (key : string) (fallback : V) : completion V :=
  try_catch
    (raw ← getItem ls key;
     if truthy raw then parse (default EmptyString raw) else Normal fallback)
    (Normal fallback).

(** [[
    set(key, value) {
      try { localStorage.setItem(key, JSON.stringify(value)); } catch {}
    }
    ]]
    The result is the storage after the call. *)
Definition set (ls : localStorage) (key : string) (value : V) : completion localStorage :=
  try_catch (setItem ls key (stringify value)) (Normal ls).

Lemma stringify_nonempty (v : V) : truthy (Some (stringify v)) = true.
Proof.
  destruct (stringify v) eqn:E; [|reflexivity].
  pose proof (parse_stringify v) as P. rewrite E, parse_empty in P. discriminate.
Qed.

Lemma get_total (ls : localStorage) (key : string) (fallback : V) :
  exists r, get ls key fallback = Normal r.
Proof.
  unfold get, getItem. destruct (enabled ls); cbn; [|eauto].
  destruct (truthy _); cbn; [|eauto].
  destruct (parse _); cbn; eauto.
Qed.

Lemma get_missing (ls : localStorage) (key : string) (fallback : V) :
  items ls !! key = None -> get ls key fallback = Normal fallback.
Proof.
  intros Hk. unfold get, getItem. destruct (enabled ls); cbn; [|reflexivity].
  now rewrite Hk.
Qed.

Lemma get_unparsable (ls : localStorage) (key raw : string) (fallback : V) :
  items ls !! key = Some raw -> parse raw = Throw ->
  get ls key fallback = Normal fallback.
Proof.
  intros Hk Hp. unfold get, getItem. destruct (enabled ls); cbn; [|reflexivity].
  rewrite Hk. cbn. destruct raw; cbn; [reflexivity|]. now rewrite Hp.
Qed.

Lemma get_unavailable (ls : localStorage) (key : string) (fallback : V) :
  enabled ls = false -> get ls key fallback = Normal fallback.
Proof. intros Hd. unfold get, getItem. now rewrite Hd. Qed.

Lemma set_total (ls : localStorage) (key : string) (value : V) :
  exists ls', set ls key value = Normal ls'.
Proof. unfold set. destruct (setItem _ _ _); cbn; eauto. Qed.

Lemma set_failed (ls : localStorage) (key : string) (value : V) :
  setItem ls key (stringify value) = Throw -> set ls key value = Normal ls.
Proof. intros Hw. unfold set. now rewrite Hw. Qed.

Lemma setItem_stored (ls ls' : localStorage) (key text : string) :
  setItem ls key text = Normal ls' ->
  enabled ls' = true /\ items ls' !! key = Some text.
Proof.
  unfold setItem. destruct (enabled ls) eqn:He; [|discriminate].
  destruct (_ <=? _)%nat; [|discriminate].
  intros [= <-]. cbn. split; [done | apply lookup_insert_eq].
Qed.

Lemma get_stored (ls : localStorage) (key : string) (fallback value : V) :
  enabled ls = true -> items ls !! key = Some (stringify value) ->
  get ls key fallback = Normal value.
Proof.
  intros He Hk. unfold get, getItem. rewrite He. cbn. rewrite Hk.
  rewrite stringify_nonempty. cbn. now rewrite parse_stringify.
Qed.

(** A write that goes through is what [set] leaves and what [get] reads. *)
Lemma store_write_read (ls : localStorage) (k : string) (f v : V)
    (ls' : localStorage) :
  setItem ls k (stringify v) = Normal ls' ->
  set ls k v = Normal ls' /\ get ls' k f = Normal v.
Proof.
  intros Hw. split.
  - unfold set. now rewrite Hw.
  - destruct (setItem_stored _ _ _ _ Hw) as [He Hk]. now apply get_stored.
Qed.

End Wrapper.

(** *** A codec for the scalars the games persist

    [null], the booleans and the integers (the bests of BYTE RUNNER and
    GLITCH REACT are integers), written as [JSON.stringify] writes them:
    integers in decimal without leading zeros.  [scalar_parse] reads
    exactly these texts and throws on every other one. *)

Inductive scalar : Type :=
| JNull
| JBool (b : bool)
| JInt (z : Z).

Definition scalar_stringify (v : scalar) : string :=
  match v with
  | JNull => "null"
  | JBool true => "true"
  | JBool false => "false"
  | JInt z => NilZero.string_of_int (Z.to_int z)
  end.

Definition scalar_parse (text : string) : completion scalar :=
  if String.eqb text "null" then Normal JNull
  else if String.eqb text "true" then Normal (JBool true)
  else if String.eqb text "false" then Normal (JBool false)
  else match NilZero.int_of_string text with
       | Some d =>
           if String.eqb (NilZero.string_of_int (Z.to_int (Z.of_int d))) text
           then Normal (JInt (Z.of_int d))
           else Throw
       | None => Throw
       end.

Lemma int_text_not_keyword (d : Decimal.signed_int) (kw : string) :
  In kw ["null"; "true"; "false"]%string ->
  String.eqb (NilZero.string_of_int d) kw = false.
Proof.
  intros Hkw. apply String.eqb_neq. intros E.
  destruct d as [[] | []]; cbn in E;
    repeat (destruct Hkw as [<- | Hkw]; [discriminate E|]); destruct Hkw.
Qed.

Lemma to_int_not_nil (z : Z) :
  Z.to_int z <> Decimal.Pos Decimal.Nil /\ Z.to_int z <> Decimal.Neg Decimal.Nil.
Proof.
  pose proof (DecimalZ.of_to z) as Hz.
  destruct z as [|p|p]; cbn; split; try discriminate.
  - intros [= E]. pose proof (DecimalPos.Unsigned.of_to p) as Hp.
    rewrite E in Hp. discriminate.
  - intros [= E]. pose proof (DecimalPos.Unsigned.of_to p) as Hp.
    rewrite E in Hp. discriminate.
Qed.

Lemma scalar_parse_stringify (v : scalar) :
  scalar_parse (scalar_stringify v) = Normal v.
Proof.
  destruct v as [|[]|z]; try reflexivity.
  unfold scalar_parse, scalar_stringify.
  rewrite !int_text_not_keyword by (cbn; tauto).
  destruct (to_int_not_nil z) as [Hp Hn].
  rewrite (NilZero.isi _ Hp Hn), DecimalZ.of_to, String.eqb_refl.
  reflexivity.
Qed.

#[global] Instance scalar_codec : JsonCodec scalar := {
  stringify := scalar_stringify;
  parse := scalar_parse;
  parse_stringify := scalar_parse_stringify;
  parse_empty := eq_refl
}.

(** A storage with room for a few short entries, one the page may not
    use, and one that is full. *)
Definition small_storage : localStorage := mkStorage true 64 ∅.
Definition disabled_storage : localStorage := mkStorage false 64 ∅.
Definition full_storage : localStorage := mkStorage true 0 ∅.

(** *** The contract of [store] *)

(** C3.  For every key [k], fallback [f] and serializable value [v]:
    [store.get(k, f)] never throws, and returns [f] when the key is
    missing, when the stored text does not parse, and when the storage is
    unavailable; [store.set(k, v)] never throws and leaves the storage as it
    was when the write fails; and after a [store.set(k, v)] whose write went
    through, [store.get(k, f)] returns [v]. *)
Theorem store_get_set_contract {V : Type} `{JsonCodec V}
    (ls : localStorage) (k : string) (f v : V) :
  (exists r, get ls k f = Normal r) /\
  (items ls !! k = None -> get ls k f = Normal f) /\
  (forall raw, items ls !! k = Some raw -> parse raw = Throw ->
     get ls k f = Normal f) /\
  (enabled ls = false -> get ls k f = Normal f) /\
  (exists ls', set ls k v = Normal ls') /\
  (setItem ls k (stringify v) = Throw -> set ls k v = Normal ls) /\
  (forall ls', setItem ls k (stringify v) = Normal ls' ->
     set ls k v = Normal ls' /\ get ls' k f = Normal v).
Proof.
  split; [apply get_total|].
  split; [apply get_missing|].
  split; [intros raw; apply get_unparsable|].
  split; [apply get_unavailable|].
  split; [apply set_total|].
  split; [apply set_failed|].
  intros ls' Hw. split.
  - unfold set. now rewrite Hw.
  - destruct (setItem_stored _ _ _ _ Hw) as [He Hk]. now apply get_stored.
Qed.

(** The contract at the key of BYTE RUNNER: nothing stored yet reads as the
    fallback [0]; a disabled storage reads as the fallback and ignores the
    write, as does a full one; and [42], once written, is read back. *)
Lemma store_get_set_contract_witness :
  get small_storage "px_best_runner" (JInt 0) = Normal (JInt 0) /\
  get disabled_storage "px_best_runner" (JInt 0) = Normal (JInt 0) /\
  set disabled_storage "px_best_runner" (JInt 42) = Normal disabled_storage /\
  set full_storage "px_best_runner" (JInt 42) = Normal full_storage /\
  (ls' ← set small_storage "px_best_runner" (JInt 42);
   get ls' "px_best_runner" (JInt 0)) = Normal (JInt 42).
Proof.
  pose proof (store_get_set_contract small_storage "px_best_runner"
                (JInt 0) (JInt 42)) as (_ & Hmiss & _ & _ & _ & _ & Hback).
  pose proof (store_get_set_contract disabled_storage "px_best_runner"
                (JInt 0) (JInt 42)) as (_ & _ & _ & Hoff & _ & Hfail & _).
  pose proof (store_get_set_contract full_storage "px_best_runner"
                (JInt 0) (JInt 42)) as (_ & _ & _ & _ & _ & Hfull & _).
  split; [apply Hmiss; reflexivity|].
  split; [apply Hoff; reflexivity|].
  split; [apply Hfail; reflexivity|].
  split; [apply Hfull; vm_compute; reflexivity|].
  destruct (Hback _ eq_refl) as [Hset Hget].
  rewrite Hset. exact Hget.
Defined.

End Store.

(** ** GAME 1: BYTE RUNNER ([createByteRunner], lines 161-493) *)

Module Runner.

Definition KEY : string := "px_best_runner".

(** [const W = 360; const H = 480; const lanes = 3;] *)
Definition W : Q := 360.
Definition H : Q := 480.
Definition lanes : Z := 3.

(** [const laneX = (i) => (W * (0.2 + i * 0.3));] *)
Definition laneX (i : Z) : Q := W * (0.2 + inject_Z i * 0.3).

(** [let speedGain = 10;] is never assigned again. *)
Definition speedGain : Q := 10.

(** An entry of [obstacles]: [{lane, y, h}]. *)
Record obstacle : Type := mkObstacle {
  lane : Z;
  y : Q;
  h : Q
}.

Definition set_y (v : Q) (o : obstacle) : obstacle := mkObstacle (lane o) v (h o).

(** What [draw] lays over the play field. *)
Inductive overlay : Type :=
| NoOverlay
| GameOverOverlay
| PausedOverlay.

(** The calls that leave the engine. [Painted] is one run of [draw] on a
    canvas, with the score and best it prints and the overlay it adds. *)
Inductive effect : Type :=
| Painted (scoreShown bestShown : Z) (ov : overlay)
| StoreSet (key : string) (value : Z)
| RequestFrame
| CancelFrame.

(** The closure variables. [ctx] is whether a canvas context is held
    (set by [mount], dropped by [unmount]). *)
Record state : Type := mkState {
  best : Z;
  ctx : bool;
  running : bool;
  paused : bool;
  alive : bool;
  playerLane : Z;
  lastT : Q;
  tAcc : Q;
  speed : Q;
  score : Q;
  distance : Q;
  obstacles : list obstacle;
  spawnTimer : Q;
  spawnEvery : Q;
  out : list effect
}.

Definition set_best (v : Z) (s : state) : state :=
  mkState v (ctx s) (running s) (paused s) (alive s) (playerLane s) (lastT s) (tAcc s) (speed s) (score s) (distance s) (obstacles s) (spawnTimer s) (spawnEvery s) (out s).
Definition set_ctx (v : bool) (s : state) : state :=
  mkState (best s) v (running s) (paused s) (alive s) (playerLane s) (lastT s) (tAcc s) (speed s) (score s) (distance s) (obstacles s) (spawnTimer s) (spawnEvery s) (out s).
Definition set_running (v : bool) (s : state) : state :=
  mkState (best s) (ctx s) v (paused s) (alive s) (playerLane s) (lastT s) (tAcc s) (speed s) (score s) (distance s) (obstacles s) (spawnTimer s) (spawnEvery s) (out s).
Definition set_paused (v : bool) (s : state) : state :=
  mkState (best s) (ctx s) (running s) v (alive s) (playerLane s) (lastT s) (tAcc s) (speed s) (score s) (distance s) (obstacles s) (spawnTimer s) (spawnEvery s) (out s).
Definition set_alive (v : bool) (s : state) : state :=
  mkState (best s) (ctx s) (running s) (paused s) v (playerLane s) (lastT s) (tAcc s) (speed s) (score s) (distance s) (obstacles s) (spawnTimer s) (spawnEvery s) (out s).
Definition set_playerLane (v : Z) (s : state) : state :=
  mkState (best s) (ctx s) (running s) (paused s) (alive s) v (lastT s) (tAcc s) (speed s) (score s) (distance s) (obstacles s) (spawnTimer s) (spawnEvery s) (out s).
Definition set_lastT (v : Q) (s : state) : state :=
  mkState (best s) (ctx s) (running s) (paused s) (alive s) (playerLane s) v (tAcc s) (speed s) (score s) (distance s) (obstacles s) (spawnTimer s) (spawnEvery s) (out s).
Definition set_tAcc (v : Q) (s : state) : state :=
  mkState (best s) (ctx s) (running s) (paused s) (alive s) (playerLane s) (lastT s) v (speed s) (score s) (distance s) (obstacles s) (spawnTimer s) (spawnEvery s) (out s).
Definition set_speed (v : Q) (s : state) : state :=
  mkState (best s) (ctx s) (running s) (paused s) (alive s) (playerLane s) (lastT s) (tAcc s) v (score s) (distance s) (obstacles s) (spawnTimer s) (spawnEvery s) (out s).
Definition set_score (v : Q) (s : state) : state :=
  mkState (best s) (ctx s) (running s) (paused s) (alive s) (playerLane s) (lastT s) (tAcc s) (speed s) v (distance s) (obstacles s) (spawnTimer s) (spawnEvery s) (out s).
Definition set_distance (v : Q) (s : state) : state :=
  mkState (best s) (ctx s) (running s) (paused s) (alive s) (playerLane s) (lastT s) (tAcc s) (speed s) (score s) v (obstacles s) (spawnTimer s) (spawnEvery s) (out s).
Definition set_obstacles (v : list obstacle) (s : state) : state :=
  mkState (best s) (ctx s) (running s) (paused s) (alive s) (playerLane s) (lastT s) (tAcc s) (speed s) (score s) (distance s) v (spawnTimer s) (spawnEvery s) (out s).
Definition set_spawnTimer (v : Q) (s : state) : state :=
  mkState (best s) (ctx s) (running s) (paused s) (alive s) (playerLane s) (lastT s) (tAcc s) (speed s) (score s) (distance s) (obstacles s) v (spawnEvery s) (out s).
Definition set_spawnEvery (v : Q) (s : state) : state :=
  mkState (best s) (ctx s) (running s) (paused s) (alive s) (playerLane s) (lastT s) (tAcc s) (speed s) (score s) (distance s) (obstacles s) (spawnTimer s) v (out s).
Definition set_out (v : list effect) (s : state) : state :=
  mkState (best s) (ctx s) (running s) (paused s) (alive s) (playerLane s) (lastT s) (tAcc s) (speed s) (score s) (distance s) (obstacles s) (spawnTimer s) (spawnEvery s) v.

Definition emit (e : effect) (s : state) : state := set_out (e :: out s) s.

(** The engine as [createByteRunner] leaves it, [best0] being what
    [store.get(KEY, 0)] returned. *)
Definition init (best0 : Z) : state :=
  mkState best0 false false false true 1 0 0 110 0 0 [] 0 0.85 [].

(** The values [Math.random()] returns during one [update], in call order:
    lane and height of the obstacle, the coin for a second one, and its lane
    and height. *)
Record rand : Type := mkRand {
  rLane1 : Q;
  rH1 : Q;
  rCoin : Q;
  rLane2 : Q;
  rH2 : Q
}.

(** [draw(dt)] (lines 286-361): without a context it returns at once;
    otherwise it paints the field, the score and best, and the overlay of
    the status. *)
Definition draw (dt : Q) (s : state) : state :=
  if negb (ctx s) then s
  else
    let ov := if negb (alive s) then GameOverOverlay
              else if paused s then PausedOverlay
              else NoOverlay in
    emit (Painted (Qfloor (score s)) (best s) ov) s.

(** [reset()] (lines 196-215) *)
Definition reset (s : state) : state :=
  let s := set_running true s in
  let s := set_paused false s in
  let s := set_alive true s in
  let s := set_playerLane 1 s in
  let s := set_lastT 0 s in
  let s := set_tAcc 0 s in
  let s := set_speed 110 s in
  let s := set_score 0 s in
  let s := set_distance 0 s in
  let s := set_obstacles [] s in
  let s := set_spawnTimer 0 s in
  let s := set_spawnEvery 0.85 s in
  draw 0 s.

(** [togglePause()] (lines 217-221); the returned flag is not modelled. *)
Definition togglePause (s : state) : state :=
  if negb (running s) then s else set_paused (negb (paused s)) s.

(** [stop()] (lines 223-228) *)
Definition stop (s : state) : state :=
  let s := set_running false s in
  let s := set_paused false s in
  emit CancelFrame s.

(** [spawnObstacle()] (lines 230-234), on the two values of
    [Math.random()]. *)
Definition spawnObstacle (rLane rH : Q) (s : state) : state :=
  let lane := Qfloor (rLane * inject_Z lanes) in
  let h := 18 + inject_Z (Qfloor (rH * 18)) in
  set_obstacles (obstacles s ++ [mkObstacle lane (- h) h]) s.

(** [rectsOverlap] (lines 236-238) *)
Definition rectsOverlap (ax ay aw ah bx by_ bw bh : Q) : bool :=
  Js.ltb ax (bx + bw) && Js.ltb bx (ax + aw) &&
  Js.ltb ay (by_ + bh) && Js.ltb by_ (ay + ah).

(** The first part of [update] (lines 243-264): difficulty ramp, scoring,
    spawning, moving and culling. *)
Definition simulate (dt : Q) (r : rand) (s : state) : state :=
  let s := set_distance (distance s + speed s * dt) s in
  let s := set_speed (speed s + speedGain * dt) s in
  let s := set_spawnEvery (Js.clamp (0.85 - distance s / 80000) 0.35 0.85) s in
  let s := set_score (score s + (12 + speed s * 0.05) * dt) s in
  let s := set_spawnTimer (spawnTimer s + dt) s in
  let s :=
    if Js.geb (spawnTimer s) (spawnEvery s) then
      let s := set_spawnTimer 0 s in
      let s := spawnObstacle (rLane1 r) (rH1 r) s in
      if Js.ltb (rCoin r) 0.10 && Js.ltb 2000 (distance s)
      then spawnObstacle (rLane2 r) (rH2 r) s
      else s
    else s in
  let s := set_obstacles
             (map (fun o => set_y (y o + speed s * dt) o) (obstacles s)) s in
  set_obstacles (List.filter (fun o => Js.ltb (y o) (H + 60)) (obstacles s)) s.

(** The test of the collision loop (lines 267-277): the player's box
    against the box of obstacle [o]. *)
Definition hits (s : state) (o : obstacle) : bool :=
  let px := laneX (playerLane s) - 14 in
  let py := H - 70 in
  let pw := 28 in
  let ph := 28 in
  let ox := laneX (lane o) - 18 in
  let oy := y o in
  let ow := 36 in
  let oh := h o in
  rectsOverlap px py pw ph ox oy ow oh.

(** The body of the [if] (lines 278-280). *)
Definition gameOver (s : state) : state :=
  let s := set_alive false s in
  let s := set_best (Z.max (best s) (Qfloor (score s))) s in
  emit (StoreSet KEY (best s)) s.

(** [for (const o of obstacles) { if (...) { ...; break; } }] *)
Fixpoint collide (os : list obstacle) (s : state) : state :=
  match os with
  | [] => s
  | o :: rest => if hits s o then gameOver s else collide rest s
  end.

(** [update(dt)] (lines 240-284) *)
Definition update (dt : Q) (r : rand) (s : state) : state :=
  if negb (alive s) then s
  else
    let s := simulate dt r s in
    collide (obstacles s) s.

(** The time step of a frame (lines 370-371):
    [if (!lastT) lastT = t; const dt = Math.min(0.05, (t - lastT) / 1000);] *)
Definition frame_dt (t : Q) (s : state) : Q :=
  let last := if Js.falsy (lastT s) then t else lastT s in
  Qmin 0.05 ((t - last) / 1000).

(** [loop(t)] (lines 363-378) *)
Definition loop (t : Q) (r : rand) (s : state) : state :=
  if negb (running s) then draw 0 s
  else
    let s := emit RequestFrame s in
    let dt := frame_dt t s in
    let s := set_lastT t s in
    let s := if negb (paused s) && alive s then update dt r s else s in
    draw dt s.

(** [moveLane(dir)] (lines 380-383) *)
Definition moveLane (dir : Z) (s : state) : state :=
  if negb (alive s) then s
  else set_playerLane (Js.clampZ (playerLane s + dir) 0 (lanes - 1)) s.

(** The [Enter] key in [onKey] (lines 391-393) *)
Definition keyEnter (s : state) : state :=
  if negb (alive s) then reset s else s.

(** [mount(host)] (lines 426-471), past the construction of the DOM. *)
Definition mount (s : state) : state :=
  let s := set_ctx true s in
  let s := reset s in
  let s := stop s in
  let s := set_running true s in
  emit RequestFrame s.

(** [unmount()] (lines 473-483) *)
Definition unmount (s : state) : state :=
  let s := stop s in
  set_ctx false s.

(** What can happen to a mounted engine. *)
Inductive event : Type :=
| Frame (t : Q) (r : rand)
| PressRestart
| PressEnter
| PressPause
| Move (dir : Z).

Definition step (e : event) (s : state) : state :=
  match e with
  | Frame t r => loop t r s
  | PressRestart => reset s
  | PressEnter => keyEnter s
  | PressPause => togglePause s
  | Move dir => moveLane dir s
  end.

Definition run (es : list event) (s : state) : state :=
  fold_left (fun s e => step e s) es s.

(** The score at each death along a run: the final scores of the sessions
    that ended, oldest first. *)
Fixpoint finalScores (es : list event) (s : state) : list Q :=
  match es with
  | [] => []
  | e :: rest =>
      let s' := step e s in
      if alive s && negb (alive s')
      then score s' :: finalScores rest s'
      else finalScores rest s'
  end.

(** The value of the most recent [store.set(KEY, ...)]. *)
Fixpoint lastSaved (log : list effect) : option Z :=
  match log with
  | [] => None
  | StoreSet _ v :: _ => Some v
  | _ :: older => lastSaved older
  end.

(** The [store.set(key, value)] calls recorded in a log, newest first. *)
Fixpoint writes (log : list effect) : list (string * Z) :=
  match log with
  | [] => []
  | StoreSet k v :: older => (k, v) :: writes older
  | _ :: older => writes older
  end.

(** [localStorage] after the calls [ws] (newest first) have been made, each
    by [store.set], on the storage [ls]. *)
Fixpoint persist (ls : Store.localStorage) (ws : list (string * Z))
  : Store.localStorage :=
  match ws with
  | [] => ls
  | (k, v) :: older =>
      match Store.set (persist ls older) k (Store.JInt v) with
      | Store.Normal ls' => ls'
      | Store.Throw => persist ls older
      end
  end.

(** Whether the write of the most recent of the calls [ws] went through
    (as it does when there was no call). *)
Definition lastWriteOk (ls : Store.localStorage) (ws : list (string * Z)) : bool :=
  match ws with
  | [] => true
  | (k, v) :: older =>
      match Store.setItem (persist ls older) k (Store.stringify (Store.JInt v)) with
      | Store.Normal _ => true
      | Store.Throw => false
      end
  end.

(** An engine whose [best] came from the storage as [best0] and has been
    handed to [store.set] at every change since: either nothing was written
    yet and [best] is still [best0], or the most recent write was of the
    current [best] under [KEY]. *)
Definition inSync (best0 : Z) (s : state) : Prop :=
  match writes (out s) with
  | [] => best s = best0
  | (k, v) :: _ => k = KEY /\ v = best s
  end.

(** How many times the canvas was painted. *)
Fixpoint paints (log : list effect) : nat :=
  match log with
  | [] => 0
  | Painted _ _ _ :: older => S (paints older)
  | _ :: older => paints older
  end.

(** *** Facts about [update] *)

#[local] Arguments simulate : simpl never.
#[local] Arguments draw : simpl never.
#[local] Arguments update : simpl never.

Lemma rectsOverlap_spec (ax ay aw ah bx by_ bw bh : Q) :
  rectsOverlap ax ay aw ah bx by_ bw bh = true <->
  ax < bx + bw /\ ax + aw > bx /\ ay < by_ + bh /\ ay + ah > by_.
Proof.
  unfold rectsOverlap. rewrite !andb_true_iff, !Js.ltb_lt. tauto.
Qed.

Lemma simulate_ramp (dt : Q) (r : rand) (s : state) :
  let w := simulate dt r s in
  distance w = distance s + speed s * dt /\
  speed w = speed s + speedGain * dt /\
  spawnEvery w = Js.clamp (0.85 - distance w / 80000) 0.35 0.85 /\
  score w = score s + (12 + speed w * 0.05) * dt.
Proof.
  unfold simulate. cbn.
  destruct (Js.geb _ _); [destruct (_ && _)|]; cbn; repeat split.
Qed.

Lemma simulate_frame (dt : Q) (r : rand) (s : state) :
  let w := simulate dt r s in
  alive w = alive s /\ best w = best s /\ out w = out s /\
  playerLane w = playerLane s /\ paused w = paused s /\
  running w = running s /\ ctx w = ctx s /\ lastT w = lastT s.
Proof.
  unfold simulate. cbn.
  destruct (Js.geb _ _); [destruct (_ && _)|]; cbn; repeat split.
Qed.

(** From here on [simulate] is used through the two lemmas above. *)
Opaque simulate.

Lemma collide_cases (os : list obstacle) (s : state) :
  (existsb (hits s) os = false /\ collide os s = s) \/
  (existsb (hits s) os = true /\ collide os s = gameOver s).
Proof.
  induction os as [|o rest IH]; cbn; [now left|].
  destruct (hits s o); cbn; [now right | exact IH].
Qed.

Lemma update_alive (dt : Q) (r : rand) (s : state) :
  alive s = true ->
  update dt r s = collide (obstacles (simulate dt r s)) (simulate dt r s).
Proof. intros Ha. unfold update. now rewrite Ha. Qed.

Lemma update_dead (dt : Q) (r : rand) (s : state) :
  alive s = false -> update dt r s = s.
Proof. intros Ha. unfold update. now rewrite Ha. Qed.

(** The collision loop touches none of the ramp variables. *)
Lemma collide_ramp_fields (os : list obstacle) (w : state) :
  distance (collide os w) = distance w /\ speed (collide os w) = speed w /\
  spawnEvery (collide os w) = spawnEvery w /\ score (collide os w) = score w /\
  lastT (collide os w) = lastT w /\ running (collide os w) = running w /\
  ctx (collide os w) = ctx w.
Proof.
  destruct (collide_cases os w) as [[_ ->] | [_ ->]]; repeat split; reflexivity.
Qed.

Lemma update_ramp_fields (dt : Q) (r : rand) (s : state) :
  alive s = true ->
  distance (update dt r s) = distance (simulate dt r s) /\
  speed (update dt r s) = speed (simulate dt r s) /\
  spawnEvery (update dt r s) = spawnEvery (simulate dt r s) /\
  score (update dt r s) = score (simulate dt r s) /\
  lastT (update dt r s) = lastT (simulate dt r s) /\
  running (update dt r s) = running (simulate dt r s) /\
  ctx (update dt r s) = ctx (simulate dt r s).
Proof.
  intros Ha. rewrite (update_alive _ _ _ Ha). apply collide_ramp_fields.
Qed.

Lemma draw_fields (dt : Q) (s : state) :
  let s' := draw dt s in
  speed s' = speed s /\ lastT s' = lastT s /\ alive s' = alive s /\
  best s' = best s /\ score s' = score s /\ distance s' = distance s /\
  spawnEvery s' = spawnEvery s /\ spawnTimer s' = spawnTimer s /\
  obstacles s' = obstacles s /\ playerLane s' = playerLane s /\
  paused s' = paused s /\ running s' = running s /\ ctx s' = ctx s /\
  tAcc s' = tAcc s.
Proof.
  unfold draw. destruct (ctx s) eqn:E; cbn; rewrite ?E; repeat split; reflexivity.
Qed.






(** *** The difficulty ramp *)


(** A mounted engine before its first frame, and some values for
    [Math.random()]. *)
Definition fresh : state := mount (init 0).
Definition someRand : rand := mkRand 0.5 0.5 0.5 0.5 0.5.


(** *** Collision and the best score *)

Lemma draw_saved (dt : Q) (s : state) :
  lastSaved (out (draw dt s)) = lastSaved (out s).
Proof. unfold draw. destruct (ctx s); reflexivity. Qed.

Lemma update_hit (dt : Q) (r : rand) (s : state) :
  alive s = true ->
  existsb (hits (simulate dt r s)) (obstacles (simulate dt r s)) = true ->
  update dt r s = gameOver (simulate dt r s).
Proof.
  intros Ha Hhit. rewrite (update_alive _ _ _ Ha).
  destruct (collide_cases (obstacles (simulate dt r s)) (simulate dt r s))
    as [[Hno _] | [_ ->]]; [congruence | reflexivity].
Qed.

Lemma update_miss (dt : Q) (r : rand) (s : state) :
  alive s = true ->
  existsb (hits (simulate dt r s)) (obstacles (simulate dt r s)) = false ->
  update dt r s = simulate dt r s.
Proof.
  intros Ha Hhit. rewrite (update_alive _ _ _ Ha).
  destruct (collide_cases (obstacles (simulate dt r s)) (simulate dt r s))
    as [[_ ->] | [Hyes _]]; [reflexivity | congruence].
Qed.

(** What one event does to [alive], [best] and the saved value: either
    the session dies, and the best is raised to the floored score and
    saved, or none of the three changes hands. *)
Definition dies (s s' : state) : bool := alive s && negb (alive s').

Lemma gameOver_fields (w : state) :
  alive (gameOver w) = false /\
  best (gameOver w) = Z.max (best w) (Qfloor (score w)) /\
  score (gameOver w) = score w /\
  out (gameOver w) = StoreSet KEY (best (gameOver w)) :: out w /\
  lastSaved (out (gameOver w)) = Some (best (gameOver w)).
Proof. repeat split; reflexivity. Qed.

Lemma update_outcome (dt : Q) (r : rand) (s : state) :
  alive s = true ->
  (alive (update dt r s) = false /\
   best (update dt r s) = Z.max (best s) (Qfloor (score (update dt r s))) /\
   lastSaved (out (update dt r s)) = Some (best (update dt r s))) \/
  (alive (update dt r s) = true /\ best (update dt r s) = best s /\
   lastSaved (out (update dt r s)) = lastSaved (out s)).
Proof.
  intros Ha.
  destruct (simulate_frame dt r s) as (Wa & Wb & Wo & _).
  destruct (existsb (hits (simulate dt r s)) (obstacles (simulate dt r s))) eqn:Hh.
  - left. rewrite (update_hit _ _ _ Ha Hh).
    destruct (gameOver_fields (simulate dt r s)) as (Ga & Gb & Gs & _ & Go).
    rewrite Ga, Go, Gs. rewrite Gb at 1. rewrite Wb. solve_fields.
  - right. rewrite (update_miss _ _ _ Ha Hh). rewrite Wa, Wb, Wo. solve_fields.
Qed.

Lemma step_outcome (e : event) (s : state) :
  let s' := step e s in
  (dies s s' = true /\
   best s' = Z.max (best s) (Qfloor (score s')) /\
   lastSaved (out s') = Some (best s')) \/
  (dies s s' = false /\ best s' = best s /\
   lastSaved (out s') = lastSaved (out s)).
Proof.
  unfold dies. destruct e as [t r| | | |dir]; cbn [step].
  - unfold loop. destruct (running s); cbn [negb].
    + set (s1 := set_lastT t (emit RequestFrame s)).
      set (dt := frame_dt t (emit RequestFrame s)).
      set (s2 := if negb (paused s1) && alive s1 then update dt r s1 else s1).
      destruct (draw_fields dt s2) as (_ & _ & -> & -> & -> & _).
      rewrite draw_saved.
      change (alive s) with (alive s1). change (best s) with (best s1).
      change (lastSaved (out s)) with (lastSaved (out s1)).
      subst s2. destruct (alive s1) eqn:Ha.
      * destruct (paused s1); cbn [negb andb].
        -- right. rewrite Ha. solve_fields.
        -- destruct (update_outcome dt r s1 Ha) as [(-> & Hb & Ho) | (-> & Hb & Ho)];
             [left | right]; solve_fields.
      * right. rewrite andb_false_r, Ha. solve_fields.
    + destruct (draw_fields 0 s) as (_ & _ & -> & -> & _).
      rewrite draw_saved. right. destruct (alive s); solve_fields.
  - right. unfold reset.
    match goal with |- context [draw 0 ?x] =>
      destruct (draw_fields 0 x) as (_ & _ & -> & -> & _);
      rewrite (draw_saved 0 x) end.
    cbn. rewrite andb_false_r. solve_fields.
  - right. unfold keyEnter. destruct (alive s) eqn:Ha; cbn [negb].
    + rewrite Ha. solve_fields.
    + unfold reset.
      match goal with |- context [draw 0 ?x] =>
        destruct (draw_fields 0 x) as (_ & _ & -> & -> & _);
        rewrite (draw_saved 0 x) end.
      cbn. solve_fields.
  - right. unfold togglePause. destruct (running s); cbn;
      destruct (alive s); solve_fields.
  - right. unfold moveLane. destruct (alive s) eqn:Ha; cbn; rewrite ?Ha; solve_fields.
Qed.

Lemma best_is_max_of_final_scores (es : list event) :
  forall s : state,
    best (run es s) = fold_left Z.max (map Qfloor (finalScores es s)) (best s).
Proof.
  induction es as [|e rest IH]; intros s; [reflexivity|].
  change (run (e :: rest) s) with (run rest (step e s)).
  rewrite IH. cbn [finalScores].
  destruct (step_outcome e s) as [(Hd & Hb & _) | (Hd & Hb & _)];
    fold (dies s (step e s)); rewrite Hd, Hb; reflexivity.
Qed.

Lemma saved_tracks_best (es : list event) :
  forall s : state,
    lastSaved (out s) = Some (best s) ->
    lastSaved (out (run es s)) = Some (best (run es s)).
Proof.
  induction es as [|e rest IH]; intros s Hs; [exact Hs|].
  change (run (e :: rest) s) with (run rest (step e s)).
  apply IH.
  destruct (step_outcome e s) as [(_ & _ & Ho) | (_ & Hb & Ho)];
    [exact Ho | now rewrite Ho, Hb].
Qed.

Lemma saved_after_a_death (es : list event) :
  forall s : state,
    finalScores es s <> [] ->
    lastSaved (out (run es s)) = Some (best (run es s)).
Proof.
  induction es as [|e rest IH]; intros s Hne; [now destruct Hne|].
  change (run (e :: rest) s) with (run rest (step e s)).
  cbn [finalScores] in Hne. fold (dies s (step e s)) in Hne.
  destruct (step_outcome e s) as [(Hd & _ & Ho) | (Hd & _ & _)];
    rewrite Hd in Hne.
  - now apply saved_tracks_best.
  - now apply IH.
Qed.

(** An obstacle in the player's lane whose vertical extent meets the
    player's band (from 70 to 42 above the bottom) is hit. *)
Lemma same_lane_hits (s : state) (o : obstacle) :
  lane o = playerLane s -> y o < H - 42 -> H - 70 < y o + h o ->
  hits s o = true.
Proof.
  intros Hl Hy Hh. unfold hits. apply rectsOverlap_spec. rewrite Hl.
  unfold H in *. repeat split; lra.
Qed.

(** *** The best score in the storage *)

Lemma draw_writes (dt : Q) (s : state) :
  writes (out (draw dt s)) = writes (out s).
Proof. unfold draw. destruct (ctx s); reflexivity. Qed.

Lemma update_writes (dt : Q) (r : rand) (s : state) :
  alive s = true ->
  (alive (update dt r s) = false /\
   writes (out (update dt r s)) = (KEY, best (update dt r s)) :: writes (out s)) \/
  (alive (update dt r s) = true /\
   writes (out (update dt r s)) = writes (out s)).
Proof.
  intros Ha.
  destruct (simulate_frame dt r s) as (Wa & _ & Wo & _).
  destruct (existsb (hits (simulate dt r s)) (obstacles (simulate dt r s))) eqn:Hh.
  - left. rewrite (update_hit _ _ _ Ha Hh).
    destruct (gameOver_fields (simulate dt r s)) as (Ga & _ & _ & Go & _).
    rewrite Ga, Go. cbn [writes]. rewrite Wo. solve_fields.
  - right. rewrite (update_miss _ _ _ Ha Hh). rewrite Wa, Wo. solve_fields.
Qed.

Lemma reset_writes (s : state) :
  writes (out (reset s)) = writes (out s) /\ best (reset s) = best s.
Proof.
  unfold reset.
  match goal with |- context [draw 0 ?x] =>
    destruct (draw_fields 0 x) as (_ & _ & _ & -> & _);
    rewrite (draw_writes 0 x) end.
  split; reflexivity.
Qed.

(** What one event does to the calls of [store.set]: a death adds one, of
    the new best; every other event adds none. *)
Lemma step_writes (e : event) (s : state) :
  (dies s (step e s) = true /\
   writes (out (step e s)) = (KEY, best (step e s)) :: writes (out s)) \/
  (dies s (step e s) = false /\ best (step e s) = best s /\
   writes (out (step e s)) = writes (out s)).
Proof.
  unfold dies. destruct e as [t r| | | |dir]; cbn [step].
  - unfold loop. destruct (running s); cbn [negb].
    + set (s1 := set_lastT t (emit RequestFrame s)).
      set (dt := frame_dt t (emit RequestFrame s)).
      set (s2 := if negb (paused s1) && alive s1 then update dt r s1 else s1).
      destruct (draw_fields dt s2) as (_ & _ & -> & -> & _).
      rewrite draw_writes.
      change (alive s) with (alive s1). change (best s) with (best s1).
      change (writes (out s)) with (writes (out s1)).
      subst s2. destruct (alive s1) eqn:Ha.
      * destruct (paused s1); cbn [negb andb].
        -- right. rewrite Ha. solve_fields.
        -- destruct (update_writes dt r s1 Ha) as [(-> & Ho) | (Hal & Ho)].
           ++ left. solve_fields.
           ++ right. rewrite Hal.
              destruct (update_outcome dt r s1 Ha) as [(Hd & _) | (_ & Hb & _)];
                [congruence | solve_fields].
      * right. rewrite andb_false_r, Ha. solve_fields.
    + destruct (draw_fields 0 s) as (_ & _ & -> & -> & _).
      rewrite draw_writes. right. destruct (alive s); solve_fields.
  - right. unfold reset.
    match goal with |- context [draw 0 ?x] =>
      destruct (draw_fields 0 x) as (_ & _ & -> & -> & _);
      rewrite (draw_writes 0 x) end.
    cbn. rewrite andb_false_r. solve_fields.
  - right. unfold keyEnter. destruct (alive s) eqn:Ha; cbn [negb].
    + rewrite Ha. solve_fields.
    + unfold reset.
      match goal with |- context [draw 0 ?x] =>
        destruct (draw_fields 0 x) as (_ & _ & -> & -> & _);
        rewrite (draw_writes 0 x) end.
      cbn. solve_fields.
  - right. unfold togglePause. destruct (running s); cbn;
      destruct (alive s); solve_fields.
  - right. unfold moveLane. destruct (alive s) eqn:Ha; cbn; rewrite ?Ha; solve_fields.
Qed.

Lemma step_inSync (best0 : Z) (e : event) (s : state) :
  inSync best0 s -> inSync best0 (step e s).
Proof.
  unfold inSync. intros Hs.
  destruct (step_writes e s) as [(_ & ->) | (_ & Hb & ->)].
  - split; reflexivity.
  - now rewrite Hb.
Qed.

Lemma run_inSync (best0 : Z) (es : list event) (s : state) :
  inSync best0 s -> inSync best0 (run es s).
Proof.
  revert s. induction es as [|e rest IH]; intros s Hs; [exact Hs|].
  change (run (e :: rest) s) with (run rest (step e s)).
  apply IH. now apply step_inSync.
Qed.

Lemma mount_inSync (best0 : Z) : inSync best0 (mount (init best0)).
Proof. unfold inSync. cbn. reflexivity. Qed.

Lemma mount_best (best0 : Z) : best (mount (init best0)) = best0.
Proof. reflexivity. Qed.

(** What a write that goes through, or fails, leaves in the storage. *)
Lemma persist_written (ls ls' : Store.localStorage) (k : string) (v : Z)
    (older : list (string * Z)) :
  Store.setItem (persist ls older) k (Store.stringify (Store.JInt v)) =
    Store.Normal ls' ->
  persist ls ((k, v) :: older) = ls' /\
  Store.get (persist ls ((k, v) :: older)) k (Store.JInt 0) =
    Store.Normal (Store.JInt v).
Proof.
  intros Hw.
  destruct (Store.store_write_read (persist ls older) k (Store.JInt 0)
              (Store.JInt v) ls' Hw) as [Hset Hget].
  cbn [persist]. rewrite Hset. split; [reflexivity | exact Hget].
Qed.

Lemma persist_failed (ls : Store.localStorage) (k : string) (v : Z)
    (older : list (string * Z)) :
  Store.setItem (persist ls older) k (Store.stringify (Store.JInt v)) =
    Store.Throw ->
  persist ls ((k, v) :: older) = persist ls older.
Proof.
  intros Hw. cbn [persist]. now rewrite (Store.set_failed _ _ _ Hw).
Qed.

(** The stored best of an engine in sync, when its last write went
    through. *)
Lemma stored_best (ls : Store.localStorage) (best0 : Z) (s : state) :
  Store.get ls KEY (Store.JInt 0) = Store.Normal (Store.JInt best0) ->
  inSync best0 s ->
  lastWriteOk ls (writes (out s)) = true ->
  Store.get (persist ls (writes (out s))) KEY (Store.JInt 0) =
    Store.Normal (Store.JInt (best s)).
Proof.
  unfold inSync, lastWriteOk. intros Hget Hs Hok.
  destruct (writes (out s)) as [|[k v] older].
  - cbn [persist]. now rewrite Hs.
  - destruct Hs as [-> ->].
    destruct (Store.setItem _ _ _) as [ls'|] eqn:Hw; [|discriminate].
    exact (proj2 (persist_written ls ls' KEY (best s) older Hw)).
Qed.

(** C5.  When [update] on a live session finds, among the obstacles it has
    moved and culled, one whose box (36 wide, its own height, centred on
    its lane) overlaps the player's (28 by 28, centred on the player's lane,
    70 above the bottom), the session is dead after that tick, [best] is the
    maximum of the previous best and the floored score, and [store.set] is
    called with it: when that write goes through, [store.get] reads this
    best back from the storage, and when it fails the storage is as it
    was.  So for an engine whose best came from the storage, after any run
    of events the best is the maximum of that value and the floored scores
    at which sessions died, and it is the stored best whenever the last
    write went through: from a freshly mounted engine, the stored best is
    then the maximum of the best stored before and those floored scores.  A
    restart saves nothing: the score of a session that is abandoned before a
    collision is never stored. *)
Theorem collision_ends_session_and_saves_best :
  (forall (s : state) (o : obstacle),
     hits s o = rectsOverlap (laneX (playerLane s) - 14) (H - 70) 28 28
                             (laneX (lane o) - 18) (y o) 36 (h o)) /\
  (forall ax ay aw ah bx by_ bw bh : Q,
     rectsOverlap ax ay aw ah bx by_ bw bh = true <->
     ax < bx + bw /\ ax + aw > bx /\ ay < by_ + bh /\ ay + ah > by_) /\
  (forall (dt : Q) (r : rand) (s : state),
     alive s = true ->
     existsb (hits (simulate dt r s)) (obstacles (simulate dt r s)) = true ->
     alive (update dt r s) = false /\
     best (update dt r s) = Z.max (best s) (Qfloor (score (update dt r s))) /\
     out (update dt r s) = StoreSet KEY (best (update dt r s)) :: out s /\
     forall ls : Store.localStorage,
       (forall ls',
          Store.setItem (persist ls (writes (out s))) KEY
            (Store.stringify (Store.JInt (best (update dt r s)))) =
            Store.Normal ls' ->
          persist ls (writes (out (update dt r s))) = ls' /\
          Store.get (persist ls (writes (out (update dt r s)))) KEY (Store.JInt 0) =
            Store.Normal (Store.JInt (best (update dt r s)))) /\
       (Store.setItem (persist ls (writes (out s))) KEY
          (Store.stringify (Store.JInt (best (update dt r s)))) = Store.Throw ->
        persist ls (writes (out (update dt r s))) = persist ls (writes (out s)))) /\
  (forall (ls : Store.localStorage) (best0 : Z) (s : state) (es : list event),
     Store.get ls KEY (Store.JInt 0) = Store.Normal (Store.JInt best0) ->
     inSync best0 s ->
     best (run es s) = fold_left Z.max (map Qfloor (finalScores es s)) (best s) /\
     (lastWriteOk ls (writes (out (run es s))) = true ->
      Store.get (persist ls (writes (out (run es s)))) KEY (Store.JInt 0) =
        Store.Normal (Store.JInt (best (run es s))))) /\
  (forall (ls : Store.localStorage) (best0 : Z) (es : list event),
     Store.get ls KEY (Store.JInt 0) = Store.Normal (Store.JInt best0) ->
     lastWriteOk ls (writes (out (run es (mount (init best0))))) = true ->
     Store.get (persist ls (writes (out (run es (mount (init best0))))))
       KEY (Store.JInt 0) =
     Store.Normal
       (Store.JInt
          (fold_left Z.max
             (map Qfloor (finalScores es (mount (init best0)))) best0))) /\
  (forall s : state,
     writes (out (reset s)) = writes (out s) /\ best (reset s) = best s).
Proof.
  split; [reflexivity|].
  split; [exact rectsOverlap_spec|].
  split; [|split; [|split; [|exact reset_writes]]].
  - intros dt r s Ha Hhit.
    rewrite (update_hit _ _ _ Ha Hhit).
    destruct (simulate_frame dt r s) as (_ & Wb & Wo & _).
    destruct (gameOver_fields (simulate dt r s)) as (Ga & Gb & Gs & Go & _).
    rewrite Ga, Go, Gs. rewrite Gb at 1. rewrite Wb, Wo.
    split; [reflexivity|]. split; [reflexivity|]. split; [reflexivity|].
    intros ls. cbn [writes]. split.
    + intros ls' Hw. now apply persist_written.
    + intros Hw. now apply persist_failed.
  - intros ls best0 s es Hget Hs.
    split; [apply best_is_max_of_final_scores|].
    apply (stored_best ls best0); [exact Hget | now apply run_inSync].
  - intros ls best0 es Hget Hok.
    rewrite (stored_best ls best0 _ Hget
               (run_inSync best0 es _ (mount_inSync best0)) Hok).
    now rewrite best_is_max_of_final_scores, mount_best.
Qed.

(** A session at score 57.5 with an obstacle in the player's lane, at the
    player's height. *)
Definition doomed : state :=
  set_score 57.5 (set_obstacles [mkObstacle 1 (H - 70) 20] fresh).

(** The next frame ends that session; the best of 57 is written to a
    storage that held none, and is read back after the restart that
    follows. *)
Lemma collision_ends_session_and_saves_best_witness :
  alive doomed = true /\
  alive (update 0.016 someRand doomed) = false /\
  best (update 0.016 someRand doomed) = 57%Z /\
  out (update 0.016 someRand doomed) = StoreSet KEY 57 :: out doomed /\
  Store.get Store.small_storage KEY (Store.JInt 0) = Store.Normal (Store.JInt 0) /\
  Store.get
    (persist Store.small_storage
       (writes (out (run [Frame 16 someRand; PressRestart] doomed))))
    KEY (Store.JInt 0) = Store.Normal (Store.JInt 57).
Proof.
  destruct collision_ends_session_and_saves_best as (_ & _ & Hdie & Hrun & _).
  assert (Hhit : existsb (hits (simulate 0.016 someRand doomed))
                   (obstacles (simulate 0.016 someRand doomed)) = true)
    by (vm_compute; reflexivity).
  assert (Hlive : alive doomed = true) by (vm_compute; reflexivity).
  destruct (Hdie 0.016 someRand doomed Hlive Hhit) as (Ha & Hb & Ho & _).
  assert (Hv : Z.max (best doomed)
                 (Qfloor (score (update 0.016 someRand doomed))) = 57%Z)
    by (vm_compute; reflexivity).
  rewrite Hv in Hb. rewrite Hb in Ho.
  assert (Hget : Store.get Store.small_storage KEY (Store.JInt 0) =
                 Store.Normal (Store.JInt 0)) by (vm_compute; reflexivity).
  assert (Hsync : inSync 0 doomed) by (vm_compute; reflexivity).
  assert (Hok : lastWriteOk Store.small_storage
                  (writes (out (run [Frame 16 someRand; PressRestart] doomed))) = true)
    by (vm_compute; reflexivity).
  assert (Hbest : best (run [Frame 16 someRand; PressRestart] doomed) = 57%Z)
    by (vm_compute; reflexivity).
  destruct (Hrun Store.small_storage 0%Z doomed
              [Frame 16 someRand; PressRestart] Hget Hsync) as (_ & Hstored).
  specialize (Hstored Hok). rewrite Hbest in Hstored.
  split; [exact Hlive|]. split; [exact Ha|]. split; [exact Hb|].
  split; [exact Ho|]. split; [exact Hget | exact Hstored].
Defined.

(** C5, as stated, fails for a session that does not end in a collision,
    and for a storage that refuses the write.  From the fresh engine on an
    empty storage, three frames take the score to 1.75; the restart that
    follows abandons that session, and the stored best still reads 0, not
    [max(0, floor(1.75)) = 1].  And on a storage that is full, the fatal
    frame of [doomed] raises the engine's best to 57 while the stored best
    stays 0. *)
Lemma abandoned_score_is_not_stored :
  Store.get Store.small_storage KEY (Store.JInt 0) = Store.Normal (Store.JInt 0) /\
  alive (run [Frame 1000 someRand; Frame 1100 someRand; Frame 1200 someRand] fresh) =
    true /\
  Z.max 0 (Qfloor (score (run [Frame 1000 someRand; Frame 1100 someRand;
                                Frame 1200 someRand] fresh))) = 1%Z /\
  Store.get
    (persist Store.small_storage
       (writes (out (run [Frame 1000 someRand; Frame 1100 someRand;
                          Frame 1200 someRand; PressRestart] fresh))))
    KEY (Store.JInt 0) = Store.Normal (Store.JInt 0) /\
  best (update 0.016 someRand doomed) = 57%Z /\
  Store.get
    (persist Store.full_storage (writes (out (update 0.016 someRand doomed))))
    KEY (Store.JInt 0) = Store.Normal (Store.JInt 0).
Proof. repeat split; vm_compute; reflexivity. Qed.

End Runner.

(** ** GAME 2: NEON CLICKER ([createNeonClicker], lines 496-727) *)

Module Clicker.

Definition KEY : string := "px_clicker_state".

(** [state.upgrades]: [{ core, drip, crit }]. *)
Record levels : Type := mkLevels {
  core : Z;
  drip : Z;
  crit : Z
}.

(** The object [state], which is what [save()] persists. *)
Record progress : Type := mkProgress {
  bits : Q;
  total : Q;
  bpc : Z;
  bps : Z;
  upgrades : levels
}.

Definition set_bits (v : Q) (s : progress) : progress :=
  mkProgress v (total s) (bpc s) (bps s) (upgrades s).
Definition set_total (v : Q) (s : progress) : progress :=
  mkProgress (bits s) v (bpc s) (bps s) (upgrades s).
Definition set_bpc (v : Z) (s : progress) : progress :=
  mkProgress (bits s) (total s) v (bps s) (upgrades s).
Definition set_bps (v : Z) (s : progress) : progress :=
  mkProgress (bits s) (total s) (bpc s) v (upgrades s).
Definition set_upgrades (v : levels) (s : progress) : progress :=
  mkProgress (bits s) (total s) (bpc s) (bps s) v.

(** The fallback of [store.get(KEY, ...)] (lines 498-504). *)
Definition initial : progress := mkProgress 0 0 1 0 (mkLevels 0 0 0).

(** An entry of [upgradeDefs]; [buy] is its method, which assigns to
    [state]. *)
Record upgrade : Type := mkUpgrade {
  id : string;
  base : Q;
  mult : Q;
  buy : progress -> progress
}.

Definition coreDef : upgrade :=
  mkUpgrade "core" 25 1.22
    (fun p =>
       let p := set_upgrades (mkLevels (core (upgrades p) + 1)
                                (drip (upgrades p)) (crit (upgrades p))) p in
       set_bpc (bpc p + 1) p).

Definition dripDef : upgrade :=
  mkUpgrade "drip" 60 1.28
    (fun p =>
       let p := set_upgrades (mkLevels (core (upgrades p))
                                (drip (upgrades p) + 1) (crit (upgrades p))) p in
       set_bps (bps p + 1) p).

Definition critDef : upgrade :=
  mkUpgrade "crit" 120 1.35
    (fun p =>
       set_upgrades (mkLevels (core (upgrades p)) (drip (upgrades p))
                       (crit (upgrades p) + 1)) p).

Definition upgradeDefs : list upgrade := [coreDef; dripDef; critDef].

(** [state.upgrades[id]]: [undefined] ([None]) for any other name. *)
Definition level (name : string) (l : levels) : option Z :=
  if String.eqb name "core" then Some (core l)
  else if String.eqb name "drip" then Some (drip l)
  else if String.eqb name "crit" then Some (crit l)
  else None.

(** [const calcCost = (u) => { const lvl = state.upgrades[u.id] || 0;
    return Math.floor(u.base * Math.pow(u.mult, lvl)); }]
    ([x || 0] is [x] for a number and [0] for [undefined]), over exact
    rationals like every number of the engine.  [calcCost64] below is the
    same function in binary64, and C6 says up to which level the two
    agree. *)
Definition calcCost (u : upgrade) (p : progress) : Z :=
  let lvl := default 0%Z (level (id u) (upgrades p)) in
  Qfloor (base u * mult u ^ lvl).

(** [calcCost] as JavaScript evaluates it: the literals [u.base] and
    [u.mult] are the doubles nearest to them, [pow] is [Math.pow], the
    product is rounded to the nearest double, and [Math.floor] is exact. *)
Definition calcCost64 (pow : Binary64.number -> Z -> Binary64.number)
    (u : upgrade) (p : progress) : Binary64.number :=
  let lvl := default 0%Z (level (id u) (upgrades p)) in
  Binary64.floor64
    (Binary64.mul64 (Binary64.nearest64 (base u))
       (pow (Binary64.nearest64 (mult u)) lvl)).

(** The calls that leave the engine.  [Rendered] is one run of [render]
    with a root: the bits shown, and per upgrade its cost and whether its
    button is enabled. *)
Inductive effect : Type :=
| Rendered (bitsShown : Z) (shop : list (string * Z * bool))
| StoreSet (key : string) (value : progress)
| Badges
| Burst (gain : Z) (critical : bool)
| RequestFrame
| CancelFrame.

(** The closure variables. [root] is whether the engine is mounted. *)
Record engine : Type := mkEngine {
  state : progress;
  root : bool;
  tickTimer : Q;
  last : Q;
  paused : bool;
  out : list effect
}.

Definition with_state (v : progress) (s : engine) : engine :=
  mkEngine v (root s) (tickTimer s) (last s) (paused s) (out s).
Definition with_root (v : bool) (s : engine) : engine :=
  mkEngine (state s) v (tickTimer s) (last s) (paused s) (out s).
Definition with_tickTimer (v : Q) (s : engine) : engine :=
  mkEngine (state s) (root s) v (last s) (paused s) (out s).
Definition with_last (v : Q) (s : engine) : engine :=
  mkEngine (state s) (root s) (tickTimer s) v (paused s) (out s).
Definition with_paused (v : bool) (s : engine) : engine :=
  mkEngine (state s) (root s) (tickTimer s) (last s) v (out s).
Definition with_out (v : list effect) (s : engine) : engine :=
  mkEngine (state s) (root s) (tickTimer s) (last s) (paused s) v.

Definition emit (e : effect) (s : engine) : engine := with_out (e :: out s) s.

(** The engine as [createNeonClicker] leaves it, [p] being what
    [store.get] returned. *)
Definition init (p : progress) : engine := mkEngine p false 0 0 false [].

(** [save()], [refreshMenuBadges()] and [togglePause()] *)
Definition save (s : engine) : engine := emit (StoreSet KEY (state s)) s.
Definition refreshMenuBadges (s : engine) : engine := emit Badges s.
Definition togglePause (s : engine) : engine := with_paused (negb (paused s)) s.

(** [render()] (lines 597-632) *)
Definition render (s : engine) : engine :=
  if negb (root s) then s
  else
    let shop :=
      map (fun u =>
             let cost := calcCost u (state s) in
             let can := Js.geb (bits (state s)) (inject_Z cost) in
             (id u, cost, can))
          upgradeDefs in
    emit (Rendered (Qfloor (bits (state s))) shop) s.

(** [addBits(n)] (lines 555-561) *)
Definition addBits (n : Q) (s : engine) : engine :=
  let s := with_state (set_bits (bits (state s) + n) (state s)) s in
  let s := with_state (set_total (total (state s) + n) (state s)) s in
  let s := save s in
  let s := render s in
  refreshMenuBadges s.

(** [clickGain()] (lines 563-568), on the value [r] of [Math.random()]. *)
Definition clickGain (r : Q) (p : progress) : Z * bool :=
  let critChance :=
    Js.clamp (0.08 + inject_Z (crit (upgrades p)) * 0.02) 0.08 0.40 in
  let critical := Js.ltb r critChance in
  let mult := if critical then (3 + Z.min 4 (crit (upgrades p)))%Z else 1%Z in
  ((bpc p * mult)%Z, critical).

(** The click handler of the big button (lines 676-682) *)
Definition click (r : Q) (s : engine) : engine :=
  let '(gain, critical) := clickGain r (state s) in
  let s := addBits (inject_Z gain) s in
  emit (Burst gain critical) s.

(** The time step of a frame (lines 572-573). *)
Definition frame_dt (t : Q) (s : engine) : Q :=
  let prev := if Js.falsy (last s) then t else last s in
  Qmin 0.05 ((t - prev) / 1000).

(** The passive income of a frame (lines 578-591). *)
Definition passive (dt : Q) (s : engine) : engine :=
  let s := with_tickTimer (tickTimer s + dt) s in
  if Js.geb (tickTimer s) 0.2 then
    let steps := Qfloor (tickTimer s / 0.2) in
    let s := with_tickTimer (tickTimer s - inject_Z steps * 0.2) s in
    let gain := (inject_Z (bps (state s)) * 0.2) * inject_Z steps in
    if Js.ltb 0 gain then
      let s := with_state (set_bits (bits (state s) + gain) (state s)) s in
      let s := with_state (set_total (total (state s) + gain) (state s)) s in
      let s := save s in
      let s := render s in
      refreshMenuBadges s
    else s
  else s.

(** [loop(t)] (lines 570-592) *)
Definition loop (t : Q) (s : engine) : engine :=
  let s := emit RequestFrame s in
  let dt := frame_dt t s in
  let s := with_last t s in
  if paused s then s
  else passive dt s.

(** The click handler of the buy button of [u] (lines 619-627) *)
Definition purchase (u : upgrade) (s : engine) : engine :=
  let c := calcCost u (state s) in
  if Js.ltb (bits (state s)) (inject_Z c) then s
  else
    let s := with_state (set_bits (bits (state s) - inject_Z c) (state s)) s in
    let s := with_state (buy u (state s)) s in
    let s := save s in
    let s := render s in
    refreshMenuBadges s.

(** [restart()] (lines 634-643) *)
Definition restart (s : engine) : engine :=
  let s := with_state (set_bits 0 (state s)) s in
  let s := with_state (set_total 0 (state s)) s in
  let s := with_state (set_bpc 1 (state s)) s in
  let s := with_state (set_bps 0 (state s)) s in
  let s := with_state (set_upgrades (mkLevels 0 0 0) (state s)) s in
  let s := save s in
  let s := render s in
  refreshMenuBadges s.

(** [mount(host)] (lines 645-711), past the construction of the DOM, and
    [unmount()] (lines 713-717). *)
Definition mount (s : engine) : engine :=
  let s := with_root true s in
  let s := with_paused false s in
  let s := with_tickTimer 0 s in
  let s := with_last 0 s in
  let s := emit CancelFrame s in
  let s := emit RequestFrame s in
  render s.

Definition unmount (s : engine) : engine :=
  let s := emit CancelFrame s in
  with_root false s.

(** What can happen to a mounted engine; [Buy i] is a click on the buy
    button of the [i]-th entry of [upgradeDefs]. *)
Inductive event : Type :=
| Frame (t : Q)
| Click (r : Q)
| Buy (i : nat)
| PressRestart
| PressPause.

Definition step (e : event) (s : engine) : engine :=
  match e with
  | Frame t => loop t s
  | Click r => click r s
  | Buy i => match nth_error upgradeDefs i with
             | Some u => purchase u s
             | None => s
             end
  | PressRestart => restart s
  | PressPause => togglePause s
  end.

Definition run (es : list event) (s : engine) : engine :=
  fold_left (fun s e => step e s) es s.

(** How many times the DOM was rendered. *)
Fixpoint renders (log : list effect) : nat :=
  match log with
  | [] => 0
  | Rendered _ _ :: older => S (renders older)
  | _ :: older => renders older
  end.

(** The cost of an upgrade at level [L]:
    [floor(baseCost * costGrowthFactor^L)]. *)
Definition costAt (u : upgrade) (L : Z) : Z := Qfloor (base u * mult u ^ L).

(** The progress with upgrade [u] at level [L] and nothing else. *)
Definition atLevel (u : upgrade) (L : Z) : progress :=
  set_upgrades
    (if String.eqb (id u) "core" then mkLevels L 0 0
     else if String.eqb (id u) "drip" then mkLevels 0 L 0
     else mkLevels 0 0 L)
    initial.

(** The value of a finite double. *)
Definition valueOf (n : Binary64.number) : Q :=
  match n with
  | Binary64.Double q => q
  | _ => 0
  end.

(** Whether [n] is the integer [z]. *)
Definition isCost (n : Binary64.number) (z : Z) : bool :=
  match n with
  | Binary64.Double q => (Qnum q =? z)%Z && (Qden q =? 1)%positive
  | _ => false
  end.

(** The last level up to which the cost of each upgrade is the floor of the
    exact product: above it the rounding of [1.22], [1.28] and [1.35] to
    doubles and of the power shows in the integer part. *)
Definition exactUpTo (u : upgrade) : nat :=
  if String.eqb (id u) "core" then 138
  else if String.eqb (id u) "drip" then 113
  else if String.eqb (id u) "crit" then 86
  else 0.

(** The check behind [exactUpTo], one level at a time.  [dec] is the exact
    power of the decimal factor, and [lo] and [hi] enclose the exact power of
    the double factor: the check passes when both bounds round to the same
    doubles, downwards and upwards, and either double gives the cost
    [floor(base * dec)]. *)
Definition agreesIn (u : upgrade) (dec lo hi : Q) : bool :=
  let b := Binary64.nearest64 (base u) in
  let cost := Qfloor (base u * dec) in
  negb (Qle_bool lo 0) &&
  negb (Qle_bool Binary64.huge (Binary64.roundUp hi)) &&
  Binary64.number_eqb (Binary64.down64 lo) (Binary64.down64 hi) &&
  Binary64.number_eqb (Binary64.up64 lo) (Binary64.up64 hi) &&
  isCost (Binary64.floor64 (Binary64.mul64 b (Binary64.down64 lo))) cost &&
  isCost (Binary64.floor64 (Binary64.mul64 b (Binary64.up64 lo))) cost.

Fixpoint agreesFrom (u : upgrade) (n : nat) (dec lo hi : Q) : bool :=
  match n with
  | O => true
  | S n' =>
      agreesIn u dec lo hi &&
      agreesFrom u n' (dec * mult u)
        (Binary64.chopDown (lo * valueOf (Binary64.nearest64 (mult u))))
        (Binary64.chopUp (hi * valueOf (Binary64.nearest64 (mult u))))
  end.

Definition agreesUpTo (u : upgrade) (n : nat) : bool := agreesFrom u (S n) 1 1 1.

(** What every engine started from [initial] satisfies: the click power and
    the crit level are not negative. *)
Definition sound (p : progress) : Prop :=
  (0 <= bpc p)%Z /\ (0 <= crit (upgrades p))%Z.

(** *** Upgrade costs *)

Lemma calcCost_at (u : upgrade) (p : progress) (L : Z) :
  level (id u) (upgrades p) = Some L -> calcCost u p = costAt u L.
Proof. intros HL. unfold calcCost, costAt. now rewrite HL. Qed.

Lemma costAt_mono (u : upgrade) (L L' : Z) :
  0 <= base u -> 1 <= mult u -> (L <= L')%Z -> (costAt u L <= costAt u L')%Z.
Proof.
  intros Hb Hm HL. unfold costAt. apply Qfloor_resp_le.
  pose proof (Qpower_le_compat_l (mult u) L L' HL Hm) as Hp.
  rewrite !(Qmult_comm (base u)). now apply Qmult_le_compat_r.
Qed.

Lemma upgradeDefs_growth (u : upgrade) :
  In u upgradeDefs -> 0 <= base u /\ 1 <= mult u.
Proof.
  intros [<- | [<- | [<- | []]]]; cbn; split; lra.
Qed.

Lemma upgradeDefs_level (u : upgrade) (l : levels) :
  In u upgradeDefs -> exists L, level (id u) l = Some L.
Proof.
  intros [<- | [<- | [<- | []]]]; cbn; eauto.
Qed.

Lemma isCost_eq (n : Binary64.number) (z : Z) :
  isCost n z = true -> n = Binary64.Double (inject_Z z).
Proof.
  unfold isCost. destruct n as [[a d]| | |]; try discriminate.
  cbn [Qnum Qden]. rewrite andb_true_iff, Z.eqb_eq, Pos.eqb_eq.
  now intros [-> ->].
Qed.

(** The literals of [upgradeDefs] as doubles: the bases are exact, the
    factors are at least 1.2 (and not exactly the decimals written). *)
Lemma upgradeDefs_doubles (u : upgrade) :
  In u upgradeDefs ->
  Binary64.nearest64 (base u) = Binary64.Double (base u) /\
  Binary64.nearest64 (mult u) =
    Binary64.Double (valueOf (Binary64.nearest64 (mult u))) /\
  2 <= base u /\ (114 # 100) <= valueOf (Binary64.nearest64 (mult u)).
Proof.
  intros [<- | [<- | [<- | []]]];
    (split; [vm_compute; reflexivity|]); (split; [vm_compute; reflexivity|]);
    split; unfold Qle; vm_compute; discriminate.
Qed.

Lemma exact_levels_agree (u : upgrade) :
  In u upgradeDefs -> agreesUpTo u (exactUpTo u) = true.
Proof. intros [<- | [<- | [<- | []]]]; vm_compute; reflexivity. Qed.

Lemma calcCost64_at (pow : Binary64.number -> Z -> Binary64.number)
    (u : upgrade) (p : progress) (L : Z) :
  In u upgradeDefs -> level (id u) (upgrades p) = Some L ->
  calcCost64 pow u p =
  Binary64.floor64
    (Binary64.mul64 (Binary64.Double (base u))
       (pow (Binary64.Double (valueOf (Binary64.nearest64 (mult u)))) L)).
Proof.
  intros Hu HL. unfold calcCost64. rewrite HL. cbn [default].
  destruct (upgradeDefs_doubles u Hu) as (-> & <- & _). reflexivity.
Qed.

Lemma agreesIn_sound (pow : Binary64.number -> Z -> Binary64.number)
    (u : upgrade) (dec lo hi : Q) (L : Z) :
  Binary64.faithful pow -> In u upgradeDefs -> (0 <= L)%Z ->
  dec == mult u ^ L ->
  lo <= valueOf (Binary64.nearest64 (mult u)) ^ L ->
  valueOf (Binary64.nearest64 (mult u)) ^ L <= hi ->
  agreesIn u dec lo hi = true ->
  Binary64.floor64
    (Binary64.mul64 (Binary64.Double (base u))
       (pow (Binary64.Double (valueOf (Binary64.nearest64 (mult u)))) L)) =
  Binary64.Double (inject_Z (costAt u L)).
Proof.
  intros Hpow Hu HL Hdec Hlo Hhi Hok.
  destruct (upgradeDefs_doubles u Hu) as (Hb & _ & _ & Hm).
  unfold agreesIn in Hok. rewrite Hb in Hok.
  repeat (apply andb_true_iff in Hok; destruct Hok as [Hok ?]).
  match goal with H : isCost (_ (_ _ (Binary64.up64 _))) _ = true |- _ =>
    apply isCost_eq in H; rename H into Cu end.
  match goal with H : isCost _ _ = true |- _ =>
    apply isCost_eq in H; rename H into Cd end.
  match goal with H : Binary64.number_eqb (Binary64.up64 _) _ = true |- _ =>
    apply Binary64.number_eqb_eq in H; rename H into Eu end.
  match goal with H : Binary64.number_eqb _ _ = true |- _ =>
    apply Binary64.number_eqb_eq in H; rename H into Ed end.
  match goal with H : negb (Qle_bool Binary64.huge _) = true |- _ =>
    apply negb_true_iff in H; rename H into Hfin end.
  apply negb_true_iff in Hok.
  assert (Hpos : 0 < lo).
  { apply Qnot_le_lt. intros Hle. apply Qle_bool_iff in Hle. congruence. }
  assert (Hfin' : Binary64.roundUp hi < Binary64.huge).
  { apply Qnot_le_lt. intros Hle. apply Qle_bool_iff in Hle. congruence. }
  assert (Hcost : Qfloor (base u * dec) = costAt u L)
    by (unfold costAt; now rewrite Hdec).
  rewrite Hcost in Cd, Cu.
  destruct (Hpow (valueOf (Binary64.nearest64 (mult u))) L) as [-> | ->];
    [lra | exact HL | |].
  - now rewrite (Binary64.down64_between lo _ hi Hpos Hlo Hhi Hfin' Ed).
  - now rewrite (Binary64.up64_between lo _ hi Hpos Hlo Hhi Hfin' Eu).
Qed.

Lemma agreesFrom_sound (pow : Binary64.number -> Z -> Binary64.number)
    (u : upgrade) (n : nat) :
  Binary64.faithful pow -> In u upgradeDefs ->
  forall (dec lo hi : Q) (L : Z) (k : nat),
    (0 <= L)%Z -> dec == mult u ^ L ->
    lo <= valueOf (Binary64.nearest64 (mult u)) ^ L ->
    valueOf (Binary64.nearest64 (mult u)) ^ L <= hi ->
    agreesFrom u n dec lo hi = true -> (k < n)%nat ->
    Binary64.floor64
      (Binary64.mul64 (Binary64.Double (base u))
         (pow (Binary64.Double (valueOf (Binary64.nearest64 (mult u))))
              (L + Z.of_nat k)%Z)) =
    Binary64.Double (inject_Z (costAt u (L + Z.of_nat k))).
Proof.
  intros Hpow Hu. destruct (upgradeDefs_doubles u Hu) as (_ & _ & _ & Hm).
  destruct (upgradeDefs_growth u Hu) as [_ Hmult].
  induction n as [|n IH]; intros dec lo hi L k HL Hdec Hlo Hhi Hok Hk; [lia|].
  cbn [agreesFrom] in Hok. apply andb_true_iff in Hok. destruct Hok as [Hin Hrest].
  destruct k as [|k].
  - rewrite Z.add_0_r. now apply (agreesIn_sound pow u dec lo hi L).
  - replace (L + Z.of_nat (S k))%Z with (L + 1 + Z.of_nat k)%Z by lia.
    set (mv := valueOf (Binary64.nearest64 (mult u))) in *.
    assert (Hs : mv ^ (L + 1) == mv ^ L * mv)
      by (rewrite Qpower_plus by lra; now rewrite Qpower_1_r).
    assert (Hx : 0 <= mv ^ L) by (apply Qpower_0_le; lra).
    destruct (Binary64.chop_encloses (lo * mv)) as [C1 _].
    destruct (Binary64.chop_encloses (hi * mv)) as [_ C2].
    apply (IH (dec * mult u) (Binary64.chopDown (lo * mv))
              (Binary64.chopUp (hi * mv)) (L + 1)%Z k); try lia; try exact Hrest.
    + rewrite Hdec, Qpower_plus by lra. now rewrite Qpower_1_r.
    + rewrite Hs. apply Qle_trans with (lo * mv); [exact C1|].
      apply Qmult_le_compat_r; lra.
    + rewrite Hs. apply Qle_trans with (hi * mv); [|exact C2].
      apply Qmult_le_compat_r; lra.
Qed.

Lemma calcCost64_exact (pow : Binary64.number -> Z -> Binary64.number)
    (u : upgrade) (p : progress) (L : Z) :
  Binary64.faithful pow -> In u upgradeDefs ->
  level (id u) (upgrades p) = Some L ->
  (0 <= L <= Z.of_nat (exactUpTo u))%Z ->
  calcCost64 pow u p = Binary64.Double (inject_Z (costAt u L)).
Proof.
  intros Hpow Hu HL [H0 Hup].
  rewrite (calcCost64_at pow u p L Hu HL).
  pose proof (exact_levels_agree u Hu) as Hall. unfold agreesUpTo in Hall.
  pose proof (agreesFrom_sound pow u (S (exactUpTo u)) Hpow Hu 1 1 1 0%Z
                (Z.to_nat L)) as Hs.
  rewrite Z.add_0_l, Z2Nat.id in Hs by exact H0.
  apply Hs; try exact Hall; try lia; try reflexivity; try discriminate.
Qed.

(** C6.  The cost of an upgrade is [Math.floor] of the binary64 product
    [base * Math.pow(mult, L)].  For every [Math.pow] that errs by less than
    one unit in the last place: up to level 138 of the core upgrade, 113 of
    the drip upgrade and 86 of the crit upgrade that cost is
    [floor(base * mult^L)], the cost of the exact model; at every level the
    cost does not decrease as the level grows; and for the upgrade with base
    25 and factor 1.22 it is 25 at level 0, 30 at level 1 and 67 at level
    5. *)
Theorem upgrade_cost_formula
    (pow : Binary64.number -> Z -> Binary64.number) (u : upgrade) :
  Binary64.faithful pow -> In u upgradeDefs ->
  (forall (p : progress) (L : Z),
     level (id u) (upgrades p) = Some L ->
     (0 <= L <= Z.of_nat (exactUpTo u))%Z ->
     calcCost64 pow u p =
       Binary64.Double (inject_Z (Qfloor (base u * mult u ^ L))) /\
     calcCost u p = Qfloor (base u * mult u ^ L)) /\
  (forall (p p' : progress) (L L' : Z),
     level (id u) (upgrades p) = Some L ->
     level (id u) (upgrades p') = Some L' ->
     (0 <= L <= L')%Z ->
     Binary64.leN (calcCost64 pow u p) (calcCost64 pow u p')) /\
  (base coreDef = 25 /\ mult coreDef = 1.22 /\
   forall p : progress,
     (core (upgrades p) = 0%Z -> calcCost64 pow coreDef p = Binary64.Double 25) /\
     (core (upgrades p) = 1%Z -> calcCost64 pow coreDef p = Binary64.Double 30) /\
     (core (upgrades p) = 5%Z -> calcCost64 pow coreDef p = Binary64.Double 67)).
Proof.
  intros Hpow Hu. split; [|split].
  - intros p L HL Hrange. split.
    + exact (calcCost64_exact pow u p L Hpow Hu HL Hrange).
    + now rewrite (calcCost_at u p L HL).
  - intros p p' L L' HL HL' Hle.
    rewrite (calcCost64_at pow u p L Hu HL), (calcCost64_at pow u p' L' Hu HL').
    destruct (upgradeDefs_doubles u Hu) as (_ & _ & Hb & Hm).
    now apply Binary64.scaled_power_mono_le.
  - split; [reflexivity|]. split; [reflexivity|].
    assert (Hcore : In coreDef upgradeDefs) by (left; reflexivity).
    intros p. repeat split; intros HL;
      rewrite (calcCost64_exact pow coreDef p _ Hpow Hcore (f_equal Some HL))
        by (vm_compute; split; discriminate);
      reflexivity.
Qed.

(** With a [Math.pow] that rounds to the nearest double: the three costs of
    the core upgrade, read off engines at levels 0, 1 and 5. *)
Lemma upgrade_cost_formula_witness :
  Binary64.faithful Binary64.roundedPow /\ In coreDef upgradeDefs /\
  calcCost64 Binary64.roundedPow coreDef initial = Binary64.Double 25 /\
  calcCost64 Binary64.roundedPow coreDef (atLevel coreDef 1) = Binary64.Double 30 /\
  calcCost64 Binary64.roundedPow coreDef (atLevel coreDef 5) = Binary64.Double 67 /\
  Binary64.leN (calcCost64 Binary64.roundedPow coreDef (atLevel coreDef 138))
               (calcCost64 Binary64.roundedPow coreDef (atLevel coreDef 139)).
Proof.
  pose proof Binary64.roundedPow_faithful as Hpow.
  assert (Hin : In coreDef upgradeDefs) by (left; reflexivity).
  destruct (upgrade_cost_formula Binary64.roundedPow coreDef Hpow Hin)
    as (_ & Hmono & _ & _ & Hvalues).
  split; [exact Hpow|]. split; [exact Hin|].
  split; [apply (Hvalues initial); reflexivity|].
  split; [apply (Hvalues (atLevel coreDef 1)); reflexivity|].
  split; [apply (Hvalues (atLevel coreDef 5)); reflexivity|].
  apply (Hmono _ _ 138%Z 139%Z); [reflexivity | reflexivity | lia].
Defined.

(** C6, as stated, fails one level further: at level 87 of the crit
    upgrade (base 120, factor 1.35) the formula gives 26195042361873, and the
    code, with the nearest-rounding [Math.pow] and with every other one that
    errs by less than one unit in the last place, returns 26195042361874.
    The double nearest to 1.35 is a little above it, and 87 factors of it
    carry the product past the next integer. *)
Lemma crit_cost_leaves_formula :
  Qfloor (base critDef * mult critDef ^ 87) = 26195042361873%Z /\
  calcCost64 Binary64.roundedPow critDef (atLevel critDef 87) =
    Binary64.Double 26195042361874 /\
  (forall pow, Binary64.faithful pow ->
     calcCost64 pow critDef (atLevel critDef 87) = Binary64.Double 26195042361874).
Proof.
  assert (Hall : forall pow, Binary64.faithful pow ->
            calcCost64 pow critDef (atLevel critDef 87) =
            Binary64.Double 26195042361874).
  { intros pow Hpow.
    assert (Hin : In critDef upgradeDefs) by (right; right; left; reflexivity).
    rewrite (calcCost64_at pow critDef (atLevel critDef 87) 87 Hin eq_refl).
    destruct (upgradeDefs_doubles critDef Hin) as (_ & _ & _ & Hm).
    destruct (Hpow (valueOf (Binary64.nearest64 (mult critDef))) 87%Z) as [-> | ->];
      [lra | lia | vm_compute; reflexivity | vm_compute; reflexivity]. }
  split; [vm_compute; reflexivity|].
  split; [apply Hall, Binary64.roundedPow_faithful | exact Hall].
Qed.

(** *** Purchases *)

Lemma render_fields (s : engine) :
  state (render s) = state s /\ paused (render s) = paused s /\
  tickTimer (render s) = tickTimer s /\ last (render s) = last s /\
  root (render s) = root s.
Proof.
  unfold render. destruct (root s) eqn:E; cbn [negb]; [|tauto].
  unfold emit. cbn [state paused tickTimer last root with_out].
  repeat split; reflexivity || exact E.
Qed.

(** [save(); render(); refreshMenuBadges();] leaves the variables alone. *)
Lemma publish_state (s : engine) :
  state (refreshMenuBadges (render (save s))) = state s /\
  paused (refreshMenuBadges (render (save s))) = paused s /\
  tickTimer (refreshMenuBadges (render (save s))) = tickTimer s /\
  last (refreshMenuBadges (render (save s))) = last s /\
  root (refreshMenuBadges (render (save s))) = root s.
Proof.
  destruct (render_fields (save s)) as (R1 & R2 & R3 & R4 & R5).
  unfold refreshMenuBadges, emit. cbn [state paused tickTimer last root with_out].
  rewrite R1, R2, R3, R4, R5. repeat split; reflexivity.
Qed.

Lemma purchase_refused (u : upgrade) (s : engine) :
  bits (state s) < inject_Z (calcCost u (state s)) -> purchase u s = s.
Proof.
  intros Hlt. unfold purchase. apply Js.ltb_lt in Hlt. now rewrite Hlt.
Qed.

Lemma purchase_done (u : upgrade) (s : engine) :
  inject_Z (calcCost u (state s)) <= bits (state s) ->
  state (purchase u s) =
  buy u (set_bits (bits (state s) - inject_Z (calcCost u (state s))) (state s)).
Proof.
  intros Hle. unfold purchase. apply Js.ltb_ge in Hle. rewrite Hle.
  match goal with |- state (refreshMenuBadges (render (save ?x))) = _ =>
    destruct (publish_state x) as (-> & _) end.
  reflexivity.
Qed.

(** C7.  A purchase of one of the three upgrades goes through only when
    [bits >= cost], and otherwise changes nothing.  When it goes through,
    [bits] drops by exactly the cost, [total] stays, the level of the
    upgrade goes up by one and no other level moves, and the effect of the
    upgrade is applied once: the new [state] is [buy] of the old one less the
    cost, which for the core upgrade is one more bit per click, for the
    drip upgrade one more bit per second, and for the crit upgrade neither.
    With 25 bits and the core upgrade at level 0: 0 bits, one more bit per
    click, core level 1. *)
Theorem purchase_contract (u : upgrade) (s : engine) :
  In u upgradeDefs ->
  (bits (state s) < inject_Z (calcCost u (state s)) -> purchase u s = s) /\
  (inject_Z (calcCost u (state s)) <= bits (state s) ->
   let s' := purchase u s in
   state s' =
     buy u (set_bits (bits (state s) - inject_Z (calcCost u (state s))) (state s)) /\
   bits (state s') = bits (state s) - inject_Z (calcCost u (state s)) /\
   total (state s') = total (state s) /\
   (forall L, level (id u) (upgrades (state s)) = Some L ->
      level (id u) (upgrades (state s')) = Some (L + 1)%Z) /\
   (forall name, name <> id u ->
      level name (upgrades (state s')) = level name (upgrades (state s))) /\
   bpc (state s') = (bpc (state s) + if String.eqb (id u) "core" then 1 else 0)%Z /\
   bps (state s') = (bps (state s) + if String.eqb (id u) "drip" then 1 else 0)%Z) /\
  (bits (state s) = 25 -> core (upgrades (state s)) = 0%Z ->
   bits (state (purchase coreDef s)) = 0 /\
   bpc (state (purchase coreDef s)) = (bpc (state s) + 1)%Z /\
   core (upgrades (state (purchase coreDef s))) = 1%Z).
Proof.
  intros Hu. split; [apply purchase_refused|]. split.
  - intros Hle s'. subst s'. rewrite (purchase_done u s Hle).
    set (c := calcCost u (state s)). clearbody c.
    destruct (state s) as [b t pc ps [lc ld lr]].
    destruct Hu as [<- | [<- | [<- | []]]]; cbn;
      (repeat apply conj; try reflexivity; try (f_equal; lia);
       [ intros L [= <-]; reflexivity
       | intros name Hn; unfold level; cbn in Hn |- *;
         destruct (String.eqb_spec name "core");
         destruct (String.eqb_spec name "drip");
         destruct (String.eqb_spec name "crit");
         subst; first [reflexivity | congruence] ]).
  - intros Hb Hc.
    assert (Hcost : calcCost coreDef (state s) = 25%Z).
    { unfold calcCost. cbn. rewrite Hc. reflexivity. }
    assert (Hle : inject_Z (calcCost coreDef (state s)) <= bits (state s))
      by (rewrite Hcost, Hb; apply Qle_refl).
    rewrite (purchase_done coreDef s Hle), Hcost, Hb.
    cbn. rewrite Hc. repeat split; reflexivity.
Qed.

(** The scenario on a mounted engine holding 25 bits. *)
Definition withBits (b : Q) : engine := mount (init (set_bits b initial)).

Lemma purchase_contract_witness :
  In coreDef upgradeDefs /\
  bits (state (purchase coreDef (withBits 25))) = 0 /\
  bpc (state (purchase coreDef (withBits 25))) = 2%Z /\
  core (upgrades (state (purchase coreDef (withBits 25)))) = 1%Z /\
  purchase coreDef (withBits 24) = withBits 24.
Proof.
  assert (Hin : In coreDef upgradeDefs) by (left; reflexivity).
  destruct (purchase_contract coreDef (withBits 25) Hin) as (_ & _ & Hscn).
  destruct (purchase_contract coreDef (withBits 24) Hin) as (Hno & _).
  destruct (Hscn eq_refl eq_refl) as (Hb & Hp & Hc).
  split; [exact Hin|].
  split; [exact Hb|].
  split; [exact Hp|].
  split; [exact Hc|].
  apply Hno. vm_compute. reflexivity.
Defined.

(** *** The two accumulators *)

(** [state.bits += g; state.total += g;] *)
Definition earn (g : Q) (p : progress) : progress :=
  set_total (total p + g) (set_bits (bits p + g) p).

Lemma clickGain_nonneg (r : Q) (p : progress) :
  sound p -> (0 <= fst (clickGain r p))%Z.
Proof.
  intros [Hpc Hcr]. unfold clickGain. cbn [fst].
  destruct (Js.ltb r _); apply Z.mul_nonneg_nonneg; lia.
Qed.

Lemma click_state (r : Q) (s : engine) :
  state (click r s) = earn (inject_Z (fst (clickGain r (state s)))) (state s).
Proof.
  unfold click. destruct (clickGain r (state s)) as [gain critical].
  unfold addBits, emit. cbn [state with_out fst].
  match goal with |- state (refreshMenuBadges (render (save ?x))) = _ =>
    destruct (publish_state x) as (-> & _) end.
  reflexivity.
Qed.

Lemma passive_state (dt : Q) (s : engine) :
  state (passive dt s) = state s \/
  exists g, 0 < g /\ state (passive dt s) = earn g (state s).
Proof.
  unfold passive. cbn [tickTimer with_tickTimer state].
  destruct (Js.geb _ _); [|now left].
  match goal with |- context [Js.ltb 0 ?g] =>
    destruct (Js.ltb 0 g) eqn:Hg; [right; exists g | now left] end.
  split; [now apply Js.ltb_lt|].
  match goal with |- state (refreshMenuBadges (render (save ?x))) = _ =>
    destruct (publish_state x) as (-> & _) end.
  reflexivity.
Qed.

Lemma loop_state (t : Q) (s : engine) :
  state (loop t s) = state s \/
  exists g, 0 < g /\ state (loop t s) = earn g (state s).
Proof.
  unfold loop. cbn [paused with_last emit with_out].
  destruct (paused s); [now left|].
  match goal with |- context [passive ?dt ?x] =>
    destruct (passive_state dt x) as [-> | (g & Hg & ->)] end;
    [left | right; exists g; split; [exact Hg|]]; reflexivity.
Qed.

Lemma restart_state (s : engine) : state (restart s) = initial.
Proof.
  unfold restart.
  match goal with |- state (refreshMenuBadges (render (save ?x))) = _ =>
    destruct (publish_state x) as (-> & _) end.
  reflexivity.
Qed.

(** What one event does to [state]. *)
Inductive outcome (e : event) (p p' : progress) : Prop :=
| Unchanged : p' = p -> outcome e p p'
| Earned (g : Q) : 0 <= g -> p' = earn g p -> outcome e p p'
| Bought (i : nat) (u : upgrade) :
    e = Buy i -> nth_error upgradeDefs i = Some u ->
    inject_Z (calcCost u p) <= bits p ->
    p' = buy u (set_bits (bits p - inject_Z (calcCost u p)) p) ->
    outcome e p p'
| Wiped : e = PressRestart -> p' = initial -> outcome e p p'.

Lemma event_outcome (e : event) (s : engine) :
  sound (state s) -> outcome e (state s) (state (step e s)).
Proof.
  intros Hs. destruct e as [t | r | i | | ]; cbn [step].
  - destruct (loop_state t s) as [-> | (g & Hg & ->)].
    + now apply Unchanged.
    + apply (Earned _ _ _ g); [lra | reflexivity].
  - rewrite click_state. apply (Earned _ _ _ (inject_Z (fst (clickGain r (state s)))));
      [|reflexivity].
    change 0 with (inject_Z 0). apply Js.inject_Z_le. now apply clickGain_nonneg.
  - destruct (nth_error upgradeDefs i) as [u|] eqn:Hi; [|now apply Unchanged].
    destruct (Qlt_le_dec (bits (state s)) (inject_Z (calcCost u (state s))))
      as [Hlt | Hle].
    + rewrite (purchase_refused u s Hlt). now apply Unchanged.
    + apply (Bought _ _ _ i u); try easy. now apply purchase_done.
  - apply Wiped; [reflexivity | apply restart_state].
  - now apply Unchanged.
Qed.

Lemma buy_fields (u : upgrade) (p : progress) :
  In u upgradeDefs ->
  bits (buy u p) = bits p /\ total (buy u p) = total p /\
  (bpc p <= bpc (buy u p))%Z /\
  (crit (upgrades p) <= crit (upgrades (buy u p)))%Z.
Proof.
  intros [<- | [<- | [<- | []]]]; cbn; repeat split; try reflexivity; lia.
Qed.

Lemma step_sound (e : event) (s : engine) :
  sound (state s) -> sound (state (step e s)).
Proof.
  intros Hs. destruct (event_outcome e s Hs) as [-> | g _ -> | i u _ Hi _ -> | _ ->].
  - exact Hs.
  - exact Hs.
  - destruct Hs as [Hpc Hcr].
    destruct (buy_fields u (set_bits (bits (state s) - inject_Z (calcCost u (state s)))
                              (state s)) (nth_error_In _ _ Hi))
      as (_ & _ & Hb & Hc).
    split; cbn in Hb, Hc |- *; lia.
  - split; cbn; lia.
Qed.

Lemma step_total (e : event) (s : engine) :
  sound (state s) -> e <> PressRestart ->
  total (state s) <= total (state (step e s)).
Proof.
  intros Hs Hne.
  destruct (event_outcome e s Hs) as [-> | g Hg -> | i u _ Hi _ -> | He _].
  - apply Qle_refl.
  - cbn. lra.
  - destruct (buy_fields u (set_bits (bits (state s) - inject_Z (calcCost u (state s)))
                              (state s)) (nth_error_In _ _ Hi))
      as (_ & -> & _).
    cbn. apply Qle_refl.
  - contradiction.
Qed.

Lemma step_bits (e : event) (s : engine) :
  sound (state s) -> bits (state (step e s)) < bits (state s) ->
  e = PressRestart \/
  exists i u, e = Buy i /\ nth_error upgradeDefs i = Some u /\
    bits (state (step e s)) = bits (state s) - inject_Z (calcCost u (state s)).
Proof.
  intros Hs Hlt.
  destruct (event_outcome e s Hs) as [E | g Hg E | i u He Hi _ E | He _].
  - rewrite E in Hlt. lra.
  - rewrite E in Hlt. cbn in Hlt. lra.
  - right. exists i, u. split; [exact He|]. split; [exact Hi|].
    rewrite E.
    destruct (buy_fields u (set_bits (bits (state s) - inject_Z (calcCost u (state s)))
                              (state s)) (nth_error_In _ _ Hi))
      as (-> & _).
    reflexivity.
  - now left.
Qed.

Lemma run_total (es : list event) :
  forall s : engine,
    sound (state s) -> ~ In PressRestart es ->
    total (state s) <= total (state (run es s)).
Proof.
  induction es as [|e rest IH]; intros s Hs Hno; [apply Qle_refl|].
  change (run (e :: rest) s) with (run rest (step e s)).
  apply Qle_trans with (total (state (step e s))).
  - apply step_total; [exact Hs|]. intros ->. apply Hno. now left.
  - apply IH; [now apply step_sound|]. intros Hin. apply Hno. now right.
Qed.

(** A mounted engine on the initial progress. *)
Definition fresh : engine := mount (init initial).

(** C2, as stated, fails: [restart()] is one of the operations, and it
    sets [total] (and [bits]) back to 0.  After one click from the initial
    progress [total] is 1; after the restart that follows it is 0, and
    [bits] has gone down without any purchase. *)
Lemma restart_lowers_total :
  total (state (run [Click 0.5] fresh)) == 1 /\
  ~ total (state (run [Click 0.5] fresh)) <=
    total (state (run [PressRestart] (run [Click 0.5] fresh))) /\
  bits (state (run [PressRestart] (run [Click 0.5] fresh))) <
  bits (state (run [Click 0.5] fresh)).
Proof.
  assert (E : state (run [Click 0.5] fresh) = earn 1 initial)
    by (vm_compute; reflexivity).
  change (run [PressRestart] (run [Click 0.5] fresh))
    with (restart (run [Click 0.5] fresh)).
  rewrite restart_state, E.
  split; [reflexivity|]. split; [intros H; revert H|]; vm_compute; congruence.
Qed.

Lemma run_sound (es : list event) :
  forall s : engine, sound (state s) -> sound (state (run es s)).
Proof.
  induction es as [|e rest IH]; intros s Hs; [exact Hs|].
  change (run (e :: rest) s) with (run rest (step e s)).
  apply IH. now apply step_sound.
Qed.

Lemma fresh_sound : sound (state fresh).
Proof. split; vm_compute; discriminate. Qed.

(** C2, amended.  On an engine whose click power and crit level are not
    negative, which every event preserves and which holds of the engine
    mounted on the initial progress: no event other than a restart lowers
    [total], so [total] does not decrease over any run without a restart;
    an event that lowers [bits] is a restart or a purchase, and the
    purchase lowers them by exactly its cost; a restart sets [total] and
    [bits] to 0.  In particular, whatever has happened since the engine was
    mounted on the initial progress, [total] does not decrease over what
    follows as long as that holds no restart. *)
Theorem total_grows_until_restart :
  (forall s e, sound (state s) -> sound (state (step e s))) /\
  (forall s e, sound (state s) -> e <> PressRestart ->
     total (state s) <= total (state (step e s))) /\
  (forall s e, sound (state s) ->
     bits (state (step e s)) < bits (state s) ->
     e = PressRestart \/
     exists i u, e = Buy i /\ nth_error upgradeDefs i = Some u /\
       bits (state (step e s)) =
       bits (state s) - inject_Z (calcCost u (state s))) /\
  (forall s es, sound (state s) -> ~ In PressRestart es ->
     total (state s) <= total (state (run es s))) /\
  (forall s, total (state (step PressRestart s)) = 0 /\
             bits (state (step PressRestart s)) = 0) /\
  (forall es es', ~ In PressRestart es' ->
     total (state (run es fresh)) <= total (state (run (es ++ es') fresh))).
Proof.
  split; [intros s e; apply step_sound|].
  split; [intros s e; apply step_total|].
  split; [intros s e; apply step_bits|].
  split; [intros s es; apply run_total|].
  split.
  - intros s. cbn [step]. rewrite restart_state. split; reflexivity.
  - intros es es' Hno. unfold run at 2. rewrite fold_left_app.
    apply (run_total es' (run es fresh)); [|exact Hno].
    apply run_sound. exact fresh_sound.
Qed.

(** Two clicks, a frame and a refused purchase from the fresh engine; and
    the same after an earlier restart. *)
Lemma total_grows_until_restart_witness :
  sound (state fresh) /\
  total (state fresh) <=
  total (state (run [Click 0.5; Click 0.01; Frame 16; Buy 0] fresh)) /\
  total (state (run [Click 0.5; PressRestart] fresh)) <=
  total (state (run ([Click 0.5; PressRestart] ++ [Click 0.01; Frame 16]) fresh)).
Proof.
  destruct total_grows_until_restart as (_ & _ & _ & Hrun & _ & Hlater).
  split; [exact fresh_sound|]. split.
  - apply (Hrun fresh); [exact fresh_sound|].
    intros [H | [H | [H | [H | []]]]]; discriminate H.
  - apply Hlater. intros [H | [H | []]]; discriminate H.
Defined.

End Clicker.

(** ** GAME 3: GLITCH REACT ([createGlitchReact], lines 730-922) *)

Module React.

Definition KEY : string := "px_best_react".

(** The calls that leave the engine.  [Rendered] is one run of [render]
    with a root: the streak and best shown, the time shown (none when not
    live) and the pad lit (none when not live). *)
Inductive effect : Type :=
| Rendered (streakShown bestShown : Z) (remaining : option Q) (lit : option Z)
| StoreSet (key : string) (value : Z)
| Badges
| Msg (text : string)
| RequestFrame
| CancelFrame.

(** The closure variables. [root] is whether the engine is mounted. *)
Record state : Type := mkState {
  best : Z;
  root : bool;
  paused : bool;
  live : bool;
  streak : Z;
  timeLeft : Q;
  timer : Q;
  targetIndex : Z;
  last : Q;
  out : list effect
}.

Definition set_best (v : Z) (s : state) : state :=
  mkState v (root s) (paused s) (live s) (streak s) (timeLeft s) (timer s) (targetIndex s) (last s) (out s).
Definition set_root (v : bool) (s : state) : state :=
  mkState (best s) v (paused s) (live s) (streak s) (timeLeft s) (timer s) (targetIndex s) (last s) (out s).
Definition set_paused (v : bool) (s : state) : state :=
  mkState (best s) (root s) v (live s) (streak s) (timeLeft s) (timer s) (targetIndex s) (last s) (out s).
Definition set_live (v : bool) (s : state) : state :=
  mkState (best s) (root s) (paused s) v (streak s) (timeLeft s) (timer s) (targetIndex s) (last s) (out s).
Definition set_streak (v : Z) (s : state) : state :=
  mkState (best s) (root s) (paused s) (live s) v (timeLeft s) (timer s) (targetIndex s) (last s) (out s).
Definition set_timeLeft (v : Q) (s : state) : state :=
  mkState (best s) (root s) (paused s) (live s) (streak s) v (timer s) (targetIndex s) (last s) (out s).
Definition set_timer (v : Q) (s : state) : state :=
  mkState (best s) (root s) (paused s) (live s) (streak s) (timeLeft s) v (targetIndex s) (last s) (out s).
Definition set_targetIndex (v : Z) (s : state) : state :=
  mkState (best s) (root s) (paused s) (live s) (streak s) (timeLeft s) (timer s) v (last s) (out s).
Definition set_last (v : Q) (s : state) : state :=
  mkState (best s) (root s) (paused s) (live s) (streak s) (timeLeft s) (timer s) (targetIndex s) v (out s).
Definition set_out (v : list effect) (s : state) : state :=
  mkState (best s) (root s) (paused s) (live s) (streak s) (timeLeft s) (timer s) (targetIndex s) (last s) v.

Definition emit (e : effect) (s : state) : state := set_out (e :: out s) s.

(** The engine as [createGlitchReact] leaves it, [best0] being what
    [store.get(KEY, 0)] returned. *)
Definition init (best0 : Z) : state :=
  mkState best0 false false false 0 1.5 0 0 0 [].

(** [render()] (lines 828-840) *)
Definition render (s : state) : state :=
  if negb (root s) then s
  else
    let remaining := if live s then Qmax 0 (timeLeft s - timer s) else 0 in
    emit (Rendered (streak s) (best s)
            (if live s then Some remaining else None)
            (if live s then Some (targetIndex s) else None)) s.

Definition refreshMenuBadges (s : state) : state := emit Badges s.

(** [saveBest()] (lines 752-755) *)
Definition saveBest (s : state) : state :=
  let s := set_best (Z.max (best s) (streak s)) s in
  emit (StoreSet KEY (best s)) s.

(** [newTarget()] (lines 757-763), on the value [r] of [Math.random()]. *)
Definition newTarget (r : Q) (s : state) : state :=
  let next := Qfloor (r * 4) in
  let s := set_targetIndex next s in
  let s := set_timer 0 s in
  let s := set_timeLeft
             (Js.clamp (1.55 - inject_Z (streak s) * 0.03) 0.55 1.55) s in
  render s.

(** [end()] (lines 779-784) *)
Definition end_ (s : state) : state :=
  let s := set_live false s in
  let s := saveBest s in
  let s := render s in
  refreshMenuBadges s.

(** [hit(i)] (lines 765-777); [r] is the value of [Math.random()] a new
    target would use. *)
Definition hit (i : Z) (r : Q) (s : state) : state :=
  if negb (live s) || paused s then s
  else if Z.eqb i (targetIndex s) then
    let s := set_streak (streak s + 1) s in
    let s := emit (Msg "Perfect.") s in
    newTarget r s
  else
    let s := emit (Msg "Miss.") s in
    end_ s.

(** [start()] (lines 786-792) and [restart()] (lines 794-796) *)
Definition start (r : Q) (s : state) : state :=
  let s := set_live true s in
  let s := set_streak 0 s in
  let s := emit (Msg "Focus.") s in
  let s := newTarget r s in
  render s.

Definition restart (r : Q) (s : state) : state := start r s.

(** [togglePause()] (lines 798-801) *)
Definition togglePause (s : state) : state := set_paused (negb (paused s)) s.

(** [onKey(e)] (lines 803-809) for a key of [keys] at index [idx], and for
    [Enter]. *)
Definition keyPad (idx : Z) (r : Q) (s : state) : state := hit idx r s.
Definition keyEnter (r : Q) (s : state) : state :=
  if negb (live s) then start r s else s.

(** The time step of a frame (lines 813-814). *)
Definition frame_dt (t : Q) (s : state) : Q :=
  let prev := if Js.falsy (last s) then t else last s in
  Qmin 0.05 ((t - prev) / 1000).

(** The countdown of a frame (lines 819-825). *)
Definition countdown (dt : Q) (s : state) : state :=
  let s := set_timer (timer s + dt) s in
  if Js.geb (timer s) (timeLeft s) then
    let s := emit (Msg "Too slow.") s in
    end_ s
  else render s.

(** [loop(t)] (lines 811-826) *)
Definition loop (t : Q) (s : state) : state :=
  let s := emit RequestFrame s in
  let dt := frame_dt t s in
  let s := set_last t s in
  if negb (live s) || paused s then s
  else countdown dt s.

(** [mount(host)] (lines 842-904), past the construction of the DOM, and
    [unmount()] (lines 906-912). *)
Definition mount (s : state) : state :=
  let s := set_root true s in
  let s := set_paused false s in
  let s := set_live false s in
  let s := set_last 0 s in
  let s := emit CancelFrame s in
  let s := emit RequestFrame s in
  render s.

Definition unmount (s : state) : state :=
  let s := emit CancelFrame s in
  set_root false s.

(** What can happen to a mounted engine. *)
Inductive event : Type :=
| Frame (t : Q)
| Pad (i : Z) (r : Q)
| PressEnter (r : Q)
| PressRestart (r : Q)
| PressPause.

Definition step (e : event) (s : state) : state :=
  match e with
  | Frame t => loop t s
  | Pad i r => hit i r s
  | PressEnter r => keyEnter r s
  | PressRestart r => restart r s
  | PressPause => togglePause s
  end.

Definition run (es : list event) (s : state) : state :=
  fold_left (fun s e => step e s) es s.

(** How many times the DOM was rendered. *)
Fixpoint renders (log : list effect) : nat :=
  match log with
  | [] => 0
  | Rendered _ _ _ _ :: older => S (renders older)
  | _ :: older => renders older
  end.

(** The response window at a streak:
    [clamp(1.55 - streak * 0.03, 0.55, 1.55)]. *)
Definition window (n : Z) : Q := Js.clamp (1.55 - inject_Z n * 0.03) 0.55 1.55.

(** While the session is live, the window in force is the one of the
    current streak. *)
Definition tuned (s : state) : Prop :=
  live s = true -> timeLeft s = window (streak s).

(** *** Facts about the helpers *)

Lemma render_keeps (s : state) :
  best (render s) = best s /\ root (render s) = root s /\
  paused (render s) = paused s /\ live (render s) = live s /\
  streak (render s) = streak s /\ timeLeft (render s) = timeLeft s /\
  timer (render s) = timer s /\ targetIndex (render s) = targetIndex s /\
  last (render s) = last s.
Proof. unfold render. destruct (root s) eqn:E; cbn; solve_fields. Qed.

Lemma render_renders (s : state) :
  renders (out (render s)) = if root s then S (renders (out s)) else renders (out s).
Proof. unfold render. destruct (root s); reflexivity. Qed.

#[local] Arguments render : simpl never.

Lemma newTarget_fields (r : Q) (s : state) :
  timeLeft (newTarget r s) = window (streak s) /\
  streak (newTarget r s) = streak s /\ live (newTarget r s) = live s /\
  paused (newTarget r s) = paused s /\ best (newTarget r s) = best s /\
  timer (newTarget r s) = 0 /\ targetIndex (newTarget r s) = Qfloor (r * 4) /\
  last (newTarget r s) = last s /\ root (newTarget r s) = root s.
Proof.
  unfold newTarget.
  match goal with |- context [render ?x] =>
    destruct (render_keeps x) as (-> & -> & -> & -> & -> & -> & -> & -> & ->) end.
  cbn. solve_fields.
Qed.

Lemma end_fields (s : state) :
  live (end_ s) = false /\ best (end_ s) = Z.max (best s) (streak s) /\
  streak (end_ s) = streak s /\ paused (end_ s) = paused s /\
  timeLeft (end_ s) = timeLeft s /\ timer (end_ s) = timer s /\
  targetIndex (end_ s) = targetIndex s /\ last (end_ s) = last s /\
  root (end_ s) = root s.
Proof.
  unfold end_, refreshMenuBadges, emit.
  cbn [live best streak paused timeLeft timer targetIndex last root set_out].
  match goal with |- context [render ?x] =>
    destruct (render_keeps x) as (-> & -> & -> & -> & -> & -> & -> & -> & ->) end.
  cbn. solve_fields.
Qed.

#[local] Arguments newTarget : simpl never.
#[local] Arguments end_ : simpl never.

Lemma window_bounds (n : Z) : 0.55 <= window n /\ window n <= 1.55.
Proof. unfold window. apply Js.clamp_bounds. lra. Qed.

Lemma window_floor (n : Z) : (40 <= n)%Z -> window n = 0.55.
Proof.
  intros Hn. unfold window. apply Js.clamp_low; [lra|].
  assert (H40 : 40 <= inject_Z n)
    by (change 40 with (inject_Z 40); now apply Js.inject_Z_le).
  lra.
Qed.

Lemma hit_ignored_when_idle (i : Z) (r : Q) (s : state) :
  live s = false \/ paused s = true -> hit i r s = s.
Proof.
  intros [Hl | Hp]; unfold hit.
  - now rewrite Hl.
  - rewrite Hp. now rewrite orb_true_r.
Qed.

Lemma hit_correct (r : Q) (s : state) :
  live s = true -> paused s = false ->
  hit (targetIndex s) r s =
  newTarget r (emit (Msg "Perfect.") (set_streak (streak s + 1) s)).
Proof.
  intros Hl Hp. unfold hit. rewrite Hl, Hp, Z.eqb_refl. reflexivity.
Qed.

Lemma hit_wrong (i : Z) (r : Q) (s : state) :
  live s = true -> paused s = false -> i <> targetIndex s ->
  hit i r s = end_ (emit (Msg "Miss.") s).
Proof.
  intros Hl Hp Hi. unfold hit. rewrite Hl, Hp.
  apply Z.eqb_neq in Hi. rewrite Hi. reflexivity.
Qed.

Lemma start_fields (r : Q) (s : state) :
  live (start r s) = true /\ streak (start r s) = 0%Z /\
  timeLeft (start r s) = window 0.
Proof.
  unfold start.
  match goal with |- context [render ?x] =>
    destruct (render_keeps x) as (_ & _ & _ & -> & -> & -> & _) end.
  match goal with |- context [newTarget r ?x] =>
    destruct (newTarget_fields r x) as (-> & -> & -> & _) end.
  cbn. solve_fields.
Qed.

Lemma hit_tuned (i : Z) (r : Q) (s : state) : tuned s -> tuned (hit i r s).
Proof.
  intros Ht. destruct (live s) eqn:Hl; [destruct (paused s) eqn:Hp|].
  - rewrite hit_ignored_when_idle by now right. exact Ht.
  - destruct (Z.eq_dec i (targetIndex s)) as [-> | Hi].
    + rewrite (hit_correct r s Hl Hp). intros _.
      match goal with |- context [newTarget r ?x] =>
        destruct (newTarget_fields r x) as (-> & -> & _) end.
      reflexivity.
    + rewrite (hit_wrong i r s Hl Hp Hi). intros Hlive.
      match type of Hlive with context [end_ ?x] =>
        destruct (end_fields x) as (E & _) end.
      congruence.
  - rewrite hit_ignored_when_idle by now left. exact Ht.
Qed.

Lemma start_tuned (r : Q) (s : state) : tuned (start r s).
Proof.
  intros _. destruct (start_fields r s) as (_ & -> & ->). reflexivity.
Qed.

Lemma loop_tuned (t : Q) (s : state) : tuned s -> tuned (loop t s).
Proof.
  intros Ht. unfold loop.
  cbn [live paused set_last emit set_out].
  destruct (negb (live s) || paused s) eqn:Hg; [exact Ht|].
  unfold countdown.
  match goal with |- context [Js.geb ?a ?b] => destruct (Js.geb a b) end.
  - intros Hlive.
    match type of Hlive with context [end_ ?x] =>
      destruct (end_fields x) as (E & _) end.
    congruence.
  - unfold tuned.
    match goal with |- context [render ?x] =>
      destruct (render_keeps x) as (_ & _ & _ & -> & -> & -> & _) end.
    exact Ht.
Qed.

Lemma step_tuned (e : event) (s : state) : tuned s -> tuned (step e s).
Proof.
  intros Ht. destruct e as [t | i r | r | r | ]; cbn [step].
  - now apply loop_tuned.
  - now apply hit_tuned.
  - unfold keyEnter. destruct (negb (live s)); [apply start_tuned | exact Ht].
  - apply start_tuned.
  - exact Ht.
Qed.

Lemma run_tuned (es : list event) : forall s : state, tuned s -> tuned (run es s).
Proof.
  induction es as [|e rest IH]; intros s Ht; [exact Ht|].
  change (run (e :: rest) s) with (run rest (step e s)).
  apply IH. now apply step_tuned.
Qed.

(** A mounted engine, and a live session on it at a given streak. *)
Definition fresh : state := mount (init 0).
Definition liveAt (n : Z) : state := set_streak n (start 0.3 fresh).

(** *** The response window *)

(** C8.  [newTarget] sets the response window to
    [clamp(1.55 - streak * 0.03, 0.55, 1.55)] of the current streak; so a
    correct input on a live session, which raises the streak by one, sets
    it from the raised streak, and along any run a live session has the
    window of its streak.  The window lies between 0.55 and 1.55, and from
    a streak of 40 on it is exactly 0.55. *)
Theorem response_window_clamped :
  (forall (r : Q) (s : state),
     timeLeft (newTarget r s) =
     Js.clamp (1.55 - inject_Z (streak s) * 0.03) 0.55 1.55) /\
  (forall (r : Q) (s : state),
     live s = true -> paused s = false ->
     streak (hit (targetIndex s) r s) = (streak s + 1)%Z /\
     timeLeft (hit (targetIndex s) r s) = window (streak s + 1)) /\
  (forall (es : list event) (s : state), tuned s -> tuned (run es s)) /\
  (forall n : Z, 0.55 <= window n /\ window n <= 1.55) /\
  (forall n : Z, (40 <= n)%Z -> window n = 0.55) /\
  (forall (r : Q) (s : state),
     (40 <= streak s)%Z -> timeLeft (newTarget r s) = 0.55).
Proof.
  split; [intros r s; now destruct (newTarget_fields r s) as (-> & _)|].
  split.
  { intros r s Hl Hp. rewrite (hit_correct r s Hl Hp).
    match goal with |- context [newTarget r ?x] =>
      destruct (newTarget_fields r x) as (-> & -> & _) end.
    split; reflexivity. }
  split; [exact run_tuned|].
  split; [exact window_bounds|].
  split; [exact window_floor|].
  intros r s Hn. destruct (newTarget_fields r s) as (-> & _).
  now apply window_floor.
Qed.

(** The fortieth correct input in a row: the window drops to 0.55. *)
Lemma response_window_clamped_witness :
  live (liveAt 39) = true /\ paused (liveAt 39) = false /\
  streak (hit (targetIndex (liveAt 39)) 0.7 (liveAt 39)) = 40%Z /\
  timeLeft (hit (targetIndex (liveAt 39)) 0.7 (liveAt 39)) = 0.55 /\
  timeLeft (start 0.3 fresh) == 1.55.
Proof.
  destruct response_window_clamped as (_ & Hhit & Hrun & _ & Hfloor & _).
  assert (Hl : live (liveAt 39) = true) by (vm_compute; reflexivity).
  assert (Hp : paused (liveAt 39) = false) by (vm_compute; reflexivity).
  destruct (Hhit 0.7 (liveAt 39) Hl Hp) as (Hs & Ht).
  split; [exact Hl|]. split; [exact Hp|].
  split; [rewrite Hs; vm_compute; reflexivity|].
  split; [rewrite Ht; apply Hfloor; vm_compute; discriminate|].
  assert (Hfresh : tuned fresh)
    by (intros Hlive; vm_compute in Hlive; discriminate Hlive).
  assert (Hstart : run [PressEnter 0.3] fresh = start 0.3 fresh)
    by (vm_compute; reflexivity).
  assert (Hlive : live (start 0.3 fresh) = true) by (vm_compute; reflexivity).
  pose proof (Hrun [PressEnter 0.3] fresh Hfresh) as Htuned.
  rewrite Hstart in Htuned.
  rewrite (Htuned Hlive). vm_compute. reflexivity.
Defined.

(** *** Input outside a running session *)

(** C10.  A target-select input that arrives while the session is not
    live or is paused changes nothing: streak, target, timer, window, the
    live flag and the best are as before, and nothing is rendered, saved or
    announced (the log of outgoing calls is as before). *)
Theorem input_ignored_when_idle (i : Z) (r : Q) (s : state) :
  live s = false \/ paused s = true ->
  hit i r s = s /\
  streak (hit i r s) = streak s /\
  targetIndex (hit i r s) = targetIndex s /\
  timer (hit i r s) = timer s /\
  timeLeft (hit i r s) = timeLeft s /\
  live (hit i r s) = live s /\
  best (hit i r s) = best s /\
  out (hit i r s) = out s.
Proof.
  intros Hidle. rewrite (hit_ignored_when_idle i r s Hidle). solve_fields.
Qed.

(** A wrong pad pressed on a paused live session, and any pad pressed
    before the first start. *)
Lemma input_ignored_when_idle_witness :
  paused (togglePause (liveAt 3)) = true /\
  live (togglePause (liveAt 3)) = true /\
  hit (targetIndex (liveAt 3) + 1) 0.5 (togglePause (liveAt 3)) =
  togglePause (liveAt 3) /\
  hit 2 0.5 fresh = fresh.
Proof.
  assert (Hp : paused (togglePause (liveAt 3)) = true)
    by (vm_compute; reflexivity).
  assert (Hl : live fresh = false) by (vm_compute; reflexivity).
  split; [exact Hp|]. split; [vm_compute; reflexivity|]. split.
  - apply (input_ignored_when_idle _ 0.5 (togglePause (liveAt 3))).
    right. exact Hp.
  - apply (input_ignored_when_idle 2 0.5 fresh). left. exact Hl.
Defined.

End React.

(** ** The frame loops of the three engines *)

(** The time step all three loops compute from the timestamp [t] of the
    frame and the timestamp kept from the frame before. *)
Definition clampedStep (t kept : Q) : Q :=
  Qmin 0.05 ((t - (if Js.falsy kept then t else kept)) / 1000).

Lemma clampedStep_kept (t kept : Q) :
  ~ kept == 0 -> clampedStep t kept = Qmin 0.05 ((t - kept) / 1000).
Proof.
  intros Hk. unfold clampedStep.
  destruct (Js.falsy kept) eqn:E; [|reflexivity].
  apply Js.falsy_eq in E. contradiction.
Qed.

Lemma clampedStep_first (t kept : Q) : kept == 0 -> clampedStep t kept == 0.
Proof.
  intros Hk. unfold clampedStep. apply Js.falsy_eq in Hk. rewrite Hk.
  assert (Hz : (t - t) / 1000 == 0) by field.
  apply Qeq_trans with ((t - t) / 1000); [|exact Hz].
  apply Q.min_r. rewrite Hz. discriminate.
Qed.

Lemma clampedStep_stalled (t kept : Q) :
  ~ kept == 0 -> t - kept == 5000 -> clampedStep t kept == 0.05.
Proof.
  intros Hk He. rewrite (clampedStep_kept t kept Hk).
  rewrite Js.min_left; [reflexivity|].
  rewrite He. vm_compute. discriminate.
Qed.

(** *** BYTE RUNNER paints on every frame *)

Lemma runner_draw_paints (dt : Q) (s : Runner.state) :
  Runner.ctx s = true ->
  exists sc b ov, Runner.out (Runner.draw dt s) = Runner.Painted sc b ov :: Runner.out s.
Proof.
  intros Hc. unfold Runner.draw. rewrite Hc. cbn. eauto.
Qed.

Lemma runner_collide_log (os : list Runner.obstacle) (w : Runner.state) :
  Runner.ctx (Runner.collide os w) = Runner.ctx w /\
  Runner.paints (Runner.out (Runner.collide os w)) = Runner.paints (Runner.out w).
Proof.
  destruct (Runner.collide_cases os w) as [[_ ->] | [_ ->]]; split; reflexivity.
Qed.

Lemma runner_update_log (dt : Q) (r : Runner.rand) (s : Runner.state) :
  Runner.ctx (Runner.update dt r s) = Runner.ctx s /\
  Runner.paints (Runner.out (Runner.update dt r s)) = Runner.paints (Runner.out s).
Proof.
  destruct (Runner.alive s) eqn:Ha.
  - destruct (Runner.simulate_frame dt r s) as (_ & _ & Wo & _ & _ & _ & Wc & _).
    rewrite (Runner.update_alive dt r s Ha).
    destruct (runner_collide_log (Runner.obstacles (Runner.simulate dt r s))
                (Runner.simulate dt r s)) as (Hc & Hp).
    rewrite Hc, Hp, Wc, Wo. split; reflexivity.
  - rewrite (Runner.update_dead dt r s Ha). split; reflexivity.
Qed.

Lemma runner_loop_paints (t : Q) (r : Runner.rand) (s : Runner.state) :
  Runner.ctx s = true ->
  (exists sc b ov older,
     Runner.out (Runner.loop t r s) = Runner.Painted sc b ov :: older) /\
  Runner.paints (Runner.out (Runner.loop t r s)) = S (Runner.paints (Runner.out s)).
Proof.
  intros Hc. unfold Runner.loop.
  destruct (Runner.running s); cbn [negb].
  - set (s1 := Runner.set_lastT t (Runner.emit Runner.RequestFrame s)).
    set (dt := Runner.frame_dt t (Runner.emit Runner.RequestFrame s)).
    set (s2 := if negb (Runner.paused s1) && Runner.alive s1
               then Runner.update dt r s1 else s1).
    assert (H2 : Runner.ctx s2 = true /\
                 Runner.paints (Runner.out s2) = Runner.paints (Runner.out s)).
    { subst s2. destruct (negb (Runner.paused s1) && Runner.alive s1).
      - destruct (runner_update_log dt r s1) as (-> & ->). split; [exact Hc | reflexivity].
      - split; [exact Hc | reflexivity]. }
    destruct H2 as [Hc2 Hp2].
    destruct (runner_draw_paints dt s2 Hc2) as (sc & b & ov & ->).
    split; [eauto|]. cbn [Runner.paints]. now rewrite Hp2.
  - destruct (runner_draw_paints 0 s Hc) as (sc & b & ov & ->).
    split; [eauto | reflexivity].
Qed.

(** A frame on a paused or dead session skips [update]. *)
Lemma runner_loop_frozen (t : Q) (r : Runner.rand) (s : Runner.state) :
  Runner.running s = true ->
  Runner.paused s = true \/ Runner.alive s = false ->
  Runner.loop t r s =
  Runner.draw (Runner.frame_dt t s)
    (Runner.set_lastT t (Runner.emit Runner.RequestFrame s)).
Proof.
  intros Hr Hf. unfold Runner.loop. rewrite Hr. cbn [negb].
  cbn [Runner.paused Runner.alive Runner.set_lastT Runner.emit Runner.set_out].
  destruct Hf as [-> | ->]; [reflexivity | now rewrite andb_false_r].
Qed.

Lemma runner_frozen_log (t : Q) (r : Runner.rand) (s : Runner.state) :
  Runner.ctx s = true -> Runner.running s = true ->
  Runner.paused s = true \/ Runner.alive s = false ->
  Runner.out (Runner.loop t r s) =
  Runner.Painted (Qfloor (Runner.score s)) (Runner.best s)
    (if Runner.alive s then Runner.PausedOverlay else Runner.GameOverOverlay)
  :: Runner.RequestFrame :: Runner.out s.
Proof.
  intros Hc Hr Hf. rewrite (runner_loop_frozen t r s Hr Hf).
  unfold Runner.draw.
  cbn [Runner.ctx Runner.alive Runner.paused Runner.score Runner.best Runner.out
       Runner.set_lastT Runner.emit Runner.set_out].
  rewrite Hc. cbn [negb].
  destruct Hf as [Hp | Ha].
  - rewrite Hp. destruct (Runner.alive s); reflexivity.
  - rewrite Ha. reflexivity.
Qed.

(** The variables of the simulation are the same in [s] and [s']. *)
Definition runnerFrozen (s s' : Runner.state) : Prop :=
  Runner.distance s' = Runner.distance s /\
  Runner.speed s' = Runner.speed s /\
  Runner.score s' = Runner.score s /\
  Runner.obstacles s' = Runner.obstacles s /\
  Runner.spawnTimer s' = Runner.spawnTimer s /\
  Runner.spawnEvery s' = Runner.spawnEvery s /\
  Runner.playerLane s' = Runner.playerLane s /\
  Runner.alive s' = Runner.alive s /\
  Runner.best s' = Runner.best s /\
  Runner.paused s' = Runner.paused s /\
  Runner.running s' = Runner.running s.

Lemma runner_frozen_fields (t : Q) (r : Runner.rand) (s : Runner.state) :
  Runner.running s = true ->
  Runner.paused s = true \/ Runner.alive s = false ->
  runnerFrozen s (Runner.loop t r s) /\ Runner.lastT (Runner.loop t r s) = t.
Proof.
  intros Hr Hf. rewrite (runner_loop_frozen t r s Hr Hf).
  destruct (Runner.draw_fields (Runner.frame_dt t s)
              (Runner.set_lastT t (Runner.emit Runner.RequestFrame s)))
    as (E1 & E2 & E3 & E4 & E5 & E6 & E7 & E8 & E9 & E10 & E11 & E12 & _).
  unfold runnerFrozen.
  rewrite E1, E2, E3, E4, E5, E6, E7, E8, E9, E10, E11, E12.
  repeat apply conj; reflexivity.
Qed.

Lemma clicker_loop_paused (t : Q) (s : Clicker.engine) :
  Clicker.paused s = true ->
  Clicker.loop t s = Clicker.with_last t (Clicker.emit Clicker.RequestFrame s).
Proof.
  intros Hp. unfold Clicker.loop.
  cbn [Clicker.paused Clicker.with_last Clicker.emit Clicker.with_out].
  now rewrite Hp.
Qed.

Lemma react_loop_idle (t : Q) (s : React.state) :
  React.live s = false \/ React.paused s = true ->
  React.loop t s = React.set_last t (React.emit React.RequestFrame s).
Proof.
  intros Hi. unfold React.loop.
  cbn [React.live React.paused React.set_last React.emit React.set_out].
  destruct Hi as [-> | ->]; [reflexivity | now rewrite orb_true_r].
Qed.

(** A live, paused, mounted session of GLITCH REACT, and a paused, mounted
    NEON CLICKER. *)
Definition reactPaused : React.state :=
  React.togglePause (React.start 0.3 React.fresh).
Definition clickerPaused : Clicker.engine := Clicker.togglePause Clicker.fresh.

(** C1, as stated, fails for two of the three engines: a frame of GLITCH
    REACT on a paused session, and a frame of NEON CLICKER on a paused
    engine, return before any render.  Both engines are mounted here, and
    the number of renders after the frame is the number before it. *)
Lemma paused_frame_renders_nothing :
  React.root reactPaused = true /\
  React.paused reactPaused = true /\
  React.renders (React.out (React.loop 16 reactPaused)) =
  React.renders (React.out reactPaused) /\
  ~ (React.renders (React.out reactPaused) <
     React.renders (React.out (React.loop 16 reactPaused)))%nat /\
  Clicker.root clickerPaused = true /\
  Clicker.paused clickerPaused = true /\
  ~ (Clicker.renders (Clicker.out clickerPaused) <
     Clicker.renders (Clicker.out (Clicker.loop 16 clickerPaused)))%nat.
Proof.
  assert (Hr : React.renders (React.out (React.loop 16 reactPaused)) =
               React.renders (React.out reactPaused))
    by (vm_compute; reflexivity).
  assert (Hc : Clicker.renders (Clicker.out (Clicker.loop 16 clickerPaused)) =
               Clicker.renders (Clicker.out clickerPaused))
    by (vm_compute; reflexivity).
  split; [vm_compute; reflexivity|].
  split; [vm_compute; reflexivity|].
  split; [exact Hr|].
  split; [rewrite Hr; apply Nat.lt_irrefl|].
  split; [vm_compute; reflexivity|].
  split; [vm_compute; reflexivity|].
  rewrite Hc. apply Nat.lt_irrefl.
Qed.

(** C1, amended.  In BYTE RUNNER every frame paints the canvas exactly
    once, as the last thing it does, whether or not [update] ran; on a
    frame of a running session that is paused or dead no variable of the
    simulation changes (the frame only records its timestamp and asks for
    the next frame), and what is painted is the paused or game-over
    overlay; on a frame of an engine that is not running the frame is
    [draw(0)] and nothing else.  In NEON CLICKER a frame on a paused engine, and in GLITCH
    REACT a frame on a session that is paused or not live, only records
    its timestamp and asks for the next frame: it renders nothing and
    changes no other variable. *)
Theorem frame_render_by_engine :
  (forall (t : Q) (r : Runner.rand) (s : Runner.state),
     Runner.ctx s = true ->
     (exists sc b ov older,
        Runner.out (Runner.loop t r s) = Runner.Painted sc b ov :: older) /\
     Runner.paints (Runner.out (Runner.loop t r s)) =
     S (Runner.paints (Runner.out s))) /\
  (forall (t : Q) (r : Runner.rand) (s : Runner.state),
     Runner.running s = true ->
     Runner.paused s = true \/ Runner.alive s = false ->
     runnerFrozen s (Runner.loop t r s) /\
     Runner.lastT (Runner.loop t r s) = t /\
     (Runner.ctx s = true ->
      Runner.out (Runner.loop t r s) =
      Runner.Painted (Qfloor (Runner.score s)) (Runner.best s)
        (if Runner.alive s then Runner.PausedOverlay else Runner.GameOverOverlay)
      :: Runner.RequestFrame :: Runner.out s)) /\
  (forall (t : Q) (r : Runner.rand) (s : Runner.state),
     Runner.running s = false -> Runner.loop t r s = Runner.draw 0 s) /\
  (forall (t : Q) (s : Clicker.engine),
     Clicker.paused s = true ->
     Clicker.loop t s = Clicker.with_last t (Clicker.emit Clicker.RequestFrame s) /\
     Clicker.renders (Clicker.out (Clicker.loop t s)) =
     Clicker.renders (Clicker.out s)) /\
  (forall (t : Q) (s : React.state),
     React.live s = false \/ React.paused s = true ->
     React.loop t s = React.set_last t (React.emit React.RequestFrame s) /\
     React.renders (React.out (React.loop t s)) = React.renders (React.out s)).
Proof.
  split; [exact runner_loop_paints|].
  split.
  { intros t r s Hr Hf. destruct (runner_frozen_fields t r s Hr Hf) as [Hz Hl].
    split; [exact Hz|]. split; [exact Hl|].
    intros Hc. now apply runner_frozen_log. }
  split; [intros t r s Hr; unfold Runner.loop; now rewrite Hr|].
  split.
  - intros t s Hp. rewrite (clicker_loop_paused t s Hp). split; reflexivity.
  - intros t s Hi. rewrite (react_loop_idle t s Hi). split; reflexivity.
Qed.

(** A paused BYTE RUNNER at score 57.5. *)
Definition runnerPaused : Runner.state :=
  Runner.togglePause (Runner.set_score 57.5 Runner.fresh).

(** A frame on that session paints the paused overlay and keeps the
    score; a frame on the paused GLITCH REACT session renders nothing. *)
Lemma frame_render_by_engine_witness :
  Runner.ctx runnerPaused = true /\
  Runner.running runnerPaused = true /\
  Runner.paused runnerPaused = true /\
  Runner.out (Runner.loop 16 Runner.someRand runnerPaused) =
  Runner.Painted 57 0 Runner.PausedOverlay
  :: Runner.RequestFrame :: Runner.out runnerPaused /\
  Runner.score (Runner.loop 16 Runner.someRand runnerPaused) =
  Runner.score runnerPaused /\
  React.renders (React.out (React.loop 16 reactPaused)) =
  React.renders (React.out reactPaused).
Proof.
  destruct frame_render_by_engine as (_ & Hfrozen & _ & _ & Hreact).
  assert (Hc : Runner.ctx runnerPaused = true) by (vm_compute; reflexivity).
  assert (Hr : Runner.running runnerPaused = true) by (vm_compute; reflexivity).
  assert (Hp : Runner.paused runnerPaused = true) by (vm_compute; reflexivity).
  assert (Hq : React.paused reactPaused = true) by (vm_compute; reflexivity).
  destruct (Hfrozen 16 Runner.someRand runnerPaused Hr (or_introl Hp))
    as ((_ & _ & Hscore & _) & _ & Hlog).
  destruct (Hreact 16 reactPaused (or_intror Hq)) as (_ & Hsame).
  split; [exact Hc|]. split; [exact Hr|]. split; [exact Hp|].
  split; [|split; [exact Hscore | exact Hsame]].
  rewrite (Hlog Hc). vm_compute. reflexivity.
Defined.

(** *** The time step of a frame *)

Lemma runner_loop_updates (t : Q) (r : Runner.rand) (s : Runner.state) :
  Runner.running s = true -> Runner.paused s = false -> Runner.alive s = true ->
  Runner.loop t r s =
  Runner.draw (Runner.frame_dt t s)
    (Runner.update (Runner.frame_dt t s) r
       (Runner.set_lastT t (Runner.emit Runner.RequestFrame s))).
Proof.
  intros Hr Hp Ha. unfold Runner.loop. rewrite Hr. cbn [negb].
  cbn [Runner.paused Runner.alive Runner.set_lastT Runner.emit Runner.set_out].
  rewrite Hp, Ha. reflexivity.
Qed.

Lemma clicker_loop_earns (t : Q) (s : Clicker.engine) :
  Clicker.paused s = false ->
  Clicker.loop t s =
  Clicker.passive (Clicker.frame_dt t s)
    (Clicker.with_last t (Clicker.emit Clicker.RequestFrame s)).
Proof.
  intros Hp. unfold Clicker.loop.
  cbn [Clicker.paused Clicker.with_last Clicker.emit Clicker.with_out].
  now rewrite Hp.
Qed.

Lemma react_loop_counts (t : Q) (s : React.state) :
  React.live s = true -> React.paused s = false ->
  React.loop t s =
  React.countdown (React.frame_dt t s)
    (React.set_last t (React.emit React.RequestFrame s)).
Proof.
  intros Hl Hp. unfold React.loop.
  cbn [React.live React.paused React.set_last React.emit React.set_out].
  now rewrite Hl, Hp.
Qed.

(** A BYTE RUNNER whose last frame came at 1000 ms and which was then
    restarted. *)
Definition runnerRestarted : Runner.state :=
  Runner.reset (Runner.loop 1000 Runner.someRand Runner.fresh).

(** C9, as stated, fails on the first frame after a restart of BYTE
    RUNNER: [reset] clears [lastT], so the frame at 6000 ms, 5000 ms after
    the frame at 1000 ms, runs [update] with a time step of 0 and not of
    0.05. *)
Lemma restart_forgets_last_frame :
  Runner.lastT (Runner.loop 1000 Runner.someRand Runner.fresh) = 1000 /\
  Runner.loop 6000 Runner.someRand runnerRestarted =
  Runner.draw (Runner.frame_dt 6000 runnerRestarted)
    (Runner.update (Runner.frame_dt 6000 runnerRestarted) Runner.someRand
       (Runner.set_lastT 6000 (Runner.emit Runner.RequestFrame runnerRestarted))) /\
  Runner.frame_dt 6000 runnerRestarted == 0 /\
  ~ Runner.frame_dt 6000 runnerRestarted == Qmin 0.05 ((6000 - 1000) / 1000).
Proof.
  assert (Hdt : Runner.frame_dt 6000 runnerRestarted == 0)
    by (vm_compute; reflexivity).
  split; [vm_compute; reflexivity|].
  split; [apply runner_loop_updates; vm_compute; reflexivity|].
  split; [exact Hdt|].
  rewrite Hdt. vm_compute. discriminate.
Qed.

(** C9, amended.  In each engine the time step of a frame is computed from
    the timestamp [t] of the frame and the timestamp the engine kept from
    the frame before.  When one is kept (it is not 0) the step is
    [min(0.05, (t - kept) / 1000)], so a frame 5000 ms after the kept
    timestamp gets exactly 0.05; when none is kept (the first frame after
    mounting, and in BYTE RUNNER the first frame after a restart) the step
    is 0.  That step is what [update], the passive income and the countdown
    receive on a frame that runs them. *)
Theorem frame_step_clamped (t : Q) :
  (forall s, Runner.frame_dt t s = clampedStep t (Runner.lastT s)) /\
  (forall s, Clicker.frame_dt t s = clampedStep t (Clicker.last s)) /\
  (forall s, React.frame_dt t s = clampedStep t (React.last s)) /\
  (forall kept, ~ kept == 0 ->
     clampedStep t kept = Qmin 0.05 ((t - kept) / 1000)) /\
  (forall kept, ~ kept == 0 -> t - kept == 5000 -> clampedStep t kept == 0.05) /\
  (forall kept, kept == 0 -> clampedStep t kept == 0) /\
  (forall r s,
     Runner.running s = true -> Runner.paused s = false -> Runner.alive s = true ->
     Runner.loop t r s =
     Runner.draw (Runner.frame_dt t s)
       (Runner.update (Runner.frame_dt t s) r
          (Runner.set_lastT t (Runner.emit Runner.RequestFrame s)))) /\
  (forall s,
     Clicker.paused s = false ->
     Clicker.loop t s =
     Clicker.passive (Clicker.frame_dt t s)
       (Clicker.with_last t (Clicker.emit Clicker.RequestFrame s))) /\
  (forall s,
     React.live s = true -> React.paused s = false ->
     React.loop t s =
     React.countdown (React.frame_dt t s)
       (React.set_last t (React.emit React.RequestFrame s))).
Proof.
  split; [reflexivity|]. split; [reflexivity|]. split; [reflexivity|].
  split; [intros kept; apply clampedStep_kept|].
  split; [intros kept; apply clampedStep_stalled|].
  split; [intros kept; apply clampedStep_first|].
  split; [intros r s; apply runner_loop_updates|].
  split; [intros s; apply clicker_loop_earns | intros s; apply react_loop_counts].
Qed.

(** A BYTE RUNNER whose last frame came at 1000 ms, not restarted. *)
Definition runnerStalled : Runner.state :=
  Runner.loop 1000 Runner.someRand Runner.fresh.

(** The frame at 6000 ms on it runs [update] with a step of 0.05. *)
Lemma frame_step_clamped_witness :
  Runner.lastT runnerStalled = 1000 /\
  Runner.frame_dt 6000 runnerStalled == 0.05 /\
  Runner.loop 6000 Runner.someRand runnerStalled =
  Runner.draw (Runner.frame_dt 6000 runnerStalled)
    (Runner.update (Runner.frame_dt 6000 runnerStalled) Runner.someRand
       (Runner.set_lastT 6000 (Runner.emit Runner.RequestFrame runnerStalled))).
Proof.
  destruct (frame_step_clamped 6000) as (Hrun & _ & _ & _ & Hstall & _ & Hupd & _).
  assert (Hl : Runner.lastT runnerStalled = 1000) by (vm_compute; reflexivity).
  split; [exact Hl|]. split.
  - rewrite Hrun, Hl. apply Hstall; vm_compute; [discriminate | reflexivity].
  - apply Hupd; vm_compute; reflexivity.
Defined.

(** * Further properties of the code *)

(** ** The store: keys are independent, and the last write that went
    through is what is read *)

Module StoreFacts.
Import Store.

Section Keys.
Context {V : Type} `{JsonCodec V}.

(** What a [set] leaves behind, whether the write went through or not. *)
Lemma set_cases (ls : localStorage) (k : string) (v : V) :
  (setItem ls k (stringify v) = Throw /\ set ls k v = Normal ls) \/
  (exists ls', setItem ls k (stringify v) = Normal ls' /\
               set ls k v = Normal ls' /\
               enabled ls' = enabled ls /\
               items ls' = <[k := stringify v]> (items ls)).
Proof.
  unfold set, setItem. destruct (enabled ls) eqn:He; [|now left].
  destruct (_ <=? _)%nat; [right | now left].
  eexists. split; [reflexivity|]. split; [reflexivity|].
  split; [cbn; congruence | reflexivity].
Qed.

Lemma get_reads (ls ls' : localStorage) (k : string) (f : V) :
  enabled ls' = enabled ls -> items ls' !! k = items ls !! k ->
  get ls' k f = get ls k f.
Proof.
  intros He Hk. unfold get, getItem. now rewrite He, Hk.
Qed.

(** X1.  A [store.set] on one key, whether it succeeds or fails, changes what
    [store.get] returns for no other key. *)
Theorem set_leaves_other_keys (ls : localStorage) (k k' : string) (v f : V) :
  k <> k' ->
  (ls' ← set ls k v; get ls' k' f) = get ls k' f.
Proof.
  intros Hne. destruct (set_cases ls k v) as [[_ ->] | (ls' & _ & -> & He & Hi)].
  - reflexivity.
  - cbn. apply get_reads; [exact He|]. rewrite Hi. now apply lookup_insert_ne.
Qed.

(** X2.  After a value has been written, a second [store.set] on the same key
    replaces it when its write goes through, and leaves it in place when the
    write fails. *)
Theorem later_set_wins_or_keeps (ls ls1 : localStorage) (k : string) (v1 v2 f : V) :
  setItem ls k (stringify v1) = Normal ls1 ->
  (ls2 ← set ls1 k v2; get ls2 k f) =
  match setItem ls1 k (stringify v2) with
  | Normal _ => Normal v2
  | Throw => Normal v1
  end.
Proof.
  intros Hw1. destruct (setItem_stored _ _ _ _ Hw1) as [He1 Hk1].
  destruct (set_cases ls1 k v2) as [[Hw2 ->] | (ls2 & Hw2 & -> & He & Hi)];
    rewrite Hw2; cbn.
  - now apply get_stored.
  - destruct (setItem_stored _ _ _ _ Hw2) as [He2 Hk2]. now apply get_stored.
Qed.

End Keys.

(** A storage with room for the key of BYTE RUNNER and one digit. *)
Definition tight_storage : localStorage := mkStorage true 15 ∅.

(** Writing the best of GLITCH REACT does not change the best of BYTE
    RUNNER that is read. *)
Lemma set_leaves_other_keys_witness :
  "px_best_react"%string <> "px_best_runner"%string /\
  (ls ← set small_storage "px_best_runner" (JInt 7);
   ls' ← set ls "px_best_react" (JInt 3);
   get ls' "px_best_runner" (JInt 0)) = Normal (JInt 7).
Proof.
  assert (Hne : "px_best_react"%string <> "px_best_runner"%string) by discriminate.
  split; [exact Hne|].
  assert (Hset : set small_storage "px_best_runner" (JInt 7) =
                 Normal (mkStorage true 64 {["px_best_runner"%string := "7"%string]}))
    by (vm_compute; reflexivity).
  rewrite Hset. cbn [mbind completion_bind].
  rewrite (set_leaves_other_keys _ "px_best_react" "px_best_runner"
             (JInt 3) (JInt 0) Hne).
  vm_compute. reflexivity.
Defined.

(** The two storages once 7 is written under the key of BYTE RUNNER. *)
Definition tight_with_7 : localStorage :=
  mkStorage true 15 {["px_best_runner"%string := "7"%string]}.
Definition small_with_7 : localStorage :=
  mkStorage true 64 {["px_best_runner"%string := "7"%string]}.

(** In a storage with room for one digit, 7 is written, the write of 42
    fails, and 7 is read back; with more room 42 replaces 7. *)
Lemma later_set_wins_or_keeps_witness :
  setItem tight_storage "px_best_runner" "7" = Normal tight_with_7 /\
  (ls2 ← set tight_with_7 "px_best_runner" (JInt 42);
   get ls2 "px_best_runner" (JInt 0)) = Normal (JInt 7) /\
  setItem small_storage "px_best_runner" "7" = Normal small_with_7 /\
  (ls2 ← set small_with_7 "px_best_runner" (JInt 42);
   get ls2 "px_best_runner" (JInt 0)) = Normal (JInt 42).
Proof.
  assert (Ht : setItem tight_storage "px_best_runner" (stringify (JInt 7)) =
               Normal tight_with_7) by (vm_compute; reflexivity).
  assert (Hs : setItem small_storage "px_best_runner" (stringify (JInt 7)) =
               Normal small_with_7) by (vm_compute; reflexivity).
  assert (Ht2 : setItem tight_with_7 "px_best_runner" (stringify (JInt 42)) = Throw)
    by (vm_compute; reflexivity).
  assert (Hs2 : exists ls, setItem small_with_7 "px_best_runner"
                             (stringify (JInt 42)) = Normal ls)
    by (eexists; vm_compute; reflexivity).
  pose proof (later_set_wins_or_keeps tight_storage tight_with_7 "px_best_runner"
                (JInt 7) (JInt 42) (JInt 0) Ht) as Etight.
  pose proof (later_set_wins_or_keeps small_storage small_with_7 "px_best_runner"
                (JInt 7) (JInt 42) (JInt 0) Hs) as Esmall.
  rewrite Ht2 in Etight. destruct Hs2 as [ls Hs2]. rewrite Hs2 in Esmall.
  split; [exact Ht|]. split; [exact Etight|]. split; [exact Hs | exact Esmall].
Defined.

End StoreFacts.

(** ** More on the numeric helpers *)

Module JsFacts.

Lemma clamp_high (v a b : Q) : a < b -> b <= v -> Js.clamp v a b = b.
Proof.
  intros Hab Hv. unfold Js.clamp.
  rewrite (Js.min_left b v) by assumption. now apply Js.max_right.
Qed.

Lemma clamp_mid (v a b : Q) : a <= v -> v <= b -> Js.clamp v a b == v.
Proof.
  intros Hav Hvb. unfold Js.clamp.
  rewrite (Q.min_r b v) by assumption. now apply Q.max_r.
Qed.

Lemma clamp_mono (v v' a b : Q) : v <= v' -> Js.clamp v a b <= Js.clamp v' a b.
Proof.
  intros Hv. unfold Js.clamp.
  apply Q.max_le_compat_l. now apply Q.min_le_compat_l.
Qed.

(** Values of [Math.random()] lie in [[0, 1)]. *)
Definition unit (r : Q) : Prop := 0 <= r /\ r < 1.

Lemma floor_below (x : Q) (n : Z) : x < inject_Z n -> (Qfloor x < n)%Z.
Proof. intros Hx. pose proof (Qfloor_le x). rewrite Zlt_Qlt. lra. Qed.

Lemma floor_nonneg (x : Q) : 0 <= x -> (0 <= Qfloor x)%Z.
Proof.
  intros Hx. change 0%Z with (Qfloor (inject_Z 0)). now apply Qfloor_resp_le.
Qed.

(** [Math.floor(r * n)] for [r] in [[0, 1)] is one of [0 .. n-1]. *)
Lemma floor_unit_scaled (r : Q) (n : Z) :
  0 <= r -> r < 1 -> (0 < n)%Z ->
  (0 <= Qfloor (r * inject_Z n) <= n - 1)%Z.
Proof.
  intros H0 H1 Hn.
  assert (Hq : 0 < inject_Z n)
    by (change 0 with (inject_Z 0); now rewrite <- Zlt_Qlt).
  split.
  - apply floor_nonneg. nra.
  - assert (Qfloor (r * inject_Z n) < n)%Z by (apply floor_below; nra). lia.
Qed.

(** X3.  [clamp(v, a, b)] is never below [a]; with [a <= b] it lies in
    [[a, b]] and is [v] itself when [v] does; with the bounds crossed it is
    [a] whatever [v] is.  Clamping twice is clamping once. *)
Theorem clamp_lower_bound_wins (v a b : Q) :
  a <= Js.clamp v a b /\
  (a <= b -> Js.clamp v a b <= b) /\
  (a <= v -> v <= b -> Js.clamp v a b == v) /\
  (b < a -> Js.clamp v a b = a) /\
  Js.clamp (Js.clamp v a b) a b == Js.clamp v a b.
Proof.
  assert (Hlow : a <= Js.clamp v a b) by apply Q.le_max_l.
  assert (Hhigh : a <= b -> Js.clamp v a b <= b).
  { intros Hab. apply Q.max_lub; [exact Hab | apply Q.le_min_l]. }
  assert (Hcross : b < a -> Js.clamp v a b = a).
  { intros Hba. unfold Js.clamp. apply Js.max_left.
    pose proof (Q.le_min_l b v). lra. }
  repeat apply conj; try assumption.
  - apply clamp_mid.
  - destruct (Qlt_le_dec b a) as [Hba | Hab].
    + rewrite (Hcross Hba). unfold Js.clamp.
      rewrite Js.max_left; [reflexivity|]. pose proof (Q.le_min_l b a). lra.
    + apply clamp_mid; [exact Hlow | exact (Hhigh Hab)].
Qed.

End JsFacts.

(** ** BYTE RUNNER: lanes, obstacles, death and gestures *)

Module RunnerFacts.
Import Runner.

(** *** Lanes *)

Lemma laneX_apart (a b : Z) :
  (a <> b)%Z -> laneX a + 108 <= laneX b \/ laneX b + 108 <= laneX a.
Proof.
  intros Hne. unfold laneX, W.
  assert (Hcases : (a + 1 <= b)%Z \/ (b + 1 <= a)%Z) by lia.
  destruct Hcases as [Hlt | Hlt]; apply Js.inject_Z_le in Hlt;
    rewrite inject_Z_plus in Hlt; change (inject_Z 1) with 1 in Hlt;
    [left | right]; lra.
Qed.

(** X4.  The collision test of [update] succeeds exactly for an obstacle in the
    player's own lane whose vertical extent meets the player's band, which
    reaches from 70 to 42 above the bottom of the field: an obstacle in
    another lane is never hit, whatever its position and height. *)
Theorem hits_iff_same_lane (s : state) (o : obstacle) :
  hits s o = true <->
  lane o = playerLane s /\ y o < H - 42 /\ H - 70 < y o + h o.
Proof.
  unfold hits. rewrite rectsOverlap_spec. split.
  - intros (Hx1 & Hx2 & Hy1 & Hy2).
    destruct (Z.eq_dec (lane o) (playerLane s)) as [He | Hne].
    + unfold H in *. repeat split; [exact He | lra | lra].
    + destruct (laneX_apart _ _ Hne); lra.
  - intros (Hl & Hy1 & Hy2). rewrite Hl. unfold H in *. repeat split; lra.
Qed.

(** The collision loop changes [alive], [best] and the log only. *)
Lemma collide_keeps (os : list obstacle) (w : state) :
  playerLane (collide os w) = playerLane w /\
  obstacles (collide os w) = obstacles w /\
  spawnTimer (collide os w) = spawnTimer w /\
  paused (collide os w) = paused w /\
  tAcc (collide os w) = tAcc w.
Proof.
  destruct (collide_cases os w) as [[_ ->] | [_ ->]]; repeat split; reflexivity.
Qed.

Lemma update_playerLane (dt : Q) (r : rand) (s : state) :
  playerLane (update dt r s) = playerLane s.
Proof.
  destruct (alive s) eqn:Ha; [|now rewrite update_dead].
  rewrite (update_alive dt r s Ha).
  destruct (simulate_frame dt r s) as (_ & _ & _ & Hl & _).
  destruct (collide_keeps (obstacles (simulate dt r s)) (simulate dt r s))
    as (Hc & _).
  rewrite Hc. exact Hl.
Qed.

Lemma loop_playerLane (t : Q) (r : rand) (s : state) :
  playerLane (loop t r s) = playerLane s.
Proof.
  unfold loop. destruct (running s); cbn [negb].
  - match goal with |- playerLane (draw ?d ?x) = _ =>
      destruct (draw_fields d x) as (_ & _ & _ & _ & _ & _ & _ & _ & _ & -> & _) end.
    match goal with |- context [if ?c then _ else _] => destruct c end;
      [rewrite update_playerLane|]; reflexivity.
  - now destruct (draw_fields 0 s) as (_ & _ & _ & _ & _ & _ & _ & _ & _ & -> & _).
Qed.

Lemma reset_playerLane (s : state) : playerLane (reset s) = 1%Z.
Proof.
  unfold reset.
  match goal with |- playerLane (draw ?d ?x) = _ =>
    destruct (draw_fields d x) as (_ & _ & _ & _ & _ & _ & _ & _ & _ & -> & _) end.
  reflexivity.
Qed.

Definition onLane (s : state) : Prop := (0 <= playerLane s <= lanes - 1)%Z.

Lemma step_onLane (e : event) (s : state) : onLane s -> onLane (step e s).
Proof.
  unfold onLane, lanes. intros Hs. destruct e as [t r | | | | dir]; cbn [step].
  - now rewrite loop_playerLane.
  - rewrite reset_playerLane. lia.
  - unfold keyEnter. destruct (negb (alive s)); [rewrite reset_playerLane; lia | exact Hs].
  - unfold togglePause. destruct (negb (running s)); exact Hs.
  - unfold moveLane. destruct (negb (alive s)); [exact Hs|].
    cbn [playerLane set_playerLane]. unfold Js.clampZ, lanes. lia.
Qed.

(** X5.  The player never leaves the three lanes: whatever the events, the lane
    index stays between 0 and 2.  A shift on a live session moves to the
    neighbouring lane when there is one and stays put at the edge; a shift
    on a dead session does nothing. *)
Theorem lane_stays_on_field (es : list event) (s : state) :
  onLane s ->
  onLane (run es s) /\
  (forall dir, alive s = true -> (dir = 1 \/ dir = -1)%Z ->
     playerLane (moveLane dir s) =
     if ((0 <=? playerLane s + dir) && (playerLane s + dir <=? 2))%Z
     then (playerLane s + dir)%Z else playerLane s) /\
  (forall dir, alive s = false -> moveLane dir s = s).
Proof.
  intros Hs. split; [|split].
  - revert s Hs. induction es as [|e rest IH]; intros s Hs; [exact Hs|].
    change (run (e :: rest) s) with (run rest (step e s)).
    apply IH. now apply step_onLane.
  - intros dir Ha Hdir. unfold moveLane. rewrite Ha.
    cbn [negb playerLane set_playerLane].
    unfold onLane, lanes in Hs. unfold Js.clampZ, lanes.
    destruct (0 <=? playerLane s + dir)%Z eqn:E1;
      destruct (playerLane s + dir <=? 2)%Z eqn:E2; cbn; lia.
  - intros dir Ha. unfold moveLane. now rewrite Ha.
Qed.

(** From the middle lane: two shifts to the right end in lane 2, and a
    third changes nothing. *)
Lemma lane_stays_on_field_witness :
  onLane fresh /\
  playerLane (run [Move 1; Move 1] fresh) = 2%Z /\
  playerLane (run [Move 1; Move 1; Move 1] fresh) = 2%Z /\
  onLane (run [Move (-1); Move (-1); Move (-1); Frame 16 someRand] fresh).
Proof.
  assert (Hs : onLane fresh) by (split; vm_compute; discriminate).
  split; [exact Hs|].
  split; [vm_compute; reflexivity|].
  split; [vm_compute; reflexivity|].
  exact (proj1 (lane_stays_on_field _ fresh Hs)).
Defined.

(** *** Obstacles *)

(** The obstacle [spawnObstacle] pushes on the two values of
    [Math.random()]. *)
Definition newborn (rLane rH : Q) : obstacle :=
  mkObstacle (Qfloor (rLane * inject_Z lanes))
             (- (18 + inject_Z (Qfloor (rH * 18))))
             (18 + inject_Z (Qfloor (rH * 18))).

(** The obstacles one [update] spawns: none unless the spawn timer has
    reached the spawn interval, and a second one only on a coin below 0.10
    past a distance of 2000. *)
Definition born (dt : Q) (r : rand) (s : state) : list obstacle :=
  let d := distance s + speed s * dt in
  if Js.geb (spawnTimer s + dt) (Js.clamp (0.85 - d / 80000) 0.35 0.85) then
    if Js.ltb (rCoin r) 0.10 && Js.ltb 2000 d
    then [newborn (rLane1 r) (rH1 r); newborn (rLane2 r) (rH2 r)]
    else [newborn (rLane1 r) (rH1 r)]
  else [].

Lemma simulate_obstacles (dt : Q) (r : rand) (s : state) :
  obstacles (simulate dt r s) =
  List.filter (fun o => Js.ltb (y o) (H + 60))
    (map (fun o => set_y (y o + (speed s + speedGain * dt) * dt) o)
       (obstacles s ++ born dt r s)) /\
  spawnTimer (simulate dt r s) =
  (if Js.geb (spawnTimer s + dt)
        (Js.clamp (0.85 - (distance s + speed s * dt) / 80000) 0.35 0.85)
   then 0 else spawnTimer s + dt).
Proof.
  unfold simulate, born, spawnObstacle, newborn. cbn.
  destruct (Js.geb _ _); [destruct (_ && _)|]; cbn;
    rewrite <- ?app_assoc, ?app_nil_r; split; reflexivity.
Qed.

Lemma update_obstacles (dt : Q) (r : rand) (s : state) :
  alive s = true ->
  obstacles (update dt r s) = obstacles (simulate dt r s) /\
  spawnTimer (update dt r s) = spawnTimer (simulate dt r s).
Proof.
  intros Ha. rewrite (update_alive dt r s Ha).
  destruct (collide_keeps (obstacles (simulate dt r s)) (simulate dt r s))
    as (_ & -> & -> & _).
  split; reflexivity.
Qed.

Definition fair (r : rand) : Prop :=
  JsFacts.unit (rLane1 r) /\ JsFacts.unit (rH1 r) /\ JsFacts.unit (rLane2 r) /\ JsFacts.unit (rH2 r).

(** An obstacle of the game: in one of the three lanes, with a height of
    18 to 35. *)
Definition onField (o : obstacle) : Prop :=
  (0 <= lane o <= 2)%Z /\ 18 <= h o /\ h o <= 35.

Lemma newborn_onField (rLane rH : Q) :
  JsFacts.unit rLane -> JsFacts.unit rH ->
  onField (newborn rLane rH) /\ y (newborn rLane rH) = - h (newborn rLane rH).
Proof.
  intros [Hl0 Hl1] [Hh0 Hh1]. unfold onField, newborn. cbn [lane y h].
  pose proof (JsFacts.floor_unit_scaled rLane 3 Hl0 Hl1 eq_refl) as Hlane.
  pose proof (JsFacts.floor_unit_scaled rH 18 Hh0 Hh1 eq_refl) as Hh.
  destruct Hh as [Hha Hhb].
  apply Js.inject_Z_le in Hha, Hhb.
  change (inject_Z 0) with 0 in Hha. change (inject_Z (18 - 1)) with 17 in Hhb.
  change (inject_Z 18) with 18 in Hha, Hhb.
  change (inject_Z lanes) with (inject_Z 3).
  repeat split; try lia; try lra.
Qed.

Lemma born_onField (dt : Q) (r : rand) (s : state) :
  fair r -> Forall onField (born dt r s).
Proof.
  intros (H1 & H2 & H3 & H4). unfold born.
  destruct (Js.geb _ _); [destruct (_ && _)|]; repeat constructor;
    first [apply (newborn_onField _ _ H1 H2) | apply (newborn_onField _ _ H3 H4)].
Qed.

Lemma born_count (dt : Q) (r : rand) (s : state) :
  (length (born dt r s) <= 2)%nat /\
  (distance s + speed s * dt <= 2000 -> (length (born dt r s) <= 1)%nat) /\
  (spawnTimer s + dt <
   Js.clamp (0.85 - (distance s + speed s * dt) / 80000) 0.35 0.85 ->
   born dt r s = []).
Proof.
  unfold born. split; [|split].
  - destruct (Js.geb _ _); [destruct (_ && _)|]; cbn; lia.
  - intros Hd. apply Js.ltb_ge in Hd. rewrite Hd, andb_false_r.
    destruct (Js.geb _ _); cbn; lia.
  - intros Hlt. destruct (Js.geb _ _) eqn:E; [|reflexivity].
    apply Js.geb_le in E. lra.
Qed.

Definition tidyObstacle (o : obstacle) : Prop := onField o /\ y o < H + 60.

Lemma moved_culled_tidy (v : Q) (os : list obstacle) :
  Forall onField os ->
  Forall tidyObstacle
    (List.filter (fun o => Js.ltb (y o) (H + 60))
       (map (fun o => set_y (y o + v) o) os)).
Proof.
  induction 1 as [|o os Ho _ IH]; cbn; [constructor|].
  destruct (Js.ltb (y o + v) (H + 60)) eqn:E; [|exact IH].
  constructor; [|exact IH]. split; [exact Ho | now apply Js.ltb_lt in E].
Qed.

Lemma moved_culled_count (v : Q) (os : list obstacle) :
  (length (List.filter (fun o => Js.ltb (y o) (H + 60))
             (map (fun o => set_y (y o + v) o) os)) <= length os)%nat.
Proof.
  induction os as [|o os IH]; cbn; [lia|].
  destruct (Js.ltb _ _); cbn; lia.
Qed.

Definition tidy (s : state) : Prop := Forall tidyObstacle (obstacles s).

Lemma tidy_onField (s : state) : tidy s -> Forall onField (obstacles s).
Proof.
  unfold tidy. induction 1 as [|o os [Ho _] _ IH]; constructor; assumption.
Qed.

Lemma update_tidy (dt : Q) (r : rand) (s : state) :
  fair r -> tidy s -> tidy (update dt r s).
Proof.
  intros Hr Hs. destruct (alive s) eqn:Ha; [|now rewrite update_dead].
  unfold tidy. destruct (update_obstacles dt r s Ha) as (-> & _).
  destruct (simulate_obstacles dt r s) as (-> & _).
  apply moved_culled_tidy. apply Forall_app. split.
  - now apply tidy_onField.
  - now apply born_onField.
Qed.

Lemma loop_obstacles (t : Q) (r : rand) (s : state) :
  obstacles (loop t r s) = obstacles s \/
  exists dt s1, obstacles s1 = obstacles s /\
                obstacles (loop t r s) = obstacles (update dt r s1).
Proof.
  unfold loop. destruct (running s); cbn [negb].
  - match goal with |- context [draw ?d ?x] =>
      destruct (draw_fields d x) as (_ & _ & _ & _ & _ & _ & _ & _ & -> & _) end.
    match goal with |- context [if ?c then _ else _] => destruct c end.
    + right. eexists _, _. split; [|reflexivity]. reflexivity.
    + left. reflexivity.
  - left. now destruct (draw_fields 0 s) as (_ & _ & _ & _ & _ & _ & _ & _ & -> & _).
Qed.

Lemma reset_obstacles (s : state) : obstacles (reset s) = [].
Proof.
  unfold reset.
  match goal with |- context [draw ?d ?x] =>
    destruct (draw_fields d x) as (_ & _ & _ & _ & _ & _ & _ & _ & -> & _) end.
  reflexivity.
Qed.

Definition fairEvent (e : event) : Prop :=
  match e with
  | Frame _ r => fair r
  | _ => True
  end.

Lemma step_tidy (e : event) (s : state) : fairEvent e -> tidy s -> tidy (step e s).
Proof.
  intros He Hs. destruct e as [t r | | | | dir]; cbn [step].
  - destruct (loop_obstacles t r s) as [E | (dt & s1 & E1 & E)];
      unfold tidy; rewrite E; [exact Hs|].
    apply (update_tidy dt r s1 He). unfold tidy. now rewrite E1.
  - unfold tidy. rewrite reset_obstacles. constructor.
  - unfold keyEnter. destruct (negb (alive s)); [|exact Hs].
    unfold tidy. rewrite reset_obstacles. constructor.
  - unfold togglePause. destruct (negb (running s)); exact Hs.
  - unfold moveLane. destruct (negb (alive s)); exact Hs.
Qed.

(** X6.  With values of [Math.random()] in [[0, 1)], every obstacle on the
    field is in one of the three lanes, has a height between 18 and 35, and
    is above the cull line 60 below the field: this holds after any events
    once it holds, and [update] on a live session establishes all of it
    for the obstacles it spawns, which start just above the field, at
    [y = -h]. *)
Theorem obstacles_stay_on_field (es : list event) (s : state) :
  Forall fairEvent es -> tidy s ->
  tidy (run es s) /\
  (forall rLane rH, JsFacts.unit rLane -> JsFacts.unit rH ->
     onField (newborn rLane rH) /\
     y (newborn rLane rH) = - h (newborn rLane rH) /\
     obstacles (spawnObstacle rLane rH s) = obstacles s ++ [newborn rLane rH]).
Proof.
  intros Hes Hs. split.
  - revert s Hs. induction Hes as [|e rest He _ IH]; intros s Hs; [exact Hs|].
    change (run (e :: rest) s) with (run rest (step e s)).
    apply IH. now apply step_tidy.
  - intros rLane rH Hl Hh. destruct (newborn_onField rLane rH Hl Hh) as [Ho Hy].
    split; [exact Ho|]. split; [exact Hy | reflexivity].
Qed.

(** A live session with an obstacle in the left lane, one in the right
    lane that is about to pass the cull line, and a spawn that is due. *)
Definition crowded : state :=
  set_spawnTimer 0.84
    (set_obstacles [mkObstacle 0 100 20; mkObstacle 2 538 30] fresh).

(** Two frames 100 ms apart: the second moves the obstacles, culls the one
    in the right lane and spawns one in the middle lane, 27 high, just
    above the field. *)
Lemma obstacles_stay_on_field_witness :
  Forall fairEvent [Frame 1000 someRand; Frame 1100 someRand] /\
  tidy crowded /\
  tidy (run [Frame 1000 someRand; Frame 1100 someRand] crowded) /\
  map lane (obstacles (run [Frame 1000 someRand; Frame 1100 someRand] crowded)) =
    [0; 1]%Z /\
  map h (obstacles (run [Frame 1000 someRand; Frame 1100 someRand] crowded)) =
    [20; 27] /\
  forallb (fun o => Js.ltb (y o) 106)
    (obstacles (run [Frame 1000 someRand; Frame 1100 someRand] crowded)) = true.
Proof.
  assert (Hr : fair someRand)
    by (repeat split; vm_compute; first [discriminate | reflexivity]).
  assert (Hes : Forall fairEvent [Frame 1000 someRand; Frame 1100 someRand])
    by (constructor; [exact Hr|]; constructor; [exact Hr|]; constructor).
  assert (Hobs : obstacles crowded = [mkObstacle 0 100 20; mkObstacle 2 538 30])
    by (vm_compute; reflexivity).
  assert (Hs : tidy crowded).
  { unfold tidy. rewrite Hobs.
    constructor; [|constructor; [|constructor]];
      (split; [split; [cbn; lia | split; discriminate] | reflexivity]). }
  split; [exact Hes|]. split; [exact Hs|].
  split; [exact (proj1 (obstacles_stay_on_field _ crowded Hes Hs))|].
  split; [vm_compute; reflexivity|]. split; vm_compute; reflexivity.
Defined.


(** *** The spawn timer and the spawn interval *)

Lemma update_spawn_fields (dt : Q) (r : rand) (s : state) :
  alive s = true ->
  distance (update dt r s) = distance s + speed s * dt /\
  spawnEvery (update dt r s) =
    Js.clamp (0.85 - (distance s + speed s * dt) / 80000) 0.35 0.85 /\
  spawnTimer (update dt r s) =
    (if Js.geb (spawnTimer s + dt)
          (Js.clamp (0.85 - (distance s + speed s * dt) / 80000) 0.35 0.85)
     then 0 else spawnTimer s + dt) /\
  obstacles (update dt r s) =
    List.filter (fun o => Js.ltb (y o) (H + 60))
      (map (fun o => set_y (y o + (speed s + speedGain * dt) * dt) o)
         (obstacles s ++ born dt r s)).
Proof.
  intros Ha.
  destruct (update_ramp_fields dt r s Ha) as (Hd & _ & He & _).
  destruct (simulate_ramp dt r s) as (Wd & _ & We & _).
  destruct (update_obstacles dt r s Ha) as (Ho & Ht).
  destruct (simulate_obstacles dt r s) as (Wo & Wt).
  rewrite Hd, He, Ho, Ht, We, Wd, Wo, Wt. repeat split; reflexivity.
Qed.

(** X7.  After every [update] of a live session the spawn timer is below the
    spawn interval, so a spawn that is due is never put off: the timer is
    back at 0 when it had reached the interval, and has advanced by [dt]
    otherwise.  An [update] adds at most two obstacles, at most one while
    the distance is not above 2000, and none when the timer has not
    reached the interval. *)
Theorem spawn_cadence (dt : Q) (r : rand) (s : state) :
  alive s = true ->
  spawnTimer (update dt r s) < spawnEvery (update dt r s) /\
  (spawnEvery (update dt r s) <= spawnTimer s + dt ->
   spawnTimer (update dt r s) = 0) /\
  (spawnTimer s + dt < spawnEvery (update dt r s) ->
   spawnTimer (update dt r s) = spawnTimer s + dt /\
   (length (obstacles (update dt r s)) <= length (obstacles s))%nat) /\
  (length (obstacles (update dt r s)) <= length (obstacles s) + 2)%nat /\
  (distance (update dt r s) <= 2000 ->
   (length (obstacles (update dt r s)) <= length (obstacles s) + 1)%nat).
Proof.
  intros Ha. destruct (update_spawn_fields dt r s Ha) as (-> & -> & -> & ->).
  destruct (born_count dt r s) as (Hc2 & Hc1 & Hc0).
  pose proof (moved_culled_count ((speed s + speedGain * dt) * dt)
                (obstacles s ++ born dt r s)) as Hlen.
  rewrite length_app in Hlen.
  set (e := Js.clamp (0.85 - (distance s + speed s * dt) / 80000) 0.35 0.85) in *.
  assert (He : 0.35 <= e /\ e <= 0.85) by (apply Js.clamp_bounds; lra).
  split; [|split; [|split; [|split]]].
  - destruct (Js.geb (spawnTimer s + dt) e) eqn:E.
    + lra.
    + unfold Js.geb in E. apply not_true_iff_false in E.
      rewrite Qle_bool_iff in E. now apply Qnot_le_lt.
  - intros Hdue. apply Js.geb_le in Hdue. now rewrite Hdue.
  - intros Hlt. assert (E : Js.geb (spawnTimer s + dt) e = false).
    { apply not_true_iff_false. intros E. apply Js.geb_le in E. lra. }
    rewrite E. split; [reflexivity|].
    rewrite (Hc0 Hlt) in *. cbn [length] in Hlen. lia.
  - lia.
  - intros Hd. specialize (Hc1 Hd). lia.
Qed.

(** A live session about to spawn, and one that is not. *)
Definition aboutToSpawn : state := set_spawnTimer 0.84 fresh.

Lemma spawn_cadence_witness :
  alive aboutToSpawn = true /\
  spawnTimer (update 0.05 someRand aboutToSpawn) = 0 /\
  length (obstacles (update 0.05 someRand aboutToSpawn)) = 1%nat /\
  spawnTimer (update 0.05 someRand fresh) = spawnTimer fresh + 0.05 /\
  obstacles (update 0.05 someRand fresh) = [].
Proof.
  assert (Ha : alive aboutToSpawn = true) by (vm_compute; reflexivity).
  assert (Hb : alive fresh = true) by (vm_compute; reflexivity).
  destruct (spawn_cadence 0.05 someRand aboutToSpawn Ha) as (_ & Hdue & _).
  destruct (spawn_cadence 0.05 someRand fresh Hb) as (_ & _ & Hwait & _).
  assert (H1 : spawnEvery (update 0.05 someRand aboutToSpawn) <=
               spawnTimer aboutToSpawn + 0.05) by (vm_compute; discriminate).
  assert (H2 : spawnTimer fresh + 0.05 < spawnEvery (update 0.05 someRand fresh))
    by (vm_compute; reflexivity).
  split; [exact Ha|]. split; [exact (Hdue H1)|].
  split; [vm_compute; reflexivity|].
  split; [exact (proj1 (Hwait H2))|]. vm_compute. reflexivity.
Defined.

Lemma per80000 (x : Q) : x / 80000 == x * (1 # 80000).
Proof. field. Qed.

(** X8.  The spawn interval an [update] of a live session sets depends on the
    new distance alone: it is 0.85 up to distance 0, falls linearly by
    1/80000 per unit of distance, and stays at 0.35 from distance 40000 on;
    a longer distance never gives a longer interval. *)
Theorem spawn_interval_profile (dt : Q) (r : rand) (s : state) :
  alive s = true ->
  0.35 <= spawnEvery (update dt r s) /\
  spawnEvery (update dt r s) <= 0.85 /\
  (distance (update dt r s) <= 0 -> spawnEvery (update dt r s) = 0.85) /\
  (40000 <= distance (update dt r s) -> spawnEvery (update dt r s) = 0.35) /\
  (0 <= distance (update dt r s) -> distance (update dt r s) <= 40000 ->
   spawnEvery (update dt r s) == 0.85 - distance (update dt r s) / 80000) /\
  (forall dt' r' s', alive s' = true ->
     distance (update dt r s) <= distance (update dt' r' s') ->
     spawnEvery (update dt' r' s') <= spawnEvery (update dt r s)).
Proof.
  intros Ha. destruct (update_spawn_fields dt r s Ha) as (Hd & He & _).
  rewrite He, Hd.
  set (d := distance s + speed s * dt).
  assert (Hb : 0.35 <= Js.clamp (0.85 - d / 80000) 0.35 0.85 /\
               Js.clamp (0.85 - d / 80000) 0.35 0.85 <= 0.85)
    by (apply Js.clamp_bounds; lra).
  split; [apply Hb|]. split; [apply Hb|]. split; [|split; [|split]].
  - intros Hd0. apply JsFacts.clamp_high; rewrite ?per80000; lra.
  - intros Hd4. apply Js.clamp_low; rewrite ?per80000; lra.
  - intros Hd0 Hd4. apply JsFacts.clamp_mid; rewrite ?per80000; lra.
  - intros dt' r' s' Ha' Hle.
    destruct (update_spawn_fields dt' r' s' Ha') as (Hd' & He' & _).
    rewrite He'. rewrite Hd' in Hle. apply JsFacts.clamp_mono.
    rewrite !per80000. lra.
Qed.

(** A session that has run 50000 units of distance. *)
Definition farAlong : state := set_distance 50000 fresh.

Lemma spawn_interval_profile_witness :
  alive farAlong = true /\
  spawnEvery (update 0.05 someRand farAlong) = 0.35 /\
  spawnEvery (update 0.05 someRand farAlong) <=
  spawnEvery (update 0.05 someRand fresh).
Proof.
  assert (Ha : alive farAlong = true) by (vm_compute; reflexivity).
  assert (Hb : alive fresh = true) by (vm_compute; reflexivity).
  destruct (spawn_interval_profile 0.05 someRand farAlong Ha)
    as (_ & _ & _ & Hfloor & _).
  destruct (spawn_interval_profile 0.05 someRand fresh Hb)
    as (_ & _ & _ & _ & _ & Hmono).
  split; [exact Ha|]. split.
  - apply Hfloor. vm_compute. discriminate.
  - apply (Hmono 0.05 someRand farAlong Ha). vm_compute. discriminate.
Defined.

(** *** Death *)

(** The variables of the game proper are the same in [s] and [s']. *)
Definition sameGame (s s' : state) : Prop :=
  score s' = score s /\ best s' = best s /\ distance s' = distance s /\
  speed s' = speed s /\ obstacles s' = obstacles s /\
  playerLane s' = playerLane s /\ spawnTimer s' = spawnTimer s /\
  spawnEvery s' = spawnEvery s.

Definition revives (e : event) : bool :=
  match e with
  | PressRestart | PressEnter => true
  | _ => false
  end.

Lemma dead_step (e : event) (s : state) :
  alive s = false -> revives e = false ->
  alive (step e s) = false /\ sameGame s (step e s).
Proof.
  intros Ha He. unfold sameGame.
  destruct e as [t r | | | | dir]; try discriminate He; cbn [step].
  - destruct (running s) eqn:Hr.
    + destruct (runner_frozen_fields t r s Hr (or_intror Ha))
        as ((E1 & E2 & E3 & E4 & E5 & E6 & E7 & E8 & E9 & _) & _).
      rewrite E1, E2, E3, E4, E5, E6, E7, E8, E9. solve_fields.
    + unfold loop. rewrite Hr. cbn [negb].
      destruct (draw_fields 0 s)
        as (E1 & _ & E3 & E4 & E5 & E6 & E7 & E8 & E9 & E10 & _).
      rewrite E1, E3, E4, E5, E6, E7, E8, E9, E10. solve_fields.
  - unfold togglePause. destruct (negb (running s)); cbn; solve_fields.
  - unfold moveLane. rewrite Ha. cbn [negb]. solve_fields.
Qed.

Lemma reset_fields (s : state) :
  alive (reset s) = true /\ paused (reset s) = false /\
  running (reset s) = true /\ score (reset s) = 0 /\
  speed (reset s) = 110 /\ distance (reset s) = 0 /\
  obstacles (reset s) = [] /\ playerLane (reset s) = 1%Z /\
  spawnTimer (reset s) = 0 /\ spawnEvery (reset s) = 0.85 /\
  lastT (reset s) = 0 /\ best (reset s) = best s.
Proof.
  unfold reset.
  match goal with |- context [draw ?d ?x] =>
    destruct (draw_fields d x)
      as (E1 & E2 & E3 & E4 & E5 & E6 & E7 & E8 & E9 & E10 & E11 & E12 & _) end.
  rewrite E1, E2, E3, E4, E5, E6, E7, E8, E9, E10, E11, E12.
  repeat split; reflexivity.
Qed.

(** X9.  A dead session stays dead, with its score, best, distance, speed,
    obstacles and lane as they were at death, through every frame, lane
    shift and pause press: only a restart or the Enter key brings it back,
    and then with the initial constants and the best it had. *)
Theorem dead_until_restart (es : list event) (s : state) :
  alive s = false -> Forall (fun e => revives e = false) es ->
  alive (run es s) = false /\
  sameGame s (run es s) /\
  alive (keyEnter (run es s)) = true /\
  score (keyEnter (run es s)) = 0 /\
  speed (keyEnter (run es s)) = 110 /\
  obstacles (keyEnter (run es s)) = [] /\
  best (keyEnter (run es s)) = best s.
Proof.
  intros Ha Hes.
  assert (Hrun : alive (run es s) = false /\ sameGame s (run es s)).
  { revert s Ha. induction Hes as [|e rest He _ IH]; intros s Ha.
    - split; [exact Ha|]. unfold sameGame. solve_fields.
    - change (run (e :: rest) s) with (run rest (step e s)).
      destruct (dead_step e s Ha He) as (Ha1 & S1).
      destruct (IH (step e s) Ha1) as (Ha2 & S2).
      split; [exact Ha2|]. unfold sameGame in *.
      destruct S1 as (A1 & A2 & A3 & A4 & A5 & A6 & A7 & A8).
      destruct S2 as (B1 & B2 & B3 & B4 & B5 & B6 & B7 & B8).
      rewrite B1, B2, B3, B4, B5, B6, B7, B8. solve_fields. }
  destruct Hrun as (Hdead & Hsame).
  split; [exact Hdead|]. split; [exact Hsame|].
  unfold keyEnter. rewrite Hdead. cbn [negb].
  destruct (reset_fields (run es s))
    as (R1 & _ & _ & R4 & R5 & _ & R7 & _ & _ & _ & _ & R12).
  destruct Hsame as (_ & Hbest & _).
  rewrite R1, R4, R5, R7, R12, Hbest. solve_fields.
Qed.

(** The session of [doomed] after its fatal frame: frames and shifts
    change nothing, and Enter restarts it with the best of 57. *)
Definition dead : state := update 0.016 someRand doomed.

Lemma dead_until_restart_witness :
  alive dead = false /\
  score (run [Frame 16 someRand; Move 1; PressPause; Frame 32 someRand] dead) =
  score dead /\
  playerLane (run [Frame 16 someRand; Move 1; PressPause; Frame 32 someRand] dead) =
  playerLane dead /\
  best (keyEnter
          (run [Frame 16 someRand; Move 1; PressPause; Frame 32 someRand] dead)) =
  57%Z.
Proof.
  assert (Ha : alive dead = false) by (vm_compute; reflexivity).
  assert (Hb : best dead = 57%Z) by (vm_compute; reflexivity).
  assert (Hes : Forall (fun e => revives e = false)
                  [Frame 16 someRand; Move 1; PressPause; Frame 32 someRand])
    by (repeat (constructor; [reflexivity|]); constructor).
  destruct (dead_until_restart _ dead Ha Hes)
    as (_ & (Hs & _ & _ & _ & _ & Hl & _) & _ & _ & _ & _ & He).
  split; [exact Ha|]. split; [exact Hs|]. split; [exact Hl|].
  now rewrite He.
Defined.

(** *** The best score *)

(** X10.  Whatever happens (frames, lane shifts, pauses, restarts), the best
    score never goes down. *)
Theorem best_never_decreases (es : list event) (s : state) :
  (best s <= best (run es s))%Z.
Proof.
  revert s. induction es as [|e rest IH]; intros s; [apply Z.le_refl|].
  change (run (e :: rest) s) with (run rest (step e s)).
  apply Z.le_trans with (best (step e s)); [|apply IH].
  destruct (step_outcome e s) as [(_ & -> & _) | (_ & -> & _)]; lia.
Qed.

(** *** The swipe gesture ([onPointerDown], [onPointerUp], lines 401-418) *)

(** [pointerDown]: [{ x, y, t }], or [null]. *)
Record pointer : Type := mkPointer {
  downX : Q;
  downY : Q;
  downT : Q
}.

(** [onPointerDown(ev)], on the point [pointerPoint(ev)] returns and the
    value of [now()]. *)
Definition onPointerDown (x y clock : Q) (pd : option pointer) : option pointer :=
  Some (mkPointer x y clock).

(** [onPointerUp(ev)], on the point [pointerPoint(ev)] returns for a
    [pointerup] event and the value of [now()]: the new [pointerDown] and
    the engine.  (For a [touchend] whose [touches] is empty [pointerPoint]
    throws; that event is not modelled.) *)
Definition onPointerUp (x y clock : Q) (pd : option pointer) (s : state)
  : option pointer * state :=
  match pd with
  | None => (None, s)
  | Some down =>
      let dx := x - downX down in
      let dy := y - downY down in
      let dt := clock - downT down in
      (None,
       if Js.ltb 30 (Qabs dx) && Js.ltb (Qabs dy) (Qabs dx) && Js.ltb dt 400
       then moveLane (if Js.ltb dx 0 then -1 else 1) s
       else s)
  end.

Lemma moveLane_near (dir : Z) (s : state) :
  onLane s -> (dir = 1 \/ dir = -1)%Z ->
  onLane (moveLane dir s) /\
  (Z.abs (playerLane (moveLane dir s) - playerLane s) <= 1)%Z.
Proof.
  unfold onLane, lanes. intros Hs Hd. unfold moveLane.
  destruct (negb (alive s)); [split; [exact Hs | lia]|].
  cbn [playerLane set_playerLane]. unfold Js.clampZ, lanes. lia.
Qed.

(** X11.  A [pointerup] always clears [pointerDown], and moves the
    player by at most one lane, never off the field.  Nothing moves when
    no press was recorded, when the drag is 30 units or less across, when
    it is not wider than it is tall, or when it took 400 ms or more; a
    drag that passes all three tests shifts one lane in its direction. *)
Theorem swipe_shifts_at_most_one_lane
    (x y clock : Q) (pd : option pointer) (s : state) :
  onLane s ->
  fst (onPointerUp x y clock pd s) = None /\
  onLane (snd (onPointerUp x y clock pd s)) /\
  (Z.abs (playerLane (snd (onPointerUp x y clock pd s)) - playerLane s) <= 1)%Z /\
  (pd = None -> snd (onPointerUp x y clock pd s) = s) /\
  (forall down, pd = Some down ->
     Qabs (x - downX down) <= 30 \/
     Qabs (x - downX down) <= Qabs (y - downY down) \/
     400 <= clock - downT down ->
     snd (onPointerUp x y clock pd s) = s) /\
  (forall down, pd = Some down ->
     30 < Qabs (x - downX down) ->
     Qabs (y - downY down) < Qabs (x - downX down) ->
     clock - downT down < 400 ->
     snd (onPointerUp x y clock pd s) =
     moveLane (if Js.ltb (x - downX down) 0 then -1 else 1) s).
Proof.
  intros Hs.
  assert (Hsame : onLane s /\ (Z.abs (playerLane s - playerLane s) <= 1)%Z)
    by (split; [exact Hs | lia]).
  split; [destruct pd; reflexivity|].
  split; [|split; [|split; [|split]]].
  - destruct pd as [down|]; cbn [onPointerUp snd]; [|exact Hs].
    destruct (_ && _); [|exact Hs].
    apply moveLane_near; [exact Hs|]. destruct (Js.ltb _ 0); lia.
  - destruct pd as [down|]; cbn [onPointerUp snd]; [|apply Hsame].
    destruct (_ && _); [|apply Hsame].
    apply moveLane_near; [exact Hs|]. destruct (Js.ltb _ 0); lia.
  - intros ->. reflexivity.
  - intros down -> Hno. cbn [onPointerUp snd].
    destruct Hno as [Hn | [Hn | Hn]]; apply Js.ltb_ge in Hn; rewrite Hn;
      rewrite ?andb_false_r; reflexivity.
  - intros down -> H1 H2 H3. cbn [onPointerUp snd].
    apply Js.ltb_lt in H1, H2, H3. rewrite H1, H2, H3. reflexivity.
Qed.

(** A quick drag of 80 units to the left from the middle lane, a slow
    one, and a release without a press. *)
Lemma swipe_shifts_at_most_one_lane_witness :
  onLane fresh /\
  playerLane (snd (onPointerUp 100 205 1200 (onPointerDown 180 200 1000 None) fresh)) =
  0%Z /\
  snd (onPointerUp 100 205 1500 (onPointerDown 180 200 1000 None) fresh) = fresh /\
  snd (onPointerUp 100 205 1200 None fresh) = fresh.
Proof.
  assert (Hs : onLane fresh) by (split; vm_compute; discriminate).
  destruct (swipe_shifts_at_most_one_lane 100 205 1500
              (onPointerDown 180 200 1000 None) fresh Hs)
    as (_ & _ & _ & _ & Hslow & _).
  destruct (swipe_shifts_at_most_one_lane 100 205 1200 None fresh Hs)
    as (_ & _ & _ & Hnone & _).
  split; [exact Hs|]. split; [vm_compute; reflexivity|]. split.
  - apply (Hslow (mkPointer 180 200 1000) eq_refl).
    right. right. vm_compute. discriminate.
  - apply Hnone. reflexivity.
Defined.

End RunnerFacts.

(** ** NEON CLICKER: clicks, the ledger and saving *)

Module ClickerFacts.
Import Clicker.

(** *** Clicks *)

Lemma critChance_bounds (c : Z) :
  0.08 <= Js.clamp (0.08 + inject_Z c * 0.02) 0.08 0.40 /\
  Js.clamp (0.08 + inject_Z c * 0.02) 0.08 0.40 <= 0.40.
Proof. apply Js.clamp_bounds. lra. Qed.

(** X12.  A click on an engine whose click power and crit level are not negative
    adds the same gain to [bits] and to [total]; the gain is the click
    power on an ordinary click and 3 to 7 times the click power on a
    critical one.  Whether the click is critical is decided by the value of
    [Math.random()]: never from 0.40 up, always below 0.08, and from crit
    level 16 on exactly below 0.40. *)
Theorem click_gain_bounds (r : Q) (s : engine) :
  sound (state s) ->
  bits (state (click r s)) =
    bits (state s) + inject_Z (fst (clickGain r (state s))) /\
  total (state (click r s)) =
    total (state s) + inject_Z (fst (clickGain r (state s))) /\
  (bpc (state s) <= fst (clickGain r (state s)) <= 7 * bpc (state s))%Z /\
  (snd (clickGain r (state s)) = false ->
   fst (clickGain r (state s)) = bpc (state s)) /\
  (snd (clickGain r (state s)) = true ->
   (3 * bpc (state s) <= fst (clickGain r (state s)))%Z) /\
  (0.40 <= r -> snd (clickGain r (state s)) = false) /\
  (r < 0.08 -> snd (clickGain r (state s)) = true) /\
  ((16 <= crit (upgrades (state s)))%Z ->
   (snd (clickGain r (state s)) = true <-> r < 0.40)).
Proof.
  intros [Hpc Hcr]. rewrite click_state.
  split; [reflexivity|]. split; [reflexivity|].
  destruct (critChance_bounds (crit (upgrades (state s)))) as [Hlo Hhi].
  unfold clickGain. cbn [fst snd].
  set (chance := Js.clamp (0.08 + inject_Z (crit (upgrades (state s))) * 0.02)
                   0.08 0.40) in *.
  split; [|split; [|split; [|split; [|split]]]].
  - destruct (Js.ltb r chance); nia.
  - intros ->. lia.
  - intros ->. nia.
  - intros Hr. apply Js.ltb_ge. lra.
  - intros Hr. apply Js.ltb_lt. lra.
  - intros H16.
    assert (Hc : chance = 0.40).
    { subst chance. apply JsFacts.clamp_high; [lra|].
      assert (16 <= inject_Z (crit (upgrades (state s))))
        by (change 16 with (inject_Z 16); now apply Js.inject_Z_le).
      lra. }
    rewrite Hc. apply Js.ltb_lt.
Qed.

(** An engine at crit level 2 and click power 5. *)
Definition tuned5 : engine :=
  with_state (set_bpc 5 (set_upgrades (mkLevels 4 0 2) initial)) fresh.

Lemma click_gain_bounds_witness :
  sound (state tuned5) /\
  bits (state (click 0.5 tuned5)) == 5 /\
  bits (state (click 0.1 tuned5)) == 25.
Proof.
  assert (Hs : sound (state tuned5)) by (split; vm_compute; discriminate).
  destruct (click_gain_bounds 0.5 tuned5 Hs) as (H1 & _).
  destruct (click_gain_bounds 0.1 tuned5 Hs) as (H2 & _).
  split; [exact Hs|].
  split; [rewrite H1 | rewrite H2]; vm_compute; reflexivity.
Defined.

(** *** The ledger *)

(** What holds of the progress of every engine started from [initial]:
    the click power is one more than the core level, the passive rate is
    the drip level, no level is negative, and the spendable bits lie
    between 0 and the lifetime total. *)
Definition ledger (p : progress) : Prop :=
  bpc p = (1 + core (upgrades p))%Z /\
  bps p = drip (upgrades p) /\
  (0 <= core (upgrades p))%Z /\
  (0 <= drip (upgrades p))%Z /\
  (0 <= crit (upgrades p))%Z /\
  0 <= bits p /\ bits p <= total p.

Lemma ledger_sound (p : progress) : ledger p -> sound p.
Proof. intros (Hpc & _ & Hc & _ & Hr & _). split; lia. Qed.

Lemma calcCost_nonneg (u : upgrade) (p : progress) :
  In u upgradeDefs -> 0 <= inject_Z (calcCost u p).
Proof.
  intros Hu. destruct (upgradeDefs_growth u Hu) as [Hb Hm].
  change 0 with (inject_Z 0). apply Js.inject_Z_le.
  unfold calcCost. apply JsFacts.floor_nonneg.
  apply Qmult_le_0_compat; [exact Hb|]. apply Qpower_0_le. lra.
Qed.

Lemma event_ledger (e : event) (s : engine) :
  ledger (state s) -> ledger (state (step e s)).
Proof.
  intros Hl. pose proof (ledger_sound _ Hl) as Hs.
  destruct (event_outcome e s Hs) as [-> | g Hg -> | i u _ Hi Hle -> | _ ->].
  - exact Hl.
  - destruct Hl as (L1 & L2 & L3 & L4 & L5 & L6 & L7).
    unfold ledger, earn. cbn. repeat split; try assumption; lra.
  - pose proof (calcCost_nonneg u (state s) (nth_error_In _ _ Hi)) as Hc.
    set (c := inject_Z (calcCost u (state s))) in *.
    destruct Hl as (L1 & L2 & L3 & L4 & L5 & L6 & L7).
    destruct (nth_error_In _ _ Hi) as [<- | [<- | [<- | []]]];
      unfold ledger; cbn; repeat split; try lia; try lra.
  - unfold ledger. cbn. repeat split; try lia; try lra.
Qed.

(** X14.  Every event keeps the ledger: clicks, frames, purchases, restarts
    and pause presses, in any order.  (The initial progress satisfies it;
    progress read back from the store need not.) *)
Theorem ledger_kept (es : list event) (s : engine) :
  ledger (state s) -> ledger (state (run es s)).
Proof.
  revert s. induction es as [|e rest IH]; intros s Hl; [exact Hl|].
  change (run (e :: rest) s) with (run rest (step e s)).
  apply IH. now apply event_ledger.
Qed.

(** From the fresh engine: nine critical clicks (27 bits), a purchase of
    the core upgrade, a click, a restart, a click. *)
Lemma ledger_kept_witness :
  ledger (state fresh) /\
  ledger (state (run [Click 0.01; Click 0.01; Click 0.01; Click 0.01;
                      Click 0.01; Click 0.01; Click 0.01; Click 0.01;
                      Click 0.01; Buy 0; Click 0.5; PressRestart; Click 0.5]
                   fresh)) /\
  bpc (state (run [Click 0.01; Click 0.01; Click 0.01; Click 0.01;
                   Click 0.01; Click 0.01; Click 0.01; Click 0.01;
                   Click 0.01; Buy 0; Click 0.5] fresh)) = 2%Z.
Proof.
  assert (Hl : ledger (state fresh))
    by (repeat split; vm_compute; first [reflexivity | discriminate]).
  split; [exact Hl|]. split; [now apply ledger_kept|].
  vm_compute. reflexivity.
Defined.

(** *** Saving *)

(** The value of the most recent [store.set(KEY, state)]. *)
Fixpoint lastSaved (log : list effect) : option progress :=
  match log with
  | [] => None
  | StoreSet _ p :: _ => Some p
  | _ :: older => lastSaved older
  end.

Lemma publish_log (s : engine) :
  lastSaved (out (refreshMenuBadges (render (save s)))) = Some (state s).
Proof.
  unfold refreshMenuBadges, render, save, emit.
  cbn [root with_out out state]. destruct (root s); reflexivity.
Qed.

(** Either the event left [state] and the saved value alone, or the saved
    value is the new [state]. *)
Definition inStep (s s' : engine) : Prop :=
  (state s' = state s /\ lastSaved (out s') = lastSaved (out s)) \/
  lastSaved (out s') = Some (state s').

Lemma passive_saved (dt : Q) (s : engine) : inStep s (passive dt s).
Proof.
  unfold passive, inStep. cbn [tickTimer with_tickTimer state].
  destruct (Js.geb _ _); [|left; split; reflexivity].
  match goal with |- context [Js.ltb 0 ?g] => destruct (Js.ltb 0 g) end;
    [|left; split; reflexivity].
  right.
  match goal with |- context [refreshMenuBadges (render (save ?x))] =>
    rewrite (publish_log x); destruct (publish_state x) as (-> & _) end.
  reflexivity.
Qed.

Lemma event_saved (e : event) (s : engine) : inStep s (step e s).
Proof.
  destruct e as [t | r | i | | ]; cbn [step].
  - unfold loop. cbn [paused with_last emit with_out].
    destruct (paused s); [left; split; reflexivity|].
    match goal with |- inStep _ (passive ?dt ?x) =>
      destruct (passive_saved dt x) as [[E1 E2] | E] end;
      [left; split; [exact E1 | exact E2] | right; exact E].
  - right. unfold click. destruct (clickGain r (state s)) as [gain critical].
    unfold addBits.
    match goal with |- context [refreshMenuBadges (render (save ?x))] =>
      change (lastSaved (out (refreshMenuBadges (render (save x)))) =
              Some (state (refreshMenuBadges (render (save x)))));
      rewrite (publish_log x); destruct (publish_state x) as (-> & _) end.
    reflexivity.
  - destruct (nth_error upgradeDefs i) as [u|]; [|left; split; reflexivity].
    unfold purchase. destruct (Js.ltb _ _); [left; split; reflexivity|].
    right.
    match goal with |- context [refreshMenuBadges (render (save ?x))] =>
      rewrite (publish_log x); destruct (publish_state x) as (-> & _) end.
    reflexivity.
  - right. unfold restart.
    match goal with |- context [refreshMenuBadges (render (save ?x))] =>
      rewrite (publish_log x); destruct (publish_state x) as (-> & _) end.
    reflexivity.
  - left. split; reflexivity.
Qed.

(** X15.  Progress never runs ahead of what was saved: after any events, either
    [state] and the saved value are what they were before them, or the
    value last handed to [store.set] is the current [state].  So once the
    saved value is the current [state] it stays so. *)
Theorem progress_always_saved (es : list event) (s : engine) :
  inStep s (run es s) /\
  (lastSaved (out s) = Some (state s) ->
   lastSaved (out (run es s)) = Some (state (run es s))).
Proof.
  assert (Hin : forall es s, inStep s (run es s)).
  { clear. induction es as [|e rest IH]; intros s; [left; split; reflexivity|].
    change (run (e :: rest) s) with (run rest (step e s)).
    destruct (IH (step e s)) as [[E1 E2] | E]; [|right; exact E].
    destruct (event_saved e s) as [[F1 F2] | F].
    - left. split; [now rewrite E1 | now rewrite E2].
    - right. now rewrite E2, E1. }
  split; [apply Hin|].
  intros Hs. destruct (Hin es s) as [[E1 E2] | E]; [|exact E].
  now rewrite E2, E1.
Qed.

(** After a click the saved value is the progress, and stays so through
    a frame, a refused purchase and a pause press. *)
Lemma progress_always_saved_witness :
  lastSaved (out (click 0.5 fresh)) = Some (state (click 0.5 fresh)) /\
  lastSaved (out (run [Frame 16; Buy 1; PressPause; Click 0.3] (click 0.5 fresh))) =
  Some (state (run [Frame 16; Buy 1; PressPause; Click 0.3] (click 0.5 fresh))).
Proof.
  assert (Hs : lastSaved (out (click 0.5 fresh)) = Some (state (click 0.5 fresh)))
    by (vm_compute; reflexivity).
  split; [exact Hs|].
  exact (proj2 (progress_always_saved _ (click 0.5 fresh)) Hs).
Defined.

End ClickerFacts.

(** ** GLITCH REACT: targets, the end of a session, the timer and streaks *)

Module ReactFacts.
Import React.

(** The value of the most recent [store.set(KEY, best)]. *)
Fixpoint lastSaved (log : list effect) : option Z :=
  match log with
  | [] => None
  | StoreSet _ v :: _ => Some v
  | _ :: older => lastSaved older
  end.

Lemma render_log (s : state) : lastSaved (out (render s)) = lastSaved (out s).
Proof. unfold render. destruct (root s); reflexivity. Qed.

Lemma newTarget_log (r : Q) (s : state) :
  lastSaved (out (newTarget r s)) = lastSaved (out s).
Proof. unfold newTarget. now rewrite render_log. Qed.

Lemma end_log (s : state) : lastSaved (out (end_ s)) = Some (best (end_ s)).
Proof.
  destruct (end_fields s) as (_ & -> & _).
  unfold end_, refreshMenuBadges. unfold emit at 1.
  cbn [out set_out lastSaved]. rewrite render_log. reflexivity.
Qed.

Lemma start_log (r : Q) (s : state) :
  lastSaved (out (start r s)) = lastSaved (out s) /\
  best (start r s) = best s /\ paused (start r s) = paused s.
Proof.
  unfold start. rewrite render_log, newTarget_log.
  match goal with |- context [render ?x] =>
    destruct (render_keeps x) as (-> & _ & -> & _) end.
  match goal with |- context [newTarget r ?x] =>
    destruct (newTarget_fields r x) as (_ & _ & _ & -> & -> & _) end.
  repeat split; reflexivity.
Qed.

(** *** How a session ends *)

(** What one event does to the best: either it ends a live session, and
    the best is raised to the streak and saved, or it leaves the best and
    the saved value alone. *)
Definition closes (s s' : state) : Prop :=
  live s = true /\ live s' = false /\ streak s' = streak s /\
  best s' = Z.max (best s) (streak s) /\
  lastSaved (out s') = Some (best s').

Definition keeps (s s' : state) : Prop :=
  best s' = best s /\ lastSaved (out s') = lastSaved (out s).

Lemma end_closes (s x : state) :
  live s = true -> streak x = streak s -> best x = best s ->
  closes s (end_ x).
Proof.
  intros Hl Hs Hb. unfold closes. rewrite end_log.
  destruct (end_fields x) as (-> & -> & -> & _).
  rewrite Hs, Hb. solve_fields.
Qed.

Lemma hit_outcome (i : Z) (r : Q) (s : state) :
  closes s (hit i r s) \/ keeps s (hit i r s).
Proof.
  destruct (live s) eqn:Hl; [destruct (paused s) eqn:Hp|].
  - right. rewrite hit_ignored_when_idle by now right. split; reflexivity.
  - destruct (Z.eq_dec i (targetIndex s)) as [-> | Hi].
    + right. rewrite (hit_correct r s Hl Hp). unfold keeps.
      rewrite newTarget_log.
      match goal with |- context [newTarget r ?x] =>
        destruct (newTarget_fields r x) as (_ & _ & _ & _ & -> & _) end.
      split; reflexivity.
    + left. rewrite (hit_wrong i r s Hl Hp Hi). now apply end_closes.
  - right. rewrite hit_ignored_when_idle by now left. split; reflexivity.
Qed.

Lemma loop_cases (t : Q) (s : state) :
  (negb (live s) || paused s = true /\
   loop t s = set_last t (emit RequestFrame s)) \/
  (live s = true /\ paused s = false /\
   timeLeft s <= timer s + frame_dt t s /\
   loop t s = end_ (emit (Msg "Too slow.")
                      (set_timer (timer s + frame_dt t s)
                         (set_last t (emit RequestFrame s))))) \/
  (live s = true /\ paused s = false /\
   timer s + frame_dt t s < timeLeft s /\
   loop t s = render (set_timer (timer s + frame_dt t s)
                        (set_last t (emit RequestFrame s)))).
Proof.
  unfold loop. cbn [live paused set_last emit set_out].
  destruct (negb (live s) || paused s) eqn:Hg; [left; split; reflexivity|].
  apply orb_false_iff in Hg as [Hl Hp]. apply negb_false_iff in Hl.
  right. unfold countdown. cbn [timer timeLeft set_timer].
  destruct (Js.geb _ _) eqn:E.
  - left. apply Js.geb_le in E. repeat split; assumption || reflexivity.
  - right. unfold Js.geb in E. apply not_true_iff_false in E.
    rewrite Qle_bool_iff in E. apply Qnot_le_lt in E.
    repeat split; assumption || reflexivity.
Qed.

Lemma loop_outcome (t : Q) (s : state) :
  closes s (loop t s) \/ keeps s (loop t s).
Proof.
  destruct (loop_cases t s) as [(_ & ->) | [(Hl & _ & _ & ->) | (_ & _ & _ & ->)]].
  - right. split; reflexivity.
  - left. now apply end_closes.
  - right. unfold keeps. rewrite render_log.
    match goal with |- context [render ?x] =>
      destruct (render_keeps x) as (-> & _) end.
    split; reflexivity.
Qed.

Lemma react_step_outcome (e : event) (s : state) :
  closes s (step e s) \/ keeps s (step e s).
Proof.
  destruct e as [t | i r | r | r | ]; cbn [step].
  - apply loop_outcome.
  - apply hit_outcome.
  - right. unfold keyEnter. destruct (negb (live s)); [|split; reflexivity].
    destruct (start_log r s) as (H1 & H2 & _). split; assumption.
  - right. unfold restart. destruct (start_log r s) as (H1 & H2 & _).
    split; assumption.
  - right. split; reflexivity.
Qed.

(** X16.  A live session that is not paused ends on a wrong pad and on a frame
    that takes the timer to the response window or past it: the session is
    no longer live, the streak stands, the best is the maximum of the old best
    and the streak, and that best is handed to [store.set].  A frame that
    leaves the timer short of the window only advances the timer. *)
Theorem session_ends_on_miss_or_timeout (i : Z) (r t : Q) (s : state) :
  live s = true -> paused s = false ->
  (i <> targetIndex s -> closes s (hit i r s)) /\
  (timeLeft s <= timer s + frame_dt t s -> closes s (loop t s)) /\
  (timer s + frame_dt t s < timeLeft s ->
   live (loop t s) = true /\
   timer (loop t s) = timer s + frame_dt t s /\
   streak (loop t s) = streak s /\ best (loop t s) = best s /\
   timeLeft (loop t s) = timeLeft s /\
   targetIndex (loop t s) = targetIndex s).
Proof.
  intros Hl Hp. split; [|split].
  - intros Hi. rewrite (hit_wrong i r s Hl Hp Hi). now apply end_closes.
  - intros Hlate.
    destruct (loop_cases t s) as [(Hg & _) | [(_ & _ & _ & ->) | (_ & _ & Hlt & _)]].
    + rewrite Hl, Hp in Hg. discriminate Hg.
    + now apply end_closes.
    + lra.
  - intros Hlt.
    destruct (loop_cases t s) as [(Hg & _) | [(_ & _ & Hlate & _) | (_ & _ & _ & ->)]].
    + rewrite Hl, Hp in Hg. discriminate Hg.
    + lra.
    + match goal with |- context [render ?x] =>
        destruct (render_keeps x) as (-> & _ & _ & -> & -> & -> & -> & -> & _) end.
      repeat split; assumption || reflexivity.
Qed.

(** A live session at streak 3 whose last frame came at 1000 ms. *)
Definition playing : state := set_last 1000 (set_best 1 (liveAt 3)).

(** A wrong pad ends it with a best of 3; so do frames until the window
    of 1.46 s has passed; one frame alone only advances the timer. *)
Lemma session_ends_on_miss_or_timeout_witness :
  live playing = true /\ paused playing = false /\
  best (hit (targetIndex playing + 1) 0.5 playing) = 3%Z /\
  lastSaved (out (hit (targetIndex playing + 1) 0.5 playing)) = Some 3%Z /\
  timer (loop 1040 playing) == 0.04 /\
  live (loop 1050 (set_timer 1.5 playing)) = false.
Proof.
  assert (Hl : live playing = true) by (vm_compute; reflexivity).
  assert (Hp : paused playing = false) by (vm_compute; reflexivity).
  destruct (session_ends_on_miss_or_timeout (targetIndex playing + 1) 0.5 1040
              playing Hl Hp) as (Hmiss & _ & Hshort).
  assert (Hl' : live (set_timer 1.5 playing) = true) by (vm_compute; reflexivity).
  assert (Hp' : paused (set_timer 1.5 playing) = false) by (vm_compute; reflexivity).
  destruct (session_ends_on_miss_or_timeout 0 0.5 1050 (set_timer 1.5 playing)
              Hl' Hp') as (_ & Hlate & _).
  assert (Hne : (targetIndex playing + 1 <> targetIndex playing)%Z) by lia.
  destruct (Hmiss Hne) as (_ & _ & _ & Hb & Hsaved).
  assert (Hmax : Z.max (best playing) (streak playing) = 3%Z)
    by (vm_compute; reflexivity).
  rewrite Hmax in Hb. rewrite Hb in Hsaved.
  assert (H1 : timer playing + frame_dt 1040 playing < timeLeft playing)
    by (vm_compute; reflexivity).
  assert (H2 : timeLeft (set_timer 1.5 playing) <=
               timer (set_timer 1.5 playing) + frame_dt 1050 (set_timer 1.5 playing))
    by (vm_compute; discriminate).
  destruct (Hshort H1) as (_ & Ht & _).
  destruct (Hlate H2) as (_ & Hdead & _).
  split; [exact Hl|]. split; [exact Hp|]. split; [exact Hb|].
  split; [exact Hsaved|]. split; [rewrite Ht; vm_compute; reflexivity | exact Hdead].
Defined.

(** *** The best streak *)

(** X17.  Whatever happens, the best streak never goes down, and it changes only
    when a live session ends; a restart, also in the middle of a live
    session, starts over from streak 0 without saving anything, so the
    streak it drops is not counted. *)
Theorem best_streak_never_decreases (es : list event) (s : state) :
  (best s <= best (run es s))%Z /\
  (forall e, best (step e s) <> best s ->
     live s = true /\ live (step e s) = false /\
     best (step e s) = streak s) /\
  (forall r, streak (restart r s) = 0%Z /\ live (restart r s) = true /\
     best (restart r s) = best s /\
     lastSaved (out (restart r s)) = lastSaved (out s)).
Proof.
  split; [|split].
  - revert s. induction es as [|e rest IH]; intros s; [apply Z.le_refl|].
    change (run (e :: rest) s) with (run rest (step e s)).
    apply Z.le_trans with (best (step e s)); [|apply IH].
    destruct (react_step_outcome e s) as [(_ & _ & _ & -> & _) | (-> & _)]; lia.
  - intros e Hne.
    destruct (react_step_outcome e s) as [(Hl & Hd & _ & Hb & _) | (Hb & _)].
    + split; [exact Hl|]. split; [exact Hd|]. rewrite Hb in Hne |- *. lia.
    + contradiction.
  - intros r. unfold restart.
    destruct (start_fields r s) as (Hl & Hs & _).
    destruct (start_log r s) as (Ho & Hb & _).
    repeat split; assumption.
Qed.

(** *** The timer *)

Definition inTime (s : state) : Prop := live s = true -> timer s < timeLeft s.

Lemma newTarget_inTime (r : Q) (s : state) : inTime (newTarget r s).
Proof.
  intros _. destruct (newTarget_fields r s) as (-> & _ & _ & _ & _ & -> & _).
  destruct (window_bounds (streak s)). lra.
Qed.

Lemma render_inTime (s : state) : inTime s -> inTime (render s).
Proof.
  unfold inTime.
  destruct (render_keeps s) as (_ & _ & _ & -> & _ & -> & -> & _). tauto.
Qed.

Lemma end_inTime (s : state) : inTime (end_ s).
Proof. intros Hl. destruct (end_fields s) as (E & _). congruence. Qed.

Lemma step_inTime (e : event) (s : state) : inTime s -> inTime (step e s).
Proof.
  intros Hs. destruct e as [t | i r | r | r | ]; cbn [step].
  - destruct (loop_cases t s) as [(_ & ->) | [(_ & _ & _ & ->) | (_ & _ & Hlt & ->)]].
    + exact Hs.
    + apply end_inTime.
    + apply render_inTime. intros _. exact Hlt.
  - destruct (live s) eqn:Hl; [destruct (paused s) eqn:Hp|].
    + rewrite hit_ignored_when_idle by now right. exact Hs.
    + destruct (Z.eq_dec i (targetIndex s)) as [-> | Hi].
      * rewrite (hit_correct r s Hl Hp). apply newTarget_inTime.
      * rewrite (hit_wrong i r s Hl Hp Hi). apply end_inTime.
    + rewrite hit_ignored_when_idle by now left. exact Hs.
  - unfold keyEnter. destruct (negb (live s)); [|exact Hs].
    unfold start. apply render_inTime, newTarget_inTime.
  - unfold restart, start. apply render_inTime, newTarget_inTime.
  - exact Hs.
Qed.

(** X18.  A live session never holds an expired timer: after any events, if the
    session is live its timer is below its response window (the frame that
    would take the timer to the window ends the session instead). *)
Theorem live_timer_within_window (es : list event) (s : state) :
  inTime s -> inTime (run es s).
Proof.
  revert s. induction es as [|e rest IH]; intros s Hs; [exact Hs|].
  change (run (e :: rest) s) with (run rest (step e s)).
  apply IH. now apply step_inTime.
Qed.

(** A session started on the fresh engine, after three frames. *)
Lemma live_timer_within_window_witness :
  inTime fresh /\
  live (run [PressEnter 0.3; Frame 1000; Frame 1040; Frame 1080] fresh) = true /\
  timer (run [PressEnter 0.3; Frame 1000; Frame 1040; Frame 1080] fresh) <
  timeLeft (run [PressEnter 0.3; Frame 1000; Frame 1040; Frame 1080] fresh).
Proof.
  assert (Hs : inTime fresh)
    by (intros Hl; vm_compute in Hl; discriminate Hl).
  assert (Hl : live (run [PressEnter 0.3; Frame 1000; Frame 1040; Frame 1080]
                       fresh) = true) by (vm_compute; reflexivity).
  split; [exact Hs|]. split; [exact Hl|].
  exact (live_timer_within_window _ fresh Hs Hl).
Defined.

(** *** Targets *)

Definition onPads (s : state) : Prop := (0 <= targetIndex s <= 3)%Z.

Definition fairEvent (e : event) : Prop :=
  match e with
  | Pad _ r | PressEnter r | PressRestart r => JsFacts.unit r
  | _ => True
  end.

Lemma newTarget_onPads (r : Q) (s : state) :
  JsFacts.unit r -> onPads (newTarget r s).
Proof.
  intros [H0 H1]. unfold onPads.
  destruct (newTarget_fields r s) as (_ & _ & _ & _ & _ & _ & -> & _).
  change 4 with (inject_Z 4).
  pose proof (JsFacts.floor_unit_scaled r 4 H0 H1 eq_refl). lia.
Qed.

Lemma render_onPads (s : state) : onPads s -> onPads (render s).
Proof.
  unfold onPads.
  now destruct (render_keeps s) as (_ & _ & _ & _ & _ & _ & _ & -> & _).
Qed.

Lemma end_onPads (s : state) : onPads s -> onPads (end_ s).
Proof.
  unfold onPads.
  now destruct (end_fields s) as (_ & _ & _ & _ & _ & _ & -> & _).
Qed.

Lemma step_onPads (e : event) (s : state) :
  fairEvent e -> onPads s -> onPads (step e s).
Proof.
  intros He Hs. destruct e as [t | i r | r | r | ]; cbn [step]; cbn in He.
  - destruct (loop_cases t s) as [(_ & ->) | [(_ & _ & _ & ->) | (_ & _ & _ & ->)]].
    + exact Hs.
    + apply end_onPads. exact Hs.
    + apply render_onPads. exact Hs.
  - destruct (live s) eqn:Hl; [destruct (paused s) eqn:Hp|].
    + rewrite hit_ignored_when_idle by now right. exact Hs.
    + destruct (Z.eq_dec i (targetIndex s)) as [-> | Hi].
      * rewrite (hit_correct r s Hl Hp). now apply newTarget_onPads.
      * rewrite (hit_wrong i r s Hl Hp Hi). apply end_onPads. exact Hs.
    + rewrite hit_ignored_when_idle by now left. exact Hs.
  - unfold keyEnter. destruct (negb (live s)); [|exact Hs].
    unfold start. now apply render_onPads, newTarget_onPads.
  - unfold restart, start. now apply render_onPads, newTarget_onPads.
  - exact Hs.
Qed.

(** X19.  With values of [Math.random()] in [[0, 1)] the target is always one
    of the four pads: its index stays between 0 and 3 through any events,
    so a live session always has a pad that scores. *)
Theorem target_stays_on_pads (es : list event) (s : state) :
  Forall fairEvent es -> onPads s -> onPads (run es s).
Proof.
  intros Hes. revert s. induction Hes as [|e rest He _ IH]; intros s Hs; [exact Hs|].
  change (run (e :: rest) s) with (run rest (step e s)).
  apply IH. now apply step_onPads.
Qed.

Lemma target_stays_on_pads_witness :
  Forall fairEvent [PressEnter 0.99; Frame 1000; PressRestart 0.74] /\
  onPads fresh /\
  targetIndex (run [PressEnter 0.99] fresh) = 3%Z /\
  onPads (run [PressEnter 0.99; Frame 1000; PressRestart 0.74] fresh).
Proof.
  assert (Hu : forall r, 0 <= r -> r < 1 -> JsFacts.unit r) by (intros; split; assumption).
  assert (Hes : Forall fairEvent [PressEnter 0.99; Frame 1000; PressRestart 0.74]).
  { constructor; [apply Hu; vm_compute; [discriminate | reflexivity]|].
    constructor; [exact I|].
    constructor; [apply Hu; vm_compute; [discriminate | reflexivity]|].
    constructor. }
  assert (Hs : onPads fresh) by (split; vm_compute; discriminate).
  split; [exact Hes|]. split; [exact Hs|]. split; [vm_compute; reflexivity|].
  exact (target_stays_on_pads _ fresh Hes Hs).
Defined.

(** *** Streaks *)

(** Correct inputs in a row: each press is the pad of the target at that
    moment, and [rs] are the values of [Math.random()] for the targets that
    follow. *)
Fixpoint chain (rs : list Q) (s : state) : state :=
  match rs with
  | [] => s
  | r :: rest => chain rest (hit (targetIndex s) r s)
  end.

(** X20.  Any number of correct inputs in a row on a live session that is not
    paused keeps it live and raises the streak by their number, whatever
    targets come up; nothing is saved and the best stands; after the last
    one the timer is back at 0 and the window is that of the new streak. *)
Theorem correct_chain_raises_streak (rs : list Q) (s : state) :
  live s = true -> paused s = false ->
  live (chain rs s) = true /\ paused (chain rs s) = false /\
  streak (chain rs s) = (streak s + Z.of_nat (length rs))%Z /\
  best (chain rs s) = best s /\
  lastSaved (out (chain rs s)) = lastSaved (out s) /\
  (rs <> [] ->
   timer (chain rs s) = 0 /\
   timeLeft (chain rs s) = window (streak s + Z.of_nat (length rs))).
Proof.
  revert s. induction rs as [|r rest IH]; intros s Hl Hp.
  - cbn [chain length Z.of_nat]. rewrite Z.add_0_r.
    split; [exact Hl|]. split; [exact Hp|]. split; [reflexivity|].
    split; [reflexivity|]. split; [reflexivity|].
    intros Hne. now destruct Hne.
  - cbn [chain].
    assert (Hhit : live (hit (targetIndex s) r s) = true /\
                   paused (hit (targetIndex s) r s) = false /\
                   streak (hit (targetIndex s) r s) = (streak s + 1)%Z /\
                   best (hit (targetIndex s) r s) = best s /\
                   lastSaved (out (hit (targetIndex s) r s)) = lastSaved (out s) /\
                   timer (hit (targetIndex s) r s) = 0 /\
                   timeLeft (hit (targetIndex s) r s) = window (streak s + 1)).
    { rewrite (hit_correct r s Hl Hp). rewrite newTarget_log.
      match goal with |- context [newTarget r ?x] =>
        destruct (newTarget_fields r x) as (-> & -> & -> & -> & -> & -> & _) end.
      cbn. repeat split; assumption || reflexivity. }
    destruct Hhit as (Hl1 & Hp1 & Hs1 & Hb1 & Ho1 & Ht1 & Hw1).
    destruct (IH (hit (targetIndex s) r s) Hl1 Hp1)
      as (Hl2 & Hp2 & Hs2 & Hb2 & Ho2 & Hlast).
    replace (streak s + Z.of_nat (length (r :: rest)))%Z
      with (streak s + 1 + Z.of_nat (length rest))%Z
      by (cbn [length]; lia).
    rewrite <- Hs1.
    split; [exact Hl2|]. split; [exact Hp2|]. split; [exact Hs2|].
    split; [now rewrite Hb2|]. split; [now rewrite Ho2|].
    intros _. destruct rest as [|r' rest'].
    + cbn [chain length Z.of_nat]. rewrite Z.add_0_r.
      split; [exact Ht1 | now rewrite Hw1, Hs1].
    + apply Hlast. discriminate.
Qed.

(** Three correct inputs on a session just started. *)
Lemma correct_chain_raises_streak_witness :
  live (start 0.3 fresh) = true /\ paused (start 0.3 fresh) = false /\
  streak (chain [0.1; 0.6; 0.9] (start 0.3 fresh)) = 3%Z /\
  live (chain [0.1; 0.6; 0.9] (start 0.3 fresh)) = true /\
  timeLeft (chain [0.1; 0.6; 0.9] (start 0.3 fresh)) == 1.46.
Proof.
  assert (Hl : live (start 0.3 fresh) = true) by (vm_compute; reflexivity).
  assert (Hp : paused (start 0.3 fresh) = false) by (vm_compute; reflexivity).
  destruct (correct_chain_raises_streak [0.1; 0.6; 0.9] (start 0.3 fresh) Hl Hp)
    as (Hlive & _ & Hs & _ & _ & Hlast).
  assert (H0 : streak (start 0.3 fresh) = 0%Z) by (vm_compute; reflexivity).
  rewrite H0 in Hs, Hlast.
  split; [exact Hl|]. split; [exact Hp|]. split; [exact Hs|].
  split; [exact Hlive|].
  destruct Hlast as (_ & Hw); [discriminate|].
  rewrite Hw. vm_compute. reflexivity.
Defined.

End ReactFacts.

(** ** The game shell: [mountGame], [backToMenu] and the transport
    buttons (lines 78-130), over the registry [games] (lines 925-929) *)

Module Shell.

Inductive game : Type :=
| GRunner
| GClicker
| GReact.

(** What [games[gameId]] can give when it is not [undefined]: one of the
    three engines, or a property that the object literal [games] inherits
    from [Object.prototype], which is truthy and has no [mount], [unmount],
    [restart] or [togglePause]. *)
Inductive entry : Type :=
| Engine (g : game)
| Inherited.

(** The property names of [Object.prototype] in ECMAScript. *)
Definition inherited : list string :=
  ["constructor"; "hasOwnProperty"; "isPrototypeOf"; "propertyIsEnumerable";
   "toLocaleString"; "toString"; "valueOf"; "__proto__";
   "__defineGetter__"; "__defineSetter__"; "__lookupGetter__";
   "__lookupSetter__"].

(** [games[gameId]]; a card without [data-open] gives the id [null], which
    is looked up as the string of that name. *)
Definition lookup (gameId : string) : option entry :=
  if String.eqb gameId "runner" then Some (Engine GRunner)
  else if String.eqb gameId "clicker" then Some (Engine GClicker)
  else if String.eqb gameId "react" then Some (Engine GReact)
  else if existsb (String.eqb gameId) inherited then Some Inherited
  else None.

(** Which screen carries [screen--active]. *)
Inductive screenName : Type :=
| MenuScreen
| GameScreen.

(** The three engines of the registry, [activeGame], the screen shown and
    the [aria-pressed] state of the pause button.  The texts of the header
    and of the menu badges, which nothing reads back, are left out. *)
Record arcade : Type := mkArcade {
  runner : Runner.state;
  clicker : Clicker.engine;
  react : React.state;
  activeGame : option entry;
  screen : screenName;
  pausePressed : bool
}.

Definition set_runner (v : Runner.state) (a : arcade) : arcade :=
  mkArcade v (clicker a) (react a) (activeGame a) (screen a) (pausePressed a).
Definition set_clicker (v : Clicker.engine) (a : arcade) : arcade :=
  mkArcade (runner a) v (react a) (activeGame a) (screen a) (pausePressed a).
Definition set_react (v : React.state) (a : arcade) : arcade :=
  mkArcade (runner a) (clicker a) v (activeGame a) (screen a) (pausePressed a).
Definition set_activeGame (v : option entry) (a : arcade) : arcade :=
  mkArcade (runner a) (clicker a) (react a) v (screen a) (pausePressed a).
Definition set_screen (v : screenName) (a : arcade) : arcade :=
  mkArcade (runner a) (clicker a) (react a) (activeGame a) v (pausePressed a).
Definition set_pausePressed (v : bool) (a : arcade) : arcade :=
  mkArcade (runner a) (clicker a) (react a) (activeGame a) (screen a) v.

(** The page once the script has run: the engines as their constructors
    leave them, no active game, the menu shown. *)
Definition boot (bestRunner : Z) (saved : Clicker.progress) (bestReact : Z) : arcade :=
  mkArcade (Runner.init bestRunner) (Clicker.init saved) (React.init bestReact)
    None MenuScreen false.

(** [if (activeGame?.unmount) activeGame.unmount();] *)
Definition unmountActive (a : arcade) : arcade :=
  match activeGame a with
  | Some (Engine GRunner) => set_runner (Runner.unmount (runner a)) a
  | Some (Engine GClicker) => set_clicker (Clicker.unmount (clicker a)) a
  | Some (Engine GReact) => set_react (React.unmount (react a)) a
  | Some Inherited | None => a
  end.

(** [activeGame.mount(gameHost)] *)
Definition mountEngine (g : game) (a : arcade) : arcade :=
  match g with
  | GRunner => set_runner (Runner.mount (runner a)) a
  | GClicker => set_clicker (Clicker.mount (clicker a)) a
  | GReact => set_react (React.mount (react a)) a
  end.

(** How a click handler ends. *)
Inductive outcome : Type :=
| Returned
| TypeError.

(** [mountGame(gameId)] (lines 81-97); on an inherited property
    [activeGame.mount(gameHost)] throws, [mount] being [undefined]. *)
Definition mountGame (gameId : string) (a : arcade) : outcome * arcade :=
  let a := unmountActive a in
  let a := set_activeGame (lookup gameId) a in
  match activeGame a with
  | None => (Returned, a)
  | Some Inherited => (TypeError, a)
  | Some (Engine g) =>
      let a := mountEngine g a in
      let a := set_pausePressed false a in
      (Returned, set_screen GameScreen a)
  end.

(** [backToMenu()] (lines 99-105) *)
Definition backToMenu (a : arcade) : arcade :=
  let a := unmountActive a in
  let a := set_activeGame None a in
  set_screen MenuScreen a.

(** The click handler of [btnRestart] (lines 110-113); [r] is the value of
    [Math.random()] a restart of GLITCH REACT uses. *)
Definition pressRestart (r : Q) (a : arcade) : arcade :=
  match activeGame a with
  | Some (Engine GRunner) => set_runner (Runner.reset (runner a)) a
  | Some (Engine GClicker) => set_clicker (Clicker.restart (clicker a)) a
  | Some (Engine GReact) => set_react (React.restart r (react a)) a
  | Some Inherited | None => a
  end.

(** The click handler of [btnPause] (lines 115-120): the button shows
    what [togglePause()] returned, which for BYTE RUNNER is [true] when it
    is not running. *)
Definition pressPause (a : arcade) : arcade :=
  match activeGame a with
  | Some (Engine GRunner) =>
      let paused := if negb (Runner.running (runner a)) then true
                    else negb (Runner.paused (runner a)) in
      set_pausePressed paused (set_runner (Runner.togglePause (runner a)) a)
  | Some (Engine GClicker) =>
      set_pausePressed (negb (Clicker.paused (clicker a)))
        (set_clicker (Clicker.togglePause (clicker a)) a)
  | Some (Engine GReact) =>
      set_pausePressed (negb (React.paused (react a)))
        (set_react (React.togglePause (react a)) a)
  | Some Inherited | None => a
  end.

(** What can happen on the page: the cards and buttons of the shell, and
    the frames, keys and clicks an engine listens to, which reach it only
    while it is the active game (its listeners and its frame callback exist
    from [mount] to [unmount]). *)
Inductive event : Type :=
| Open (gameId : string)
| Back
| ClickRestart (r : Q)
| ClickPause
| ToRunner (e : Runner.event)
| ToClicker (e : Clicker.event)
| ToReact (e : React.event).

Definition step (e : event) (a : arcade) : arcade :=
  match e with
  | Open gameId => snd (mountGame gameId a)
  | Back => backToMenu a
  | ClickRestart r => pressRestart r a
  | ClickPause => pressPause a
  | ToRunner e =>
      match activeGame a with
      | Some (Engine GRunner) => set_runner (Runner.step e (runner a)) a
      | _ => a
      end
  | ToClicker e =>
      match activeGame a with
      | Some (Engine GClicker) => set_clicker (Clicker.step e (clicker a)) a
      | _ => a
      end
  | ToReact e =>
      match activeGame a with
      | Some (Engine GReact) => set_react (React.step e (react a)) a
      | _ => a
      end
  end.

Definition run (es : list event) (a : arcade) : arcade :=
  fold_left (fun a e => step e a) es a.

(** Whether the last call an engine made about its frame callback was
    [requestAnimationFrame] (and not [cancelAnimationFrame], or none). *)
Fixpoint runnerAwaits (log : list Runner.effect) : bool :=
  match log with
  | [] => false
  | Runner.RequestFrame :: _ => true
  | Runner.CancelFrame :: _ => false
  | _ :: older => runnerAwaits older
  end.

Fixpoint clickerAwaits (log : list Clicker.effect) : bool :=
  match log with
  | [] => false
  | Clicker.RequestFrame :: _ => true
  | Clicker.CancelFrame :: _ => false
  | _ :: older => clickerAwaits older
  end.

Fixpoint reactAwaits (log : list React.effect) : bool :=
  match log with
  | [] => false
  | React.RequestFrame :: _ => true
  | React.CancelFrame :: _ => false
  | _ :: older => reactAwaits older
  end.

(** An engine is on when it is mounted and awaits a frame (and, for BYTE
    RUNNER, is running), and off when it is neither mounted nor awaiting a
    frame. *)
Definition runnerIs (on : bool) (s : Runner.state) : Prop :=
  Runner.ctx s = on /\ runnerAwaits (Runner.out s) = on /\
  (on = true -> Runner.running s = true).

Definition clickerIs (on : bool) (s : Clicker.engine) : Prop :=
  Clicker.root s = on /\ clickerAwaits (Clicker.out s) = on.

Definition reactIs (on : bool) (s : React.state) : Prop :=
  React.root s = on /\ reactAwaits (React.out s) = on.

Definition isActive (g : game) (a : arcade) : bool :=
  match activeGame a, g with
  | Some (Engine GRunner), GRunner
  | Some (Engine GClicker), GClicker
  | Some (Engine GReact), GReact => true
  | _, _ => false
  end.

(** Exactly the active game is on. *)
Definition coherent (a : arcade) : Prop :=
  runnerIs (isActive GRunner a) (runner a) /\
  clickerIs (isActive GClicker a) (clicker a) /\
  reactIs (isActive GReact a) (react a).

(** *** Each engine stays on between [mount] and [unmount] *)

Lemma runner_draw_on (dt : Q) (s : Runner.state) :
  Runner.ctx (Runner.draw dt s) = Runner.ctx s /\
  Runner.running (Runner.draw dt s) = Runner.running s /\
  runnerAwaits (Runner.out (Runner.draw dt s)) = runnerAwaits (Runner.out s).
Proof.
  destruct (Runner.draw_fields dt s)
    as (_ & _ & _ & _ & _ & _ & _ & _ & _ & _ & _ & -> & -> & _).
  split; [reflexivity|]. split; [reflexivity|].
  unfold Runner.draw. destruct (Runner.ctx s); reflexivity.
Qed.

Lemma runner_collide_on (os : list Runner.obstacle) (w : Runner.state) :
  Runner.ctx (Runner.collide os w) = Runner.ctx w /\
  Runner.running (Runner.collide os w) = Runner.running w /\
  runnerAwaits (Runner.out (Runner.collide os w)) = runnerAwaits (Runner.out w).
Proof.
  destruct (Runner.collide_cases os w) as [[_ ->] | [_ ->]];
    repeat split; reflexivity.
Qed.

Lemma runner_update_on (dt : Q) (r : Runner.rand) (s : Runner.state) :
  Runner.ctx (Runner.update dt r s) = Runner.ctx s /\
  Runner.running (Runner.update dt r s) = Runner.running s /\
  runnerAwaits (Runner.out (Runner.update dt r s)) = runnerAwaits (Runner.out s).
Proof.
  destruct (Runner.alive s) eqn:Ha.
  - rewrite (Runner.update_alive dt r s Ha).
    destruct (runner_collide_on (Runner.obstacles (Runner.simulate dt r s))
                (Runner.simulate dt r s)) as (-> & -> & ->).
    destruct (Runner.simulate_frame dt r s)
      as (_ & _ & -> & _ & _ & -> & -> & _).
    repeat split; reflexivity.
  - rewrite (Runner.update_dead dt r s Ha). repeat split; reflexivity.
Qed.

Lemma runner_reset_on (s : Runner.state) :
  Runner.ctx (Runner.reset s) = Runner.ctx s /\
  Runner.running (Runner.reset s) = true /\
  runnerAwaits (Runner.out (Runner.reset s)) = runnerAwaits (Runner.out s).
Proof.
  unfold Runner.reset.
  match goal with |- context [Runner.draw ?d ?x] =>
    destruct (runner_draw_on d x) as (-> & -> & ->) end.
  repeat split; reflexivity.
Qed.

Lemma runner_loop_on (t : Q) (r : Runner.rand) (s : Runner.state) :
  runnerIs true s -> runnerIs true (Runner.loop t r s).
Proof.
  intros (Hc & Hw & Hr). specialize (Hr eq_refl).
  unfold Runner.loop. rewrite Hr. cbn [negb].
  match goal with |- runnerIs true (Runner.draw ?d ?x) =>
    destruct (runner_draw_on d x) as (E1 & E2 & E3) end.
  unfold runnerIs. rewrite E1, E2, E3.
  match goal with |- context [if ?c then _ else _] => destruct c end.
  - match goal with |- context [Runner.update ?d r ?x] =>
      destruct (runner_update_on d r x) as (-> & -> & ->) end.
    cbn. repeat split; first [assumption | reflexivity | intros _; assumption | intros _; reflexivity].
  - cbn. repeat split; first [assumption | reflexivity | intros _; assumption | intros _; reflexivity].
Qed.

Lemma runner_restart_on (s : Runner.state) :
  runnerIs true s -> runnerIs true (Runner.reset s).
Proof.
  intros (Hc & Hw & _).
  destruct (runner_reset_on s) as (E1 & E2 & E3).
  unfold runnerIs. rewrite E1, E2, E3.
  repeat split; first [assumption | reflexivity | intros _; assumption | intros _; reflexivity].
Qed.

Lemma runner_pause_on (s : Runner.state) :
  runnerIs true s -> runnerIs true (Runner.togglePause s).
Proof.
  intros Hs. unfold Runner.togglePause. destruct (negb (Runner.running s)); exact Hs.
Qed.

Lemma runner_step_on (e : Runner.event) (s : Runner.state) :
  runnerIs true s -> runnerIs true (Runner.step e s).
Proof.
  intros Hs. destruct e as [t r | | | | dir]; cbn [Runner.step].
  - now apply runner_loop_on.
  - destruct Hs as (Hc & Hw & _).
    destruct (runner_reset_on s) as (E1 & E2 & E3).
    unfold runnerIs. rewrite E1, E2, E3.
    repeat split; first [assumption | reflexivity | intros _; assumption | intros _; reflexivity].
  - unfold Runner.keyEnter. destruct (negb (Runner.alive s)); [|exact Hs].
    destruct Hs as (Hc & Hw & _).
    destruct (runner_reset_on s) as (E1 & E2 & E3).
    unfold runnerIs. rewrite E1, E2, E3.
    repeat split; first [assumption | reflexivity | intros _; assumption | intros _; reflexivity].
  - unfold Runner.togglePause. destruct (negb (Runner.running s)); exact Hs.
  - unfold Runner.moveLane. destruct (negb (Runner.alive s)); exact Hs.
Qed.

Lemma runner_started_on (x : Runner.state) :
  Runner.ctx x = true ->
  runnerIs true
    (Runner.emit Runner.RequestFrame (Runner.set_running true (Runner.stop x))).
Proof. intros Hc. repeat split; first [exact Hc | reflexivity]. Qed.

Lemma runner_mount_on (s : Runner.state) : runnerIs true (Runner.mount s).
Proof.
  change (Runner.mount s)
    with (Runner.emit Runner.RequestFrame
            (Runner.set_running true
               (Runner.stop (Runner.reset (Runner.set_ctx true s))))).
  apply runner_started_on.
  now destruct (runner_reset_on (Runner.set_ctx true s)) as (-> & _).
Qed.

Lemma runner_unmount_off (s : Runner.state) : runnerIs false (Runner.unmount s).
Proof. repeat split; try reflexivity. discriminate. Qed.

Lemma clicker_render_on (s : Clicker.engine) :
  Clicker.root (Clicker.render s) = Clicker.root s /\
  clickerAwaits (Clicker.out (Clicker.render s)) = clickerAwaits (Clicker.out s).
Proof.
  destruct (Clicker.render_fields s) as (_ & _ & _ & _ & ->).
  split; [reflexivity|]. unfold Clicker.render.
  destruct (Clicker.root s); reflexivity.
Qed.

Lemma clicker_publish_on (s : Clicker.engine) :
  Clicker.root (Clicker.refreshMenuBadges (Clicker.render (Clicker.save s))) =
  Clicker.root s /\
  clickerAwaits
    (Clicker.out (Clicker.refreshMenuBadges (Clicker.render (Clicker.save s)))) =
  clickerAwaits (Clicker.out s).
Proof.
  unfold Clicker.refreshMenuBadges. unfold Clicker.emit at 1 2.
  cbn [Clicker.root Clicker.out Clicker.with_out clickerAwaits].
  destruct (clicker_render_on (Clicker.save s)) as (-> & ->).
  split; reflexivity.
Qed.

Lemma clicker_restart_on (s : Clicker.engine) :
  clickerIs true s -> clickerIs true (Clicker.restart s).
Proof.
  intros (Hr & Hw). unfold clickerIs, Clicker.restart.
  match goal with
  | |- context [Clicker.refreshMenuBadges (Clicker.render (Clicker.save ?x))] =>
      destruct (clicker_publish_on x) as (-> & ->) end.
  split; assumption.
Qed.

Lemma clicker_pause_on (s : Clicker.engine) :
  clickerIs true s -> clickerIs true (Clicker.togglePause s).
Proof. intros (Hr & Hw). split; assumption. Qed.

Lemma clicker_step_on (e : Clicker.event) (s : Clicker.engine) :
  clickerIs true s -> clickerIs true (Clicker.step e s).
Proof.
  intros (Hr & Hw). unfold clickerIs.
  destruct e as [t | r | i | | ]; cbn [Clicker.step].
  - unfold Clicker.loop.
    cbn [Clicker.paused Clicker.with_last Clicker.emit Clicker.with_out].
    destruct (Clicker.paused s); [split; [exact Hr | reflexivity]|].
    unfold Clicker.passive.
    cbn [Clicker.tickTimer Clicker.with_tickTimer Clicker.state].
    destruct (Js.geb _ _); [|split; [exact Hr | reflexivity]].
    match goal with |- context [Js.ltb 0 ?g] => destruct (Js.ltb 0 g) end;
      [|split; [exact Hr | reflexivity]].
    match goal with
    | |- context [Clicker.refreshMenuBadges (Clicker.render (Clicker.save ?x))] =>
        destruct (clicker_publish_on x) as (-> & ->) end.
    split; [exact Hr | reflexivity].
  - unfold Clicker.click.
    destruct (Clicker.clickGain r (Clicker.state s)) as [gain critical].
    unfold Clicker.addBits. unfold Clicker.emit at 1 2.
    cbn [Clicker.root Clicker.out Clicker.with_out clickerAwaits].
    match goal with
    | |- context [Clicker.refreshMenuBadges (Clicker.render (Clicker.save ?x))] =>
        destruct (clicker_publish_on x) as (-> & ->) end.
    split; assumption.
  - destruct (nth_error Clicker.upgradeDefs i) as [u|]; [|split; assumption].
    unfold Clicker.purchase. destruct (Js.ltb _ _); [split; assumption|].
    match goal with
    | |- context [Clicker.refreshMenuBadges (Clicker.render (Clicker.save ?x))] =>
        destruct (clicker_publish_on x) as (-> & ->) end.
    split; assumption.
  - unfold Clicker.restart.
    match goal with
    | |- context [Clicker.refreshMenuBadges (Clicker.render (Clicker.save ?x))] =>
        destruct (clicker_publish_on x) as (-> & ->) end.
    split; assumption.
  - split; assumption.
Qed.

Lemma clicker_mount_on (s : Clicker.engine) : clickerIs true (Clicker.mount s).
Proof.
  unfold Clicker.mount, clickerIs.
  match goal with |- context [Clicker.render ?x] =>
    destruct (clicker_render_on x) as (-> & ->) end.
  split; reflexivity.
Qed.

Lemma clicker_unmount_off (s : Clicker.engine) : clickerIs false (Clicker.unmount s).
Proof. split; reflexivity. Qed.

Lemma react_render_on (s : React.state) :
  React.root (React.render s) = React.root s /\
  reactAwaits (React.out (React.render s)) = reactAwaits (React.out s).
Proof.
  destruct (React.render_keeps s) as (_ & -> & _).
  split; [reflexivity|]. unfold React.render.
  destruct (React.root s); reflexivity.
Qed.

Lemma react_newTarget_on (r : Q) (s : React.state) :
  React.root (React.newTarget r s) = React.root s /\
  reactAwaits (React.out (React.newTarget r s)) = reactAwaits (React.out s).
Proof.
  unfold React.newTarget.
  match goal with |- context [React.render ?x] =>
    destruct (react_render_on x) as (-> & ->) end.
  split; reflexivity.
Qed.

Lemma react_end_on (s : React.state) :
  React.root (React.end_ s) = React.root s /\
  reactAwaits (React.out (React.end_ s)) = reactAwaits (React.out s).
Proof.
  unfold React.end_, React.refreshMenuBadges. unfold React.emit at 1 2.
  cbn [React.root React.out React.set_out reactAwaits].
  match goal with |- context [React.render ?x] =>
    destruct (react_render_on x) as (-> & ->) end.
  split; reflexivity.
Qed.

Lemma react_start_on (r : Q) (s : React.state) :
  React.root (React.start r s) = React.root s /\
  reactAwaits (React.out (React.start r s)) = reactAwaits (React.out s).
Proof.
  unfold React.start.
  match goal with |- context [React.render ?x] =>
    destruct (react_render_on x) as (-> & ->) end.
  match goal with |- context [React.newTarget r ?x] =>
    destruct (react_newTarget_on r x) as (-> & ->) end.
  split; reflexivity.
Qed.

Lemma react_restart_on (r : Q) (s : React.state) :
  reactIs true s -> reactIs true (React.restart r s).
Proof.
  intros (Hr & Hw). unfold reactIs, React.restart.
  destruct (react_start_on r s) as (-> & ->). split; assumption.
Qed.

Lemma react_pause_on (s : React.state) :
  reactIs true s -> reactIs true (React.togglePause s).
Proof. intros (Hr & Hw). split; assumption. Qed.

Lemma react_step_on (e : React.event) (s : React.state) :
  reactIs true s -> reactIs true (React.step e s).
Proof.
  intros (Hr & Hw). unfold reactIs.
  destruct e as [t | i r | r | r | ]; cbn [React.step].
  - destruct (ReactFacts.loop_cases t s)
      as [(_ & ->) | [(_ & _ & _ & ->) | (_ & _ & _ & ->)]].
    + split; [exact Hr | reflexivity].
    + match goal with |- context [React.end_ ?x] =>
        destruct (react_end_on x) as (-> & ->) end.
      split; [exact Hr | reflexivity].
    + match goal with |- context [React.render ?x] =>
        destruct (react_render_on x) as (-> & ->) end.
      split; [exact Hr | reflexivity].
  - destruct (React.live s) eqn:Hl; [destruct (React.paused s) eqn:Hp|].
    + rewrite React.hit_ignored_when_idle by now right. split; assumption.
    + destruct (Z.eq_dec i (React.targetIndex s)) as [-> | Hi].
      * rewrite (React.hit_correct r s Hl Hp).
        match goal with |- context [React.newTarget r ?x] =>
          destruct (react_newTarget_on r x) as (-> & ->) end.
        split; assumption.
      * rewrite (React.hit_wrong i r s Hl Hp Hi).
        match goal with |- context [React.end_ ?x] =>
          destruct (react_end_on x) as (-> & ->) end.
        split; assumption.
    + rewrite React.hit_ignored_when_idle by now left. split; assumption.
  - unfold React.keyEnter. destruct (negb (React.live s)); [|split; assumption].
    destruct (react_start_on r s) as (-> & ->). split; assumption.
  - unfold React.restart. destruct (react_start_on r s) as (-> & ->).
    split; assumption.
  - split; assumption.
Qed.

Lemma react_mount_on (s : React.state) : reactIs true (React.mount s).
Proof.
  unfold React.mount, reactIs.
  match goal with |- context [React.render ?x] =>
    destruct (react_render_on x) as (-> & ->) end.
  split; reflexivity.
Qed.

Lemma react_unmount_off (s : React.state) : reactIs false (React.unmount s).
Proof. split; reflexivity. Qed.

(** *** One game at a time *)

Definition allOff (a : arcade) : Prop :=
  runnerIs false (runner a) /\ clickerIs false (clicker a) /\
  reactIs false (react a).

Lemma coherent_cases (a : arcade) :
  coherent a <->
  match activeGame a with
  | Some (Engine GRunner) =>
      runnerIs true (runner a) /\ clickerIs false (clicker a) /\
      reactIs false (react a)
  | Some (Engine GClicker) =>
      runnerIs false (runner a) /\ clickerIs true (clicker a) /\
      reactIs false (react a)
  | Some (Engine GReact) =>
      runnerIs false (runner a) /\ clickerIs false (clicker a) /\
      reactIs true (react a)
  | Some Inherited | None => allOff a
  end.
Proof.
  unfold coherent, allOff, isActive.
  destruct (activeGame a) as [[[| |]|]|]; reflexivity.
Qed.

Lemma unmountActive_off (a : arcade) : coherent a -> allOff (unmountActive a).
Proof.
  rewrite coherent_cases. unfold allOff, unmountActive.
  destruct (activeGame a) as [[[| |]|]|]; intros (Hr & Hc & Ht);
    cbn [runner clicker react set_runner set_clicker set_react];
    refine (conj _ (conj _ _));
    first [assumption | apply runner_unmount_off | apply clicker_unmount_off
          | apply react_unmount_off].
Qed.

Lemma mountEngine_coherent (g : game) (a : arcade) :
  allOff a -> activeGame a = Some (Engine g) -> coherent (mountEngine g a).
Proof.
  intros (Hr & Hc & Ht) Hg. apply coherent_cases.
  destruct g; cbn [mountEngine activeGame runner clicker react set_runner
    set_clicker set_react]; rewrite Hg; refine (conj _ (conj _ _));
    first [assumption | apply runner_mount_on | apply clicker_mount_on
          | apply react_mount_on].
Qed.

Lemma label_keeps_coherent (a : arcade) (label : bool) :
  coherent a -> coherent (set_pausePressed label a).
Proof. intros H. exact H. Qed.

Lemma screen_keeps_coherent (a : arcade) (scr : screenName) :
  coherent a -> coherent (set_screen scr a).
Proof. intros H. exact H. Qed.

Lemma mountGame_coherent (gameId : string) (a : arcade) :
  coherent a -> coherent (snd (mountGame gameId a)).
Proof.
  intros Ha. pose proof (unmountActive_off a Ha) as Hoff.
  unfold mountGame. cbn [activeGame set_activeGame].
  destruct (lookup gameId) as [[g|]|]; cbn [snd].
  - apply screen_keeps_coherent, label_keeps_coherent.
    apply (mountEngine_coherent g
             (set_activeGame (Some (Engine g)) (unmountActive a)));
      [exact Hoff | reflexivity].
  - apply coherent_cases. exact Hoff.
  - apply coherent_cases. exact Hoff.
Qed.

Lemma backToMenu_coherent (a : arcade) : coherent a -> coherent (backToMenu a).
Proof.
  intros Ha. apply coherent_cases. exact (unmountActive_off a Ha).
Qed.

Lemma set_runner_coherent (x : Runner.state) (a : arcade) :
  activeGame a = Some (Engine GRunner) -> coherent a ->
  (runnerIs true (runner a) -> runnerIs true x) -> coherent (set_runner x a).
Proof.
  intros Hg Ha Hx. apply coherent_cases. apply coherent_cases in Ha.
  cbn [activeGame set_runner runner clicker react]. rewrite Hg in *.
  destruct Ha as (Hr & Hc & Ht).
  refine (conj _ (conj _ _)); [exact (Hx Hr) | exact Hc | exact Ht].
Qed.

Lemma set_clicker_coherent (x : Clicker.engine) (a : arcade) :
  activeGame a = Some (Engine GClicker) -> coherent a ->
  (clickerIs true (clicker a) -> clickerIs true x) -> coherent (set_clicker x a).
Proof.
  intros Hg Ha Hx. apply coherent_cases. apply coherent_cases in Ha.
  cbn [activeGame set_clicker runner clicker react]. rewrite Hg in *.
  destruct Ha as (Hr & Hc & Ht).
  refine (conj _ (conj _ _)); [exact Hr | exact (Hx Hc) | exact Ht].
Qed.

Lemma set_react_coherent (x : React.state) (a : arcade) :
  activeGame a = Some (Engine GReact) -> coherent a ->
  (reactIs true (react a) -> reactIs true x) -> coherent (set_react x a).
Proof.
  intros Hg Ha Hx. apply coherent_cases. apply coherent_cases in Ha.
  cbn [activeGame set_react runner clicker react]. rewrite Hg in *.
  destruct Ha as (Hr & Hc & Ht).
  refine (conj _ (conj _ _)); [exact Hr | exact Hc | exact (Hx Ht)].
Qed.

Lemma pressRestart_coherent (r : Q) (a : arcade) :
  coherent a -> coherent (pressRestart r a).
Proof.
  intros Ha. unfold pressRestart.
  destruct (activeGame a) as [[[| |]|]|] eqn:Hg; [| | |exact Ha|exact Ha].
  - apply set_runner_coherent; [exact Hg | exact Ha | apply runner_restart_on].
  - apply set_clicker_coherent; [exact Hg | exact Ha | apply clicker_restart_on].
  - apply set_react_coherent; [exact Hg | exact Ha | apply react_restart_on].
Qed.

Lemma pressPause_coherent (a : arcade) : coherent a -> coherent (pressPause a).
Proof.
  intros Ha. unfold pressPause.
  destruct (activeGame a) as [[[| |]|]|] eqn:Hg; [| | |exact Ha|exact Ha].
  - apply label_keeps_coherent.
    apply set_runner_coherent; [exact Hg | exact Ha | apply runner_pause_on].
  - apply label_keeps_coherent.
    apply set_clicker_coherent; [exact Hg | exact Ha | apply clicker_pause_on].
  - apply label_keeps_coherent.
    apply set_react_coherent; [exact Hg | exact Ha | apply react_pause_on].
Qed.

Lemma step_coherent (e : event) (a : arcade) : coherent a -> coherent (step e a).
Proof.
  intros Ha. destruct e as [gameId | | r | | e | e | e]; cbn [step].
  - now apply mountGame_coherent.
  - now apply backToMenu_coherent.
  - now apply pressRestart_coherent.
  - now apply pressPause_coherent.
  - destruct (activeGame a) as [[[| |]|]|] eqn:Hg; try exact Ha.
    apply set_runner_coherent; [exact Hg | exact Ha | apply runner_step_on].
  - destruct (activeGame a) as [[[| |]|]|] eqn:Hg; try exact Ha.
    apply set_clicker_coherent; [exact Hg | exact Ha | apply clicker_step_on].
  - destruct (activeGame a) as [[[| |]|]|] eqn:Hg; try exact Ha.
    apply set_react_coherent; [exact Hg | exact Ha | apply react_step_on].
Qed.

Lemma run_coherent (es : list event) (a : arcade) :
  coherent a -> coherent (run es a).
Proof.
  revert a. induction es as [|e rest IH]; intros a Ha; [exact Ha|].
  change (run (e :: rest) a) with (run rest (step e a)).
  apply IH. now apply step_coherent.
Qed.

Lemma boot_coherent (bestRunner : Z) (saved : Clicker.progress) (bestReact : Z) :
  coherent (boot bestRunner saved bestReact).
Proof. repeat split; discriminate. Qed.

(** How many engines are mounted. *)
Definition mounted (a : arcade) : nat :=
  (if Runner.ctx (runner a) then 1 else 0) +
  (if Clicker.root (clicker a) then 1 else 0) +
  (if React.root (react a) then 1 else 0).

Lemma coherent_mounted (a : arcade) :
  coherent a ->
  mounted a = match activeGame a with Some (Engine _) => 1%nat | _ => 0%nat end.
Proof.
  rewrite coherent_cases. unfold mounted.
  destruct (activeGame a) as [[[| |]|]|];
    intros ((-> & _) & (-> & _) & (-> & _)); reflexivity.
Qed.

(** The page after its script has run, with nothing in the store. *)
Definition page : arcade := boot 0 Clicker.initial 0.

(** X21.  Whatever cards and buttons are pressed, and whatever reaches the
    engines in between, exactly the active game is mounted and awaits a
    frame: every other engine is unmounted and its last call about its frame
    callback, if any, was [cancelAnimationFrame].  So one engine is mounted
    while [activeGame] is an engine, and none otherwise. *)
Theorem one_game_at_a_time (es : list event) (a : arcade) :
  coherent a ->
  coherent (run es a) /\
  mounted (run es a) =
    match activeGame (run es a) with Some (Engine _) => 1%nat | _ => 0%nat end /\
  mounted (backToMenu (run es a)) = 0%nat.
Proof.
  intros Ha. pose proof (run_coherent es a Ha) as Hrun.
  split; [exact Hrun|]. split; [now apply coherent_mounted|].
  now rewrite (coherent_mounted _ (backToMenu_coherent _ Hrun)).
Qed.

(** Opening the runner, playing a frame, opening the clicker and clicking:
    only the clicker is mounted; after the menu button none is. *)
Lemma one_game_at_a_time_witness :
  coherent page /\
  activeGame (run [Open "runner"; ToRunner (Runner.Frame 16 Runner.someRand);
                   Open "clicker"; ToClicker (Clicker.Click 0.5)] page) =
  Some (Engine GClicker) /\
  mounted (run [Open "runner"; ToRunner (Runner.Frame 16 Runner.someRand);
                Open "clicker"; ToClicker (Clicker.Click 0.5)] page) = 1%nat /\
  mounted (backToMenu
             (run [Open "runner"; ToRunner (Runner.Frame 16 Runner.someRand);
                   Open "clicker"; ToClicker (Clicker.Click 0.5)] page)) = 0%nat.
Proof.
  pose proof (boot_coherent 0 Clicker.initial 0) as Hp.
  split; [exact Hp|]. split; [vm_compute; reflexivity|].
  split; [vm_compute; reflexivity|].
  exact (proj2 (proj2 (one_game_at_a_time _ page Hp))).
Defined.

(** *** Ids that name no engine *)

Lemma lookup_inherited (gameId : string) :
  lookup gameId = Some Inherited <-> In gameId inherited.
Proof.
  split.
  - unfold lookup. repeat (destruct (String.eqb gameId _); [discriminate|]).
    destruct (existsb (String.eqb gameId) inherited) eqn:E; [|discriminate].
    intros _. apply existsb_exists in E. destruct E as (x & Hx & Hq).
    apply String.eqb_eq in Hq. now subst x.
  - intros H. cbv [inherited In] in H.
    repeat (destruct H as [<- | H]; [vm_compute; reflexivity|]).
    destruct H.
Qed.

(** X22.  Opening an id under which [games] holds no engine mounts nothing: the
    previous game is unmounted, the screen and the pause button stay as
    they were, and [activeGame] is what the lookup gave.  When that is
    [undefined] the handler returns; when it is a property inherited from
    [Object.prototype] the handler ends on a [TypeError], and [activeGame]
    is then set but is no game: the restart and pause buttons do nothing. *)
Theorem open_without_engine (gameId : string) (a : arcade) :
  coherent a ->
  (forall g, lookup gameId <> Some (Engine g)) ->
  mounted (snd (mountGame gameId a)) = 0%nat /\
  activeGame (snd (mountGame gameId a)) = lookup gameId /\
  screen (snd (mountGame gameId a)) = screen a /\
  pausePressed (snd (mountGame gameId a)) = pausePressed a /\
  (fst (mountGame gameId a) = TypeError <-> In gameId inherited) /\
  (forall r, pressRestart r (snd (mountGame gameId a)) = snd (mountGame gameId a)) /\
  pressPause (snd (mountGame gameId a)) = snd (mountGame gameId a).
Proof.
  intros Ha Hno.
  pose proof (coherent_mounted _ (mountGame_coherent gameId a Ha)) as Hm.
  rewrite <- lookup_inherited.
  assert (Hshell : screen (unmountActive a) = screen a /\
                   pausePressed (unmountActive a) = pausePressed a).
  { unfold unmountActive. destruct (activeGame a) as [[[| |]|]|]; split; reflexivity. }
  destruct Hshell as (Hs & Hp).
  revert Hm. unfold mountGame, pressRestart, pressPause.
  cbn [activeGame set_activeGame].
  destruct (lookup gameId) as [[g|]|] eqn:Hl; [now destruct (Hno g)| |];
    cbn [fst snd activeGame set_activeGame screen pausePressed]; intros Hm;
    rewrite Hs, Hp; repeat apply conj; try reflexivity; try exact Hm;
    try (intros H; discriminate H).
Qed.

(** From a running BYTE RUNNER, a card whose id is [constructor]. *)
Lemma open_without_engine_witness :
  coherent (run [Open "runner"] page) /\
  lookup "constructor" = Some Inherited /\
  fst (mountGame "constructor" (run [Open "runner"] page)) = TypeError /\
  mounted (snd (mountGame "constructor" (run [Open "runner"] page))) = 0%nat /\
  screen (snd (mountGame "constructor" (run [Open "runner"] page))) = GameScreen.
Proof.
  pose proof (run_coherent [Open "runner"] page (boot_coherent 0 Clicker.initial 0))
    as Hc.
  assert (Hno : forall g, lookup "constructor" <> Some (Engine g))
    by (intros g; vm_compute; discriminate).
  destruct (open_without_engine "constructor" _ Hc Hno)
    as (Hm & _ & Hs & _ & Ht & _).
  split; [exact Hc|]. split; [vm_compute; reflexivity|].
  split; [apply Ht; vm_compute; tauto|].
  split; [exact Hm|]. rewrite Hs. vm_compute. reflexivity.
Defined.

(** *** The pause button *)

(** The [paused] flag of the active game. *)
Definition pausedOf (a : arcade) : option bool :=
  match activeGame a with
  | Some (Engine GRunner) => Some (Runner.paused (runner a))
  | Some (Engine GClicker) => Some (Clicker.paused (clicker a))
  | Some (Engine GReact) => Some (React.paused (react a))
  | Some Inherited | None => None
  end.

Lemma runner_started_paused (x : Runner.state) :
  Runner.paused
    (Runner.emit Runner.RequestFrame (Runner.set_running true (Runner.stop x))) =
  false.
Proof. reflexivity. Qed.

Lemma runner_mount_paused (s : Runner.state) :
  Runner.paused (Runner.mount s) = false.
Proof.
  change (Runner.mount s)
    with (Runner.emit Runner.RequestFrame
            (Runner.set_running true
               (Runner.stop (Runner.reset (Runner.set_ctx true s))))).
  apply runner_started_paused.
Qed.

Lemma clicker_mount_paused (s : Clicker.engine) :
  Clicker.paused (Clicker.mount s) = false.
Proof.
  unfold Clicker.mount.
  match goal with |- context [Clicker.render ?x] =>
    destruct (Clicker.render_fields x) as (_ & -> & _) end.
  reflexivity.
Qed.

Lemma react_mount_paused (s : React.state) :
  React.paused (React.mount s) = false.
Proof.
  unfold React.mount.
  match goal with |- context [React.render ?x] =>
    destruct (React.render_keeps x) as (_ & _ & -> & _) end.
  reflexivity.
Qed.

Lemma mountGame_unpaused (gameId : string) (g : game) (a : arcade) :
  lookup gameId = Some (Engine g) ->
  pausedOf (snd (mountGame gameId a)) = Some false /\
  pausePressed (snd (mountGame gameId a)) = false.
Proof.
  intros Hl. unfold mountGame. cbn [activeGame set_activeGame]. rewrite Hl.
  cbn [snd pausePressed set_screen set_pausePressed]. split; [|reflexivity].
  unfold pausedOf.
  destruct g; cbn [mountEngine activeGame set_screen set_pausePressed set_runner
    set_clicker set_react set_activeGame runner clicker react];
    [rewrite runner_mount_paused | rewrite clicker_mount_paused
    | rewrite react_mount_paused]; reflexivity.
Qed.

(** X23.  The pause button shows the [paused] flag of the active game when that
    game is opened and after every click on the button, which flips the
    flag.  The space key of BYTE RUNNER flips the flag too, but leaves the
    button as it was: after it the button shows the opposite of the flag
    whenever it agreed before. *)
Theorem pause_button_follows_clicks_only (a : arcade) :
  coherent a ->
  (forall gameId g, lookup gameId = Some (Engine g) ->
     pausedOf (snd (mountGame gameId a)) = Some false /\
     pausePressed (snd (mountGame gameId a)) = false) /\
  pausedOf (pressPause a) = option_map negb (pausedOf a) /\
  (forall g, activeGame a = Some (Engine g) ->
     pausedOf (pressPause a) = Some (pausePressed (pressPause a))) /\
  (activeGame a = Some (Engine GRunner) ->
     pausedOf (step (ToRunner Runner.PressPause) a) =
       option_map negb (pausedOf a) /\
     pausePressed (step (ToRunner Runner.PressPause) a) = pausePressed a).
Proof.
  intros Ha. split; [intros gameId g; apply mountGame_unpaused|].
  apply coherent_cases in Ha. unfold pausedOf, pressPause. cbn [step Runner.step].
  destruct (activeGame a) as [[[| |]|]|] eqn:Hg;
    cbn [activeGame set_pausePressed set_runner set_clicker set_react runner
         clicker react pausePressed option_map].
  - destruct Ha as ((_ & _ & Hrun) & _). specialize (Hrun eq_refl).
    unfold Runner.togglePause. rewrite Hrun. cbn [negb]. rewrite Hg.
    repeat apply conj; first [reflexivity | intros; reflexivity | intros; split; reflexivity].
  - rewrite Hg.
    repeat apply conj; first [reflexivity | intros; reflexivity | intros H; discriminate H].
  - rewrite Hg.
    repeat apply conj; first [reflexivity | intros; reflexivity | intros H; discriminate H].
  - rewrite Hg.
    repeat apply conj; first [reflexivity | intros ? H; discriminate H | intros H; discriminate H].
  - rewrite Hg.
    repeat apply conj; first [reflexivity | intros ? H; discriminate H | intros H; discriminate H].
Qed.

(** BYTE RUNNER is opened and paused with the button, then resumed with
    the space key: the button still shows it as paused. *)
Lemma pause_button_follows_clicks_only_witness :
  coherent (run [Open "runner"; ClickPause] page) /\
  pausePressed (run [Open "runner"; ClickPause] page) = true /\
  pausedOf (run [Open "runner"; ClickPause] page) = Some true /\
  pausedOf (step (ToRunner Runner.PressPause)
              (run [Open "runner"; ClickPause] page)) = Some false /\
  pausePressed (step (ToRunner Runner.PressPause)
                  (run [Open "runner"; ClickPause] page)) = true.
Proof.
  pose proof (run_coherent [Open "runner"; ClickPause] page
                (boot_coherent 0 Clicker.initial 0)) as Hc.
  assert (Hg : activeGame (run [Open "runner"; ClickPause] page) =
               Some (Engine GRunner)) by (vm_compute; reflexivity).
  assert (Hp : pausedOf (run [Open "runner"; ClickPause] page) = Some true)
    by (vm_compute; reflexivity).
  assert (Hl : pausePressed (run [Open "runner"; ClickPause] page) = true)
    by (vm_compute; reflexivity).
  destruct (pause_button_follows_clicks_only _ Hc) as (_ & _ & _ & Hkey).
  destruct (Hkey Hg) as (E1 & E2).
  split; [exact Hc|]. split; [exact Hl|]. split; [exact Hp|].
  split; [rewrite E1, Hp; reflexivity | rewrite E2; exact Hl].
Defined.

(** *** Progress across mounts *)

Definition runnerWrites (log : list Runner.effect) : nat :=
  length (List.filter (fun e => match e with Runner.StoreSet _ _ => true | _ => false end) log).

Definition clickerWrites (log : list Clicker.effect) : nat :=
  length (List.filter (fun e => match e with Clicker.StoreSet _ _ => true | _ => false end) log).

Definition reactWrites (log : list React.effect) : nat :=
  length (List.filter (fun e => match e with React.StoreSet _ _ => true | _ => false end) log).

(** What outlives a session: the best scores, the clicker's progress, and
    how often each engine has called [store.set]. *)
Definition kept (a : arcade) : Z * Clicker.progress * Z * (nat * nat * nat) :=
  (Runner.best (runner a), Clicker.state (clicker a), React.best (react a),
   (runnerWrites (Runner.out (runner a)),
    clickerWrites (Clicker.out (clicker a)),
    reactWrites (React.out (react a)))).

Lemma runner_draw_kept (dt : Q) (s : Runner.state) :
  Runner.best (Runner.draw dt s) = Runner.best s /\
  runnerWrites (Runner.out (Runner.draw dt s)) = runnerWrites (Runner.out s).
Proof. unfold Runner.draw. destruct (Runner.ctx s); split; reflexivity. Qed.

Lemma runner_reset_kept (s : Runner.state) :
  Runner.best (Runner.reset s) = Runner.best s /\
  runnerWrites (Runner.out (Runner.reset s)) = runnerWrites (Runner.out s).
Proof.
  unfold Runner.reset.
  match goal with |- context [Runner.draw ?d ?x] =>
    destruct (runner_draw_kept d x) as (-> & ->) end.
  split; reflexivity.
Qed.

Lemma runner_started_kept (x : Runner.state) :
  Runner.best
    (Runner.emit Runner.RequestFrame (Runner.set_running true (Runner.stop x))) =
  Runner.best x /\
  runnerWrites
    (Runner.out
       (Runner.emit Runner.RequestFrame (Runner.set_running true (Runner.stop x)))) =
  runnerWrites (Runner.out x).
Proof. split; reflexivity. Qed.

Lemma runner_mount_kept (s : Runner.state) :
  Runner.best (Runner.mount s) = Runner.best s /\
  runnerWrites (Runner.out (Runner.mount s)) = runnerWrites (Runner.out s).
Proof.
  change (Runner.mount s)
    with (Runner.emit Runner.RequestFrame
            (Runner.set_running true
               (Runner.stop (Runner.reset (Runner.set_ctx true s))))).
  destruct (runner_started_kept (Runner.reset (Runner.set_ctx true s))) as (-> & ->).
  destruct (runner_reset_kept (Runner.set_ctx true s)) as (-> & ->).
  split; reflexivity.
Qed.

Lemma runner_unmount_kept (s : Runner.state) :
  Runner.best (Runner.unmount s) = Runner.best s /\
  runnerWrites (Runner.out (Runner.unmount s)) = runnerWrites (Runner.out s).
Proof. split; reflexivity. Qed.

Lemma clicker_render_kept (s : Clicker.engine) :
  Clicker.state (Clicker.render s) = Clicker.state s /\
  clickerWrites (Clicker.out (Clicker.render s)) = clickerWrites (Clicker.out s).
Proof.
  split; [apply Clicker.render_fields|].
  unfold Clicker.render. destruct (Clicker.root s); reflexivity.
Qed.

Lemma clicker_mount_kept (s : Clicker.engine) :
  Clicker.state (Clicker.mount s) = Clicker.state s /\
  clickerWrites (Clicker.out (Clicker.mount s)) = clickerWrites (Clicker.out s).
Proof.
  unfold Clicker.mount.
  match goal with |- context [Clicker.render ?x] =>
    destruct (clicker_render_kept x) as (-> & ->) end.
  split; reflexivity.
Qed.

Lemma clicker_unmount_kept (s : Clicker.engine) :
  Clicker.state (Clicker.unmount s) = Clicker.state s /\
  clickerWrites (Clicker.out (Clicker.unmount s)) = clickerWrites (Clicker.out s).
Proof. split; reflexivity. Qed.

Lemma react_render_kept (s : React.state) :
  React.best (React.render s) = React.best s /\
  reactWrites (React.out (React.render s)) = reactWrites (React.out s).
Proof.
  split; [apply React.render_keeps|].
  unfold React.render. destruct (React.root s); reflexivity.
Qed.

Lemma react_mount_kept (s : React.state) :
  React.best (React.mount s) = React.best s /\
  reactWrites (React.out (React.mount s)) = reactWrites (React.out s).
Proof.
  unfold React.mount.
  match goal with |- context [React.render ?x] =>
    destruct (react_render_kept x) as (-> & ->) end.
  split; reflexivity.
Qed.

Lemma react_unmount_kept (s : React.state) :
  React.best (React.unmount s) = React.best s /\
  reactWrites (React.out (React.unmount s)) = reactWrites (React.out s).
Proof. split; reflexivity. Qed.

Lemma unmountActive_kept (a : arcade) : kept (unmountActive a) = kept a.
Proof.
  unfold unmountActive, kept.
  destruct (activeGame a) as [[[| |]|]|];
    cbn [runner clicker react set_runner set_clicker set_react]; reflexivity.
Qed.

Lemma mountEngine_kept (g : game) (a : arcade) : kept (mountEngine g a) = kept a.
Proof.
  unfold kept.
  destruct g; cbn [mountEngine runner clicker react set_runner set_clicker set_react].
  - now destruct (runner_mount_kept (runner a)) as (-> & ->).
  - now destruct (clicker_mount_kept (clicker a)) as (-> & ->).
  - now destruct (react_mount_kept (react a)) as (-> & ->).
Qed.

Lemma mountGame_kept (gameId : string) (a : arcade) :
  kept (snd (mountGame gameId a)) = kept a.
Proof.
  rewrite <- (unmountActive_kept a). unfold mountGame.
  cbn [activeGame set_activeGame].
  destruct (lookup gameId) as [[g|]|]; cbn [snd]; try reflexivity.
  apply (mountEngine_kept g (set_activeGame (Some (Engine g)) (unmountActive a))).
Qed.

Lemma backToMenu_kept (a : arcade) : kept (backToMenu a) = kept a.
Proof. rewrite <- (unmountActive_kept a). reflexivity. Qed.

Lemma pressPause_kept (a : arcade) : kept (pressPause a) = kept a.
Proof.
  unfold pressPause, kept.
  destruct (activeGame a) as [[[| |]|]|];
    cbn [runner clicker react set_runner set_clicker set_react set_pausePressed];
    try reflexivity.
  unfold Runner.togglePause. destruct (negb (Runner.running (runner a))); reflexivity.
Qed.

Lemma kept_clicker (a b : arcade) :
  kept a = kept b -> Clicker.state (clicker a) = Clicker.state (clicker b).
Proof. unfold kept. intros H. now injection H. Qed.

(** The events that only change what is shown or whether a game runs. *)
Definition transport (e : event) : Prop :=
  match e with
  | Open _ | Back | ClickPause => True
  | _ => False
  end.

(** X24.  Opening games, going back to the menu and pausing, in any order,
    change no best score and nothing of the clicker's progress, and call
    [store.set] not once: an engine keeps its progress in its closure from
    one mount to the next, and neither reloads nor saves it on the way. *)
Theorem switching_keeps_progress (es : list event) (a : arcade) :
  Forall transport es -> kept (run es a) = kept a.
Proof.
  intros H. revert a. induction H as [|e rest He _ IH]; intros a; [reflexivity|].
  change (run (e :: rest) a) with (run rest (step e a)). rewrite IH.
  destruct e as [gameId | | r | | e | e | e]; cbn [step]; try destruct He.
  - apply mountGame_kept.
  - apply backToMenu_kept.
  - apply pressPause_kept.
Qed.

(** After two clicks in NEON CLICKER, a tour of the other games. *)
Lemma switching_keeps_progress_witness :
  Forall transport [Open "runner"; ClickPause; Open "react"; Back; Open "clicker"] /\
  Clicker.state
    (clicker (run [Open "runner"; ClickPause; Open "react"; Back; Open "clicker"]
                (run [Open "clicker"; ToClicker (Clicker.Click 0.5);
                      ToClicker (Clicker.Click 0.5)] page))) =
  Clicker.state
    (clicker (run [Open "clicker"; ToClicker (Clicker.Click 0.5);
                   ToClicker (Clicker.Click 0.5)] page)).
Proof.
  assert (Ht : Forall transport
                 [Open "runner"; ClickPause; Open "react"; Back; Open "clicker"])
    by (repeat constructor).
  split; [exact Ht|].
  pose proof (switching_keeps_progress _
                (run [Open "clicker"; ToClicker (Clicker.Click 0.5);
                      ToClicker (Clicker.Click 0.5)] page) Ht) as H.
  exact (kept_clicker _ _ H).
Defined.

End Shell.
